(** * Caption normalisation, keyword alignment and step timing

  A shallow embedding of the algorithmic core of the recipe pipeline:

  - [src/lambda/youtube-extractor/extractor.py]: [_dedupe_yt_captions]
    and [parse_captions] (module [Extractor]);
  - [src/youtube/generate_recipes.py]: [parse_vtt_cues],
    [search_vtt_for_keywords] and [predict_step_times]
    (module [Recipes]).

  Conventions of the embedding.

  - Python [str] is [string]; the text is read as ASCII, so [len] is
    [String.length] and the whitespace and digit classes are the ASCII
    ones.
  - The time of a caption, cue or segment is an integer number of
    milliseconds ([Z]).  The source holds seconds as floats built from
    an integer second count and a three digit fraction; on such values
    the comparisons used by the code order exactly as the millisecond
    counts do, except at the exact boundary of the [< 0.15], [>= 1]
    and [>= 2] tests where rounding may fall on either side.  Match
    timestamps, step windows and the video duration are whole seconds,
    as in the source.
  - A function that can raise returns [result]; a function with no
    [raise] and only total operations returns its value directly.
  - The third-party libraries (webvtt, snowballstemmer, rapidfuzz) are
    parameters of the sections that use them. *)

From Stdlib Require Import ZArith String List Lia Ascii Bool.
From Stdlib Require Import QArith Sorted.
From stdpp Require Import base strings gmap list.

Open Scope string_scope.
Open Scope list_scope.
Open Scope Z_scope.

(** ** Python string operations *)

Module PyStr.

(** [str.isspace] on one ASCII character: tab, newline, vertical tab,
    form feed, carriage return, the four separators 0x1c-0x1f, space. *)
Definition is_space (c : ascii) : bool :=
  let n := nat_of_ascii c in
  ((9 <=? n)%nat && (n <=? 13)%nat) || ((28 <=? n)%nat && (n <=? 32)%nat).

(** [\d] *)
Definition is_digit (c : ascii) : bool :=
  let n := nat_of_ascii c in (48 <=? n)%nat && (n <=? 57)%nat.

(** [\w]: letters, digits and the underscore. *)
Definition is_word (c : ascii) : bool :=
  let n := nat_of_ascii c in
  is_digit c || ((65 <=? n)%nat && (n <=? 90)%nat)
  || ((97 <=? n)%nat && (n <=? 122)%nat) || (n =? 95)%nat.

Definition lower_char (c : ascii) : ascii :=
  let n := nat_of_ascii c in
  if (65 <=? n)%nat && (n <=? 90)%nat then ascii_of_nat (n + 32) else c.

Fixpoint map_chars (f : ascii -> ascii) (s : string) : string :=
  match s with
  | EmptyString => EmptyString
  | String c s' => String (f c) (map_chars f s')
  end.

(** [s.lower()] *)
Definition lower (s : string) : string := map_chars lower_char s.

Fixpoint lstrip (s : string) : string :=
  match s with
  | EmptyString => EmptyString
  | String c s' => if is_space c then lstrip s' else s
  end.

Fixpoint rstrip (s : string) : string :=
  match s with
  | EmptyString => EmptyString
  | String c s' =>
      let r := rstrip s' in
      if is_space c && String.eqb r "" then "" else String c r
  end.

(** [s.strip()] *)
Definition strip (s : string) : string := rstrip (lstrip s).

(** [s.split(sep)] for a one-character separator: never the empty
    list, [""] splits to [[""]]. *)
Fixpoint split_on (sep : ascii) (s : string) : list string :=
  match s with
  | EmptyString => [EmptyString]
  | String c s' =>
      if Ascii.eqb c sep then EmptyString :: split_on sep s'
      else match split_on sep s' with
           | w :: ws => String c w :: ws
           | [] => [String c EmptyString]
           end
  end.

(** [s.split()]: the maximal runs of non-whitespace characters. *)
Fixpoint split_ws (s : string) : list string :=
  match s with
  | EmptyString => []
  | String c s' =>
      if is_space c then split_ws s'
      else match s' with
           | EmptyString => [String c EmptyString]
           | String c' _ =>
               if is_space c' then String c EmptyString :: split_ws s'
               else match split_ws s' with
                    | w :: ws => String c w :: ws
                    | [] => [String c EmptyString]
                    end
           end
  end.

(** [sep.join(parts)] *)
Definition join (sep : string) (parts : list string) : string :=
  String.concat sep parts.

(** [sub in s] *)
Fixpoint contains (sub s : string) : bool :=
  String.prefix sub s
  || match s with
     | EmptyString => false
     | String _ s' => contains sub s'
     end.

(** [s.find(sub)], [None] standing for [-1]. *)
Fixpoint find (sub s : string) : option nat :=
  if String.prefix sub s then Some 0%nat
  else match s with
       | EmptyString => None
       | String _ s' => option_map S (find sub s')
       end.

(** [s[a:b]] for [0 <= a], [0 <= b]. *)
Definition slice (a b : nat) (s : string) : string :=
  String.substring a (b - a) s.

(** [s.replace(a, b)] for a one-character [a]. *)
Fixpoint replace_char (a : ascii) (b : string) (s : string) : string :=
  match s with
  | EmptyString => EmptyString
  | String c s' =>
      if Ascii.eqb c a then b +:+ replace_char a b s'
      else String c (replace_char a b s')
  end.

(** [re.split(" +", s)]: split at every maximal run of spaces. *)
Fixpoint re_split_spaces (s : string) : list string :=
  match s with
  | EmptyString => [EmptyString]
  | String c s' =>
      if Ascii.eqb c " " then
        match s' with
        | String c' _ =>
            if Ascii.eqb c' " " then re_split_spaces s'
            else EmptyString :: re_split_spaces s'
        | EmptyString => [EmptyString; EmptyString]
        end
      else match re_split_spaces s' with
           | w :: ws => String c w :: ws
           | [] => [String c EmptyString]
           end
  end.

Definition newline : ascii := ascii_of_nat 10.
Definition nl : string := String newline EmptyString.

End PyStr.

(** ** Exceptions *)

Inductive exn : Type :=
| ValueError (msg : string)
| KeyError (key : string)
| ZeroDivisionError
| TypeError
| LibraryError (msg : string).

Definition result (A : Type) : Type := (exn + A)%type.
Definition Ok {A} (a : A) : result A := inr a.
Definition Raise {A} (e : exn) : result A := inl e.
Definition rbind {A B} (m : result A) (k : A -> result B) : result B :=
match m with
| inl e => inl e
| inr a => k a
end.

Notation "'do' x <- m ;; k" := (rbind m (fun x => k))
(at level 10, x name, m at level 99, k at level 200).

(** ** extractor.py *)

Module Extractor.
Import PyStr.

(** A webvtt [Caption] as the code uses it: [start_time], [end_time]
    (here in milliseconds; [_ts_to_secs] reads them) and [text].  The
    string attributes [start] and [end] are the same two timestamps
    printed as [HH:MM:SS.mmm].  The text is taken to hold no cue tag and
    no line break other than the newline character, so that reading
    [text] back after setting it gives the string that was set.  Every
    caption of the input is an object of its own: the loop mutates the
    pending caption only until it yields it. *)
Record Caption : Type := mkCaption {
  start_time : Z;
  end_time : Z;
  text : string
}.

Definition set_text (c : Caption) (t : string) : Caption :=
  mkCaption (start_time c) (end_time c) t.
Definition set_end (c : Caption) (e : Z) : Caption :=
  mkCaption (start_time c) e (text c).

(** [_ts_to_secs], in milliseconds. *)
Definition _ts_to_secs (timestamp : Z) : Z := timestamp.

(** [max(self._ts_to_secs(subtitle.start_time) - 0.001, 0)] printed by
    [_seconds_to_timestamp] and read back by the [end] setter. *)
Definition pulled_back_end (subtitle : Caption) : Z :=
  Z.max (_ts_to_secs (start_time subtitle) - 1) 0.

(** What one iteration of the loop body decides before the boundary
    correction. *)
Inductive overlap : Type :=
| Continue (previous_subtitle : Caption)
| Proceed (subtitle : Caption) (singleword : bool).

Definition trim_overlap (previous_subtitle subtitle : Caption) : overlap :=
  let subtitle := set_text subtitle (strip (text subtitle)) in
  if (String.length (text subtitle) =? 0)%nat then
    Continue previous_subtitle
  else if (_ts_to_secs (start_time subtitle) - _ts_to_secs (end_time subtitle) <? 150)
          && contains (text subtitle) (text previous_subtitle) then
    Continue (set_end previous_subtitle (end_time subtitle))
  else
    let current_lines := split_on newline (text subtitle) in
    let last_lines := split_on newline (text previous_subtitle) in
    if String.eqb (hd "" current_lines) (List.last last_lines "") then
      if (length last_lines =? 1)%nat then
        if (length (split_on " " (hd "" last_lines)) <? 2)%nat
           && (2 <? String.length (hd "" last_lines))%nat then
          Proceed (set_text subtitle
                     (hd "" current_lines +:+ " " +:+ join nl (tl current_lines)))
                  true
        else Proceed (set_text subtitle (join nl (tl current_lines))) false
      else Proceed (set_text subtitle (join nl (tl current_lines))) false
    else
      if (length (split_on " " (text subtitle)) <=? 2)%nat then
        let title_text := text subtitle in
        let title_text :=
          if negb (String.eqb (String.substring 0 1 title_text) " ")
          then " " +:+ title_text else title_text in
        Continue (mkCaption (start_time previous_subtitle)
                            (end_time subtitle)
                            (text previous_subtitle +:+ title_text))
      else Proceed subtitle false.

(** The boundary correction: the pending cue with its end pulled back,
    and the new cue with an inverted interval swapped. *)
Definition fix_boundaries (previous_subtitle subtitle : Caption)
  : Caption * Caption :=
  let previous_subtitle :=
    if _ts_to_secs (start_time subtitle) <=? _ts_to_secs (end_time previous_subtitle)
    then set_end previous_subtitle (pulled_back_end subtitle)
    else previous_subtitle in
  let subtitle :=
    if _ts_to_secs (end_time subtitle) <=? _ts_to_secs (start_time subtitle)
    then mkCaption (end_time subtitle) (start_time subtitle) (text subtitle)
    else subtitle in
  (previous_subtitle, subtitle).

(** The body of [for subtitle in subs_iter] once a cue is pending:
    the new pending cue and what is yielded. *)
Definition dedupe_step (previous_subtitle subtitle : Caption)
  : Caption * option Caption :=
  match trim_overlap previous_subtitle subtitle with
  | Continue previous_subtitle => (previous_subtitle, None)
  | Proceed subtitle singleword =>
      let '(previous_subtitle, subtitle) :=
        fix_boundaries previous_subtitle subtitle in
      (subtitle, if singleword then None else Some previous_subtitle)
  end.

Fixpoint dedupe_loop (previous_subtitle : Caption) (subs : list Caption)
  : list Caption :=
  match subs with
  | [] => [previous_subtitle]
  | subtitle :: rest =>
      match dedupe_step previous_subtitle subtitle with
      | (pending, None) => dedupe_loop pending rest
      | (pending, Some yielded) => yielded :: dedupe_loop pending rest
      end
  end.

(** [list(self._dedupe_yt_captions(subs_iter))] *)
Definition _dedupe_yt_captions (subs_iter : list Caption) : list Caption :=
  match subs_iter with
  | [] => []
  | first :: rest => dedupe_loop first rest
  end.

Record Segment : Type := mkSegment {
  startTime : Z;
  endTime : Z;
  seg_text : string
}.

Definition separator (time_diff : Z) : string :=
  if 2000 <=? time_diff then nl +:+ nl
  else if 1000 <=? time_diff then nl
  else " ".

Definition segment_of (caption : Caption) : Segment :=
  mkSegment (start_time caption) (end_time caption)
            (strip (replace_char newline " " (text caption))).

(** The [for i, caption in enumerate(captions_list)] loop; [prev] is
    [captions_list[i - 1]] when [i > 0]. *)
Fixpoint assemble_loop (prev : option Caption) (captions_list : list Caption)
         (result : string) (segments : list Segment)
  : string * list Segment :=
  match captions_list with
  | [] => (result, segments)
  | caption :: rest =>
      let current_text := strip (replace_char newline " " (text caption)) in
      let start_time' := start_time caption in
      let end_time' := end_time caption in
      let segments := segments ++ [mkSegment start_time' end_time' current_text] in
      let result :=
        match prev with
        | Some p => result +:+ separator (start_time' - end_time p)
        | None => result
        end in
      assemble_loop (Some caption) rest (result +:+ current_text) segments
  end.

Section ParseCaptions.
(** [webvtt.from_string]: the parsed captions, or the library's
    exception. *)
Variable webvtt_from_string : string -> result (list Caption).

Definition parse_captions (ext content : string)
  : result (string * list Segment) :=
  if negb (String.eqb ext "vtt") then
    Raise (ValueError ("Unsupported caption format: " +:+ ext))
  else
    do captions <- webvtt_from_string content ;;
    let captions_list := _dedupe_yt_captions captions in
    let '(result, segments) := assemble_loop None captions_list "" [] in
    Ok (join " " (re_split_spaces result), segments).
End ParseCaptions.

End Extractor.

(** ** generate_recipes.py *)

Module Recipes.
Import PyStr.

(** [STOPWORDS] *)
Definition STOPWORDS : gset string :=
  list_to_set
    [ "form"; "place"; "put"; "add"; "make"; "take"; "get"; "use"; "set";
      "turn"; "let"; "give"; "keep"; "bring"; "start"; "try"; "want";
      "top"; "side"; "bit"; "way"; "time"; "thing"; "part"; "end" ].

(** A cue of [parse_vtt_cues]; [start_seconds] in milliseconds. *)
Record Cue : Type := mkCue {
  start_seconds : Z;
  text : string;
  normalized : string
}.

(** A match of [search_vtt_for_keywords]; [timestamp_seconds] in whole
    seconds. *)
Record Match : Type := mkMatch {
  keyword : string;
  timestamp_seconds : Z;
  context : string
}.

(** *** Regular expressions of [parse_vtt_cues] *)

(** A template in which [d] stands for [\d] and every other character
    for itself, matched at the start of [s]: the rest of [s]. *)
Fixpoint match_template (tmpl s : string) : option string :=
  match tmpl, s with
  | EmptyString, _ => Some s
  | String t tmpl', String c s' =>
      if (if Ascii.eqb t "d" then is_digit c else Ascii.eqb t c)
      then match_template tmpl' s' else None
  | String _ _, EmptyString => None
  end.

(** [\d{2}:\d{2}:\d{2}\.\d{3}] at the start of [s]: the matched text
    and what follows it. *)
Definition match_hms (s : string) : option (string * string) :=
  match match_template "dd:dd:dd.ddd" s with
  | Some rest => Some (String.substring 0 12 s, rest)
  | None => None
  end.

Definition strip_prefix (p s : string) : option string :=
  if String.prefix p s
  then Some (String.substring (String.length p) (String.length s) s)
  else None.

(** [re.match(r'(\d{2}:\d{2}:\d{2}\.\d{3})\s*-->\s*(\d{2}:\d{2}:\d{2}\.\d{3})', line)]:
    groups 1 and 2. *)
Definition timestamp_match (line : string) : option (string * string) :=
  match match_hms line with
  | Some (g1, rest) =>
      match strip_prefix "-->" (lstrip rest) with
      | Some rest =>
          match match_hms (lstrip rest) with
          | Some (g2, _) => Some (g1, g2)
          | None => None
          end
      | None => None
      end
  | None => None
  end.

(** The number written by the digits of [s], other characters skipped:
    ["07"] is 7 and ["05.279"] is 5279. *)
Fixpoint digits_value (acc : Z) (s : string) : Z :=
  match s with
  | EmptyString => acc
  | String c s' =>
      if is_digit c
      then digits_value (acc * 10 + (Z.of_nat (nat_of_ascii c) - 48)) s'
      else digits_value acc s'
  end.

(** [float(parts[0]) * 3600 + float(parts[1]) * 60 + float(parts[2])],
    in milliseconds. *)
Definition to_seconds (start_time : string) : Z :=
  let parts := split_on ":" start_time in
  digits_value 0 (nth 0 parts "") * 3600000
  + digits_value 0 (nth 1 parts "") * 60000
  + digits_value 0 (nth 2 parts "").

Fixpoint has_gt (s : string) : bool :=
  match s with
  | EmptyString => false
  | String c s' => Ascii.eqb c ">" || has_gt s'
  end.

(** [re.sub(r'<[^>]+>', '', s)]: a tag opens at a [<] that is followed
    by a character other than [>] and, later, by a [>]. *)
Fixpoint remove_tags (s : string) : string :=
  match s with
  | EmptyString => EmptyString
  | String c s' =>
      if Ascii.eqb c "<"
         && match s' with
            | String c' s'' => negb (Ascii.eqb c' ">") && has_gt s''
            | EmptyString => false
            end
      then in_tag s'
      else String c (remove_tags s')
  end
with in_tag (s : string) : string :=
  match s with
  | EmptyString => EmptyString
  | String c s' => if Ascii.eqb c ">" then remove_tags s' else in_tag s'
  end.

(** The condition of the inner [while] on [lines[i]]. *)
Definition is_text_line (line : string) : bool :=
  negb (String.eqb (strip line) "")
  && negb (bool_decide (is_Some (match_template "dd:dd:dd.ddd" (strip line)))).

Section Stemmer.
(** [stemmer.stemWords] maps the Snowball English stemmer over a
    list of words. *)
Variable stemWord : string -> string.

Definition stemWords (words : list string) : list string :=
  map stemWord words.

Definition normalize_text (text : string) : string :=
  let text := lower text in
  let text :=
    map_chars (fun c => if is_word c || is_space c then c else " "%char) text in
  let words := split_ws text in
  let stemmed := stemWords words in
  join " " stemmed.

Definition stem_keyword (keyword : string) : string :=
  let words := split_ws (lower keyword) in
  let stemmed := stemWords words in
  join " " stemmed.

(** What the block at one timestamp line appends to [cues]. *)
Definition cue_of (start_seconds : Z) (text_lines : list string) : list Cue :=
  match text_lines with
  | [] => []
  | _ :: _ =>
      let raw_text := join " " text_lines in
      let clean_text := remove_tags raw_text in
      let clean_text := join " " (split_ws clean_text) in
      if String.eqb clean_text "" then []
      else [mkCue start_seconds clean_text (normalize_text clean_text)]
  end.

(** The outer [while i < len(lines)] on the lines from [i] on; the
    inner [fix] is the inner [while], which hands the lines it did
    not consume back to the outer loop. *)
Fixpoint parse_lines (lines : list string) : list Cue :=
  match lines with
  | [] => []
  | line :: rest =>
      match timestamp_match (strip line) with
      | Some (start_time, _) =>
          let start_seconds := to_seconds start_time in
          (fix collect (ls : list string) (text_lines : list string)
               {struct ls} : list Cue :=
             match ls with
             | [] => cue_of start_seconds text_lines
             | l :: ls' =>
                 if is_text_line l
                 then collect ls' (text_lines ++ [strip l])
                 else cue_of start_seconds text_lines ++ parse_lines ls
             end) rest []
      | None => parse_lines rest
      end
  end.

Definition parse_vtt_cues (vtt_content : string) : list Cue :=
  parse_lines (split_on newline vtt_content).
End Stemmer.

(** *** search_vtt_for_keywords *)

(** [enumerate(l, start)] *)
Fixpoint enumerate_from {A} (start : nat) (l : list A) : list (nat * A) :=
  match l with
  | [] => []
  | x :: l' => (start, x) :: enumerate_from (S start) l'
  end.

Definition enumerate {A} (l : list A) : list (nat * A) :=
  enumerate_from 0 l.

(** [list.sort(key=...)]: stable, ascending. *)
Fixpoint insert_by {A} (key : A -> Z) (x : A) (l : list A) : list A :=
  match l with
  | [] => [x]
  | y :: l' => if key x <=? key y then x :: y :: l' else y :: insert_by key x l'
  end.

Fixpoint sort_by {A} (key : A -> Z) (l : list A) : list A :=
  match l with
  | [] => []
  | x :: l' => insert_by key x (sort_by key l')
  end.

(** The two local variables the loops update. *)
Record SearchState : Type := mkSearchState {
  seen_timestamps : gmap string (list Z);
  matches : list Match
}.

(** [seen_timestamps[keyword_lower]] once the key is initialised. *)
Definition seen_for (seen : gmap string (list Z)) (keyword_lower : string)
  : list Z :=
  default [] (seen !! keyword_lower).

(** [any(abs(timestamp - seen_ts) <= 3 for seen_ts in ...)] *)
Definition is_duplicate (timestamp : Z) (seen : list Z) : bool :=
  existsb (fun seen_ts => Z.abs (timestamp - seen_ts) <=? 3) seen.

(** The context built from the surrounding cues. *)
Definition build_context (cues : list Cue) (i : nat) (cue : Cue)
           (keyword : string) : string :=
  let context_parts :=
    (if (0 <? i)%nat
     then match cues !! (i - 1)%nat with Some c => [text c] | None => [] end
     else [])
    ++ [text cue]
    ++ (if (S i <? length cues)%nat
        then match cues !! S i with Some c => [text c] | None => [] end
        else []) in
  let context := join " " context_parts in
  if (100 <? String.length context)%nat then
    match find (lower keyword) (lower context) with
    | None => slice 0 100 context +:+ "..."
    | Some idx =>
        let start := (idx - 40)%nat in
        let end_ := Nat.min (String.length context)
                            (idx + String.length keyword + 40) in
        (if (0 <? start)%nat then "..." else "")
        +:+ slice start end_ context
        +:+ (if (end_ <? String.length context)%nat then "..." else "")
    end
  else context.

Section Search.
Variable stemWord : string -> string.
(** [fuzz.ratio] and [fuzz.partial_ratio] of rapidfuzz, scores
    between 0 and 100. *)
Variables fuzz_ratio fuzz_partial_ratio : string -> string -> Q.

(** The value of [found] for one keyword and one cue. *)
Definition found_in (stemmed_keyword : string) (fuzzy_threshold : Z)
           (cue : Cue) : bool :=
  let keyword_words := split_ws stemmed_keyword in
  if (length keyword_words =? 1)%nat then
    existsb
      (fun cue_word =>
         String.eqb cue_word stemmed_keyword
         || Qle_bool (inject_Z fuzzy_threshold)
                     (fuzz_ratio cue_word stemmed_keyword))
      (split_ws (normalized cue))
  else
    contains stemmed_keyword (normalized cue)
    || Qle_bool (inject_Z fuzzy_threshold)
                (fuzz_partial_ratio stemmed_keyword (normalized cue)).

(** [int(cue['start_seconds'])] *)
Definition timestamp_of (cue : Cue) : Z := Z.quot (start_seconds cue) 1000.

(** The body of [for i, cue in enumerate(cues)]. *)
Definition cue_step (cues : list Cue) (keyword : string)
           (fuzzy_threshold : Z) (st : SearchState) (ic : nat * Cue)
  : SearchState :=
  let '(i, cue) := ic in
  let keyword_lower := lower keyword in
  if found_in (stem_keyword stemWord keyword) fuzzy_threshold cue then
    let timestamp := timestamp_of cue in
    if is_duplicate timestamp (seen_for (seen_timestamps st) keyword_lower)
    then st
    else
      mkSearchState
        (<[keyword_lower :=
             seen_for (seen_timestamps st) keyword_lower ++ [timestamp]]>
           (seen_timestamps st))
        (matches st
         ++ [mkMatch keyword timestamp (build_context cues i cue keyword)])
  else st.

(** The body of [for keyword in keywords]. *)
Definition keyword_step (cues : list Cue) (fuzzy_threshold : Z)
           (st : SearchState) (keyword : string) : SearchState :=
  if bool_decide (lower keyword ∈ STOPWORDS) then st
  else
    let keyword_lower := lower keyword in
    let st :=
      match seen_timestamps st !! keyword_lower with
      | None => mkSearchState (<[keyword_lower := []]> (seen_timestamps st))
                              (matches st)
      | Some _ => st
      end in
    fold_left (cue_step cues keyword fuzzy_threshold) (enumerate cues) st.

(** The function after [cues = parse_vtt_cues(vtt_content)]. *)
Definition search_cues (cues : list Cue) (keywords : list string)
           (fuzzy_threshold : Z) : list Match :=
  let st := fold_left (keyword_step cues fuzzy_threshold) keywords
                      (mkSearchState ∅ []) in
  sort_by timestamp_seconds (matches st).

Definition search_vtt_for_keywords (vtt_content : string)
           (keywords : list string) (fuzzy_threshold : Z) : list Match :=
  search_cues (parse_vtt_cues stemWord vtt_content) keywords fuzzy_threshold.
End Search.

(** *** predict_step_times *)

Definition MIN_STEP_DURATION : Z := 5.

(** [predicted_time]: the keys [start_seconds] and [end_seconds]. *)
Record PredictedTime : Type := mkPredictedTime {
  pt_start_seconds : Z;
  pt_end_seconds : Z
}.

(** An instruction dict.  [step] and [predicted_time] are [None] when
    the key is absent; [_raw_start] is [None] when the key is absent
    and [Some None] when it holds Python's [None]. *)
Record Instruction : Type := mkInstruction {
  step : option Z;
  video_references : list Match;
  techniques : list string;
  _raw_start : option (option Z);
  predicted_time : option PredictedTime
}.

Definition set_raw_start (instruction : Instruction) (v : option (option Z))
  : Instruction :=
  mkInstruction (step instruction) (video_references instruction)
                (techniques instruction) v (predicted_time instruction).

Definition set_predicted_time (instruction : Instruction) (p : PredictedTime)
  : Instruction :=
  mkInstruction (step instruction) (video_references instruction)
                (techniques instruction) (_raw_start instruction) (Some p).

(** [a // b] *)
Definition floordiv (a b : Z) : result Z :=
  if b =? 0 then Raise ZeroDivisionError else Ok (a / b).

(** [min(...)] of a generator, [None] on an empty one. *)
Definition list_min (l : list Z) : option Z :=
  match l with
  | [] => None
  | x :: l' => Some (fold_left Z.min l' x)
  end.

(** First pass: the value stored in [instruction['_raw_start']]. *)
Definition raw_start_of (instruction : Instruction) : option Z :=
  let refs := video_references instruction in
  let techniques := techniques instruction in
  match refs with
  | [] => None
  | _ :: _ =>
      let technique_refs :=
        List.filter
          (fun r => existsb (String.eqb (lower (keyword r)))
                            (map lower techniques))
          refs in
      match technique_refs with
      | _ :: _ => list_min (map timestamp_seconds technique_refs)
      | [] => list_min (map timestamp_seconds refs)
      end
  end.

Definition first_pass (instructions : list Instruction) : list Instruction :=
  map (fun instruction =>
         set_raw_start instruction (Some (raw_start_of instruction)))
      instructions.

(** [known_times] *)
Definition known_times (instructions : list Instruction) : list (nat * Z) :=
  flat_map (fun '(i, inst) =>
              match _raw_start inst with
              | Some (Some t) => [(i, t)]
              | _ => []
              end)
           (enumerate instructions).

(** [for idx, time in known_times]: [prev_known] and [next_known]. *)
Fixpoint find_known (i : nat) (known : list (nat * Z))
         (prev_known : option (nat * Z))
  : option (nat * Z) * option (nat * Z) :=
  match known with
  | [] => (prev_known, None)
  | (idx, time) :: rest =>
      if (idx <? i)%nat then find_known i rest (Some (idx, time))
      else if (i <? idx)%nat then (prev_known, Some (idx, time))
      else find_known i rest prev_known
  end.

Fixpoint mapM {A B} (f : A -> result B) (l : list A) : result (list B) :=
  match l with
  | [] => Ok []
  | x :: l' =>
      do y <- f x ;;
      do ys <- mapM f l' ;;
      Ok (y :: ys)
  end.

(** [instruction[key]] for a key that may be absent. *)
Definition get_raw_start (instruction : Instruction) : result (option Z) :=
  match _raw_start instruction with
  | Some v => Ok v
  | None => Raise (KeyError "_raw_start")
  end.

(** An operand of [max] or [min] that must be a number. *)
Definition number (v : option Z) : result Z :=
  match v with
  | Some t => Ok t
  | None => Raise TypeError
  end.

Section StepTimer.
(** [int(prev_time + ((i - prev_idx) / (next_idx - prev_idx)) * (next_time - prev_time))]
    evaluated in double precision, as a function of [prev_time],
    [i - prev_idx], [next_idx - prev_idx] and [next_time - prev_time]. *)
Variable float_interpolate : Z -> Z -> Z -> Z -> Z.

(** The body of the interpolation loop for the instruction at [i]. *)
Definition fill_raw_start (video_duration : Z) (n : nat)
           (known : list (nat * Z)) (ii : nat * Instruction)
  : result Instruction :=
  let '(i, instruction) := ii in
  do raw <- get_raw_start instruction ;;
  match raw with
  | Some _ => Ok instruction
  | None =>
      match find_known i known None with
      | (Some (prev_idx, prev_time), Some (next_idx, next_time)) =>
          if Z.of_nat next_idx - Z.of_nat prev_idx =? 0
          then Raise ZeroDivisionError
          else Ok (set_raw_start instruction
                     (Some (Some (float_interpolate
                                    prev_time
                                    (Z.of_nat i - Z.of_nat prev_idx)
                                    (Z.of_nat next_idx - Z.of_nat prev_idx)
                                    (next_time - prev_time)))))
      | (Some (prev_idx, prev_time), None) =>
          do avg_duration <- floordiv video_duration (Z.of_nat n) ;;
          Ok (set_raw_start instruction
                (Some (Some (Z.min (prev_time
                                    + avg_duration
                                      * (Z.of_nat i - Z.of_nat prev_idx))
                                   (video_duration - MIN_STEP_DURATION)))))
      | (None, Some (next_idx, next_time)) =>
          do avg_duration <- floordiv video_duration (Z.of_nat n) ;;
          Ok (set_raw_start instruction
                (Some (Some (Z.max (next_time
                                    - avg_duration
                                      * (Z.of_nat next_idx - Z.of_nat i))
                                   0))))
      | (None, None) => Ok instruction
      end
  end.

Definition second_pass (instructions : list Instruction)
           (video_duration : Z) : result (list Instruction) :=
  match known_times instructions with
  | [] =>
      do step_duration <-
        floordiv video_duration (Z.max (Z.of_nat (length instructions)) 1) ;;
      Ok (map (fun '(i, instruction) =>
                 set_raw_start instruction
                               (Some (Some (Z.of_nat i * step_duration))))
              (enumerate instructions))
  | known =>
      mapM (fill_raw_start video_duration (length instructions) known)
           (enumerate instructions)
  end.

(** [x.get('step', 0)] *)
Definition step_key (x : Instruction) : Z := default 0 (step x).

(** The third loop from index [i] on; [prev] is [instructions[i-1]]
    when [i > 0]. *)
Fixpoint third_pass (video_duration : Z) (prev : option Instruction)
         (instructions : list Instruction) : result (list Instruction) :=
  match instructions with
  | [] => Ok []
  | instruction :: rest =>
      do raw <- get_raw_start instruction ;;
      do raw <- number raw ;;
      let start :=
        match prev with
        | Some p =>
            let prev_end :=
              match predicted_time p with
              | Some pt => pt_end_seconds pt
              | None => 0
              end in
            Z.max raw prev_end
        | None => Z.max raw 0
        end in
      do end_ <-
        match rest with
        | next :: _ =>
            do next_start <-
              number (match _raw_start next with
                      | Some v => v
                      | None => Some video_duration
                      end) ;;
            Ok (Z.max next_start (start + MIN_STEP_DURATION))
        | [] => Ok video_duration
        end ;;
      let end_ :=
        if end_ - start <? MIN_STEP_DURATION
        then Z.min (start + MIN_STEP_DURATION) video_duration
        else end_ in
      let instruction :=
        set_predicted_time instruction (mkPredictedTime start end_) in
      do rest' <- third_pass video_duration (Some instruction) rest ;;
      Ok (instruction :: rest')
  end.

Definition predict_step_times (instructions : list Instruction)
           (video_duration : Z) : result (list Instruction) :=
  let instructions := first_pass instructions in
  do instructions <- second_pass instructions video_duration ;;
  let instructions := sort_by step_key instructions in
  do instructions <- third_pass video_duration None instructions ;;
  Ok (map (fun instruction => set_raw_start instruction None) instructions).
End StepTimer.

End Recipes.


(** ** extractor.py: track selection, thumbnails and [extract] *)

(** The rest of the class [VideoExtractor].  yt-dlp hands the code
    dicts; a dict whose keys the code enumerates is a list of pairs in
    insertion order, and a dict of which the code reads fixed keys is a
    record with one optional field per key, [None] when the key is
    absent.  Values that are present have the type yt-dlp documents for
    them.  The [ExtractionLog] the class fills is written and never
    read by the code; it is left out, and with it the
    [extraction_log] entry of the result of [extract]. *)

Module VideoExtractor.
Import PyStr Extractor.

Definition Dict (V : Type) : Type := list (string * V).

(** [d.get(k)] *)
Fixpoint dict_get {V} (d : Dict V) (k : string) : option V :=
  match d with
  | [] => None
  | (k', v) :: d' => if String.eqb k' k then Some v else dict_get d' k
  end.

(** [k in d] *)
Definition dict_has {V} (d : Dict V) (k : string) : bool :=
  match dict_get d k with
  | Some _ => true
  | None => false
  end.

(** One format of a caption track. *)
Record Track : Type := mkTrack {
  ext : option string;
  protocol : option string;
  url : option string;
  name : option string
}.

Record Thumbnail : Type := mkThumbnail {
  thumb_url : option string;
  width : option Z;
  height : option Z
}.

(** The keys of [video_info] that [extract] reads. *)
Record VideoInfo : Type := mkVideoInfo {
  video_id : option string;
  title : option string;
  description : option string;
  duration : option Z;
  upload_date : option string;
  channel : option string;
  channel_id : option string;
  view_count : option Z;
  thumbnails : list Thumbnail;
  subtitles : Dict (list Track);
  automatic_captions : Dict (list Track)
}.

Definition subtitle_priorities : list string :=
  ["en-US"; "en-CA"; "en"; "en-GB"; "en-AU"].
Definition auto_caption_priorities : list string :=
  ["en-orig"; "en-US"; "en-CA"; "en"; "en-GB"; "en-AU"].
Definition format_priorities : list string := ["vtt"; "srt"; "ttml"].

(** [track.get(key) == value] *)
Definition holds (field : option string) (value : string) : bool :=
  match field with
  | Some v => String.eqb v value
  | None => false
  end.

(** [for lang in priorities: if lang in d: ... break]: the track list
    of the first listed language the dict has, [None] when the loop
    ends without [break]. *)
Fixpoint first_listed (priorities : list string) (d : Dict (list Track))
  : option (list Track) :=
  match priorities with
  | [] => None
  | lang :: priorities' =>
      match dict_get d lang with
      | Some tracks => Some tracks
      | None => first_listed priorities' d
      end
  end.

(** [lang.startswith("en-") or lang.startswith("en_")] *)
Definition is_en_variant (lang : string) : bool :=
  String.prefix "en-" lang || String.prefix "en_" lang.

(** [for lang in d.keys(): if <variant>: ... break] *)
Fixpoint first_variant (d : Dict (list Track)) : option (list Track) :=
  match d with
  | [] => None
  | (lang, tracks) :: d' =>
      if is_en_variant lang then Some tracks else first_variant d'
  end.

(** The [for ... else] pair of loops over one dict; [caption_track] is
    the value the variable keeps when neither loop assigns it. *)
Definition select_language (priorities : list string)
           (d : Dict (list Track)) (caption_track : option (list Track))
  : option (list Track) :=
  match first_listed priorities d with
  | Some tracks => Some tracks
  | None =>
      match first_variant d with
      | Some tracks => Some tracks
      | None => caption_track
      end
  end.

(** Truth value of [caption_track]: [None] and the empty list are
    false. *)
Definition truthy (caption_track : option (list Track)) : bool :=
  match caption_track with
  | Some (_ :: _) => true
  | _ => false
  end.

(** Truth value of a dict. *)
Definition nonempty {V} (d : Dict V) : bool :=
  match d with
  | [] => false
  | _ :: _ => true
  end.

(** The test of the inner format loop: the track is not skipped and has
    the format looked for. *)
Definition usable (fmt : string) (track : Track) : bool :=
  negb (holds (protocol track) "m3u8_native") && holds (ext track) fmt.

(** [for fmt in format_priorities: for track in caption_track: ...] *)
Fixpoint find_format (formats : list string) (caption_track : list Track)
  : option Track :=
  match formats with
  | [] => None
  | fmt :: formats' =>
      match List.find (usable fmt) caption_track with
      | Some track => Some track
      | None => find_format formats' caption_track
      end
  end.

Definition get_captions_by_priority (info : VideoInfo) : option Track :=
  let caption_track : option (list Track) := None in
  let caption_track :=
    if nonempty (subtitles info)
    then select_language subtitle_priorities (subtitles info) caption_track
    else caption_track in
  let caption_track :=
    if negb (truthy caption_track) && nonempty (automatic_captions info)
    then select_language auto_caption_priorities (automatic_captions info)
                         caption_track
    else caption_track in
  match caption_track with
  | Some (track :: tracks) => find_format format_priorities (track :: tracks)
  | _ => None
  end.

(** [t.get("width", 0) * t.get("height", 0)] *)
Definition area (t : Thumbnail) : Z :=
  default 0 (width t) * default 0 (height t).

(** [t.get("url", "").find("i.ytimg.com/vi") != -1] *)
Definition is_yt_thumbnail (t : Thumbnail) : bool :=
  match find "i.ytimg.com/vi" (default "" (thumb_url t)) with
  | Some _ => true
  | None => false
  end.

(** [sorted(l, key=key, reverse=True)]: stable, every comparison of two
    keys reversed. *)
Definition sorted_reverse {A} (key : A -> Z) (l : list A) : list A :=
  Recipes.sort_by (fun x => - key x) l.

Definition _get_best_thumbnails (thumbnails : list Thumbnail)
  : list Thumbnail :=
  match thumbnails with
  | [] => []
  | _ :: _ =>
      let yt_thumbnails := List.filter is_yt_thumbnail thumbnails in
      match yt_thumbnails with
      | [] => firstn 3 thumbnails
      | _ :: _ =>
          let sorted_thumbs := sorted_reverse area yt_thumbnails in
          firstn 3 sorted_thumbs
      end
  end.

Record Transcript : Type := mkTranscript {
  language : string;
  caption_type : string;
  segments : list Segment;
  plainText : string
}.

Record Metadata : Type := mkMetadata {
  md_id : string;
  md_title : string;
  md_description : string;
  md_duration : Z;
  md_upload_date : string;
  md_channel : string;
  md_channel_id : string;
  md_view_count : Z;
  md_thumbnails : list Thumbnail
}.

Record Extraction : Type := mkExtraction {
  metadata : Metadata;
  transcript : option Transcript
}.

(** [d[key]] on a field that may be absent. *)
Definition subscript {A} (key : string) (field : option A) : result A :=
  match field with
  | Some v => Ok v
  | None => Raise (KeyError key)
  end.

Section Extract.
(** [ydl.extract_info(url, download=False)] under the options of the
    extractor: the library's exception, or the dict it returns, [None]
    standing for a value that is false ([None] or an empty dict). *)
Variable ydl_extract_info : string -> result (option VideoInfo).
(** [download_captions]: the body of the HTTP response, or the
    exception the method lets through. *)
Variable download_captions : Track -> result string.
Variable webvtt_from_string : string -> result (list Caption).

Definition extract (url : string) : result Extraction :=
  do video_info <- ydl_extract_info url ;;
  match video_info with
  | None => Raise (ValueError "Failed to extract video information")
  | Some video_info =>
      do transcript <-
        match get_captions_by_priority video_info with
        | Some caption_track =>
            do caption_content <- download_captions caption_track ;;
            do ext <- subscript "ext" (ext caption_track) ;;
            do parsed <- parse_captions webvtt_from_string ext
                                        caption_content ;;
            let '(plain_text, segments) := parsed in
            let caption_type :=
              if nonempty (subtitles video_info)
                 && existsb (dict_has (subtitles video_info))
                            ["en-US"; "en-CA"; "en"; "en-GB"; "en-AU"]
              then "manual" else "auto-generated" in
            Ok (Some (mkTranscript (default "English" (name caption_track))
                                   caption_type segments plain_text))
        | None => Ok None
        end ;;
      do id <- subscript "id" (video_id video_info) ;;
      Ok (mkExtraction
            (mkMetadata id
                        (default "" (title video_info))
                        (default "" (description video_info))
                        (default 0 (duration video_info))
                        (default "" (upload_date video_info))
                        (default "" (channel video_info))
                        (default "" (channel_id video_info))
                        (default 0 (view_count video_info))
                        (_get_best_thumbnails (thumbnails video_info)))
            transcript)
  end.
End Extract.

End VideoExtractor.

(** ** generate_recipes.py: [add_video_references] *)

Module References.
Import PyStr Recipes.

(** An instruction dict together with the other two lists of its
    [keywords] entry; an absent list is [[]]. *)
Record Step : Type := mkStep {
  instruction : Instruction;
  ingredients : list string;
  equipment : list string
}.

Definition set_video_references (s : Step) (matches : list Match) : Step :=
  mkStep (mkInstruction (step (instruction s)) matches
                        (techniques (instruction s))
                        (_raw_start (instruction s))
                        (predicted_time (instruction s)))
         (ingredients s) (equipment s).

Section AddReferences.
Variable stemWord : string -> string.
Variables fuzz_ratio fuzz_partial_ratio : string -> string -> Q.

(** The body of the loop over the instructions; the search runs with
    its default threshold. *)
Definition add_references_step (vtt_content : string) (s : Step) : Step :=
  let all_keywords :=
    ((([] ++ ingredients s) ++ techniques (instruction s)) ++ equipment s) in
  match all_keywords with
  | _ :: _ =>
      let matches :=
        search_vtt_for_keywords stemWord fuzz_ratio fuzz_partial_ratio
                                vtt_content all_keywords 80 in
      set_video_references s matches
  | [] => set_video_references s []
  end.

(** The recipe is its list of instructions: the function changes
    nothing else of it. *)
Definition add_video_references (recipe : list Step) (vtt_content : string)
  : list Step :=
  map (add_references_step vtt_content) recipe.
End AddReferences.

End References.
(** * Vocabulary of the statements *)

Module Import ExtractorVocabulary.
Import PyStr Extractor.

(** The two cues of the merge example. *)
Definition merge_example : list Caption :=
  [ mkCaption 0 500 "the quick";
    mkCaption 400 1200 "the quick brown fox" ].

(** A two second cue whose text is contained in the pending cue's. *)
Definition long_contained : list Caption :=
  [ mkCaption 0 2000 "one two three four";
    mkCaption 2000 4000 "two three four" ].

(** Two rolling two-line cues. *)
Definition rolling_lines : list Caption :=
  [ mkCaption 0 2000 ("line1" +:+ nl +:+ "line2");
    mkCaption 2000 4000 ("line2" +:+ nl +:+ "line3") ].

(** Two cues that start at the same time. *)
Definition same_start : list Caption :=
  [ mkCaption 1000 2000 "alpha beta gamma";
    mkCaption 1000 3000 "delta epsilon zeta" ].

(** The caption files of [merge_example] and [same_start]. *)
Definition merge_example_vtt : string :=
  "WEBVTT" +:+ nl +:+ nl
  +:+ "00:00:00.000 --> 00:00:00.500" +:+ nl +:+ "the quick" +:+ nl +:+ nl
  +:+ "00:00:00.400 --> 00:00:01.200" +:+ nl +:+ "the quick brown fox" +:+ nl.

Definition same_start_vtt : string :=
  "WEBVTT" +:+ nl +:+ nl
  +:+ "00:00:01.000 --> 00:00:02.000" +:+ nl +:+ "alpha beta gamma" +:+ nl +:+ nl
  +:+ "00:00:01.000 --> 00:00:03.000" +:+ nl +:+ "delta epsilon zeta" +:+ nl.

(** A run of the caption library that reads [captions] from [content]
    and rejects every other content. *)
Definition library_reads (content : string) (captions : list Caption)
  : string -> result (list Caption) :=
  fun c =>
    if String.eqb c content then Ok captions
    else Raise (LibraryError "MalformedFileError").

(** [subtitle], coming after the pending cue [previous_subtitle], is
    left alone by every rule of the loop body. *)
Definition settled (previous_subtitle subtitle : Caption) : bool :=
  String.eqb (strip (text subtitle)) (text subtitle)
  && negb (String.length (text subtitle) =? 0)%nat
  && negb ((start_time subtitle - end_time subtitle <? 150)
           && contains (text subtitle) (text previous_subtitle))
  && negb (String.eqb (hd "" (split_on newline (text subtitle)))
                      (List.last (split_on newline (text previous_subtitle)) ""))
  && negb (length (split_on " " (text subtitle)) <=? 2)%nat
  && (end_time previous_subtitle <? start_time subtitle)
  && (start_time subtitle <? end_time subtitle).

Fixpoint clean_from (previous_subtitle : Caption) (subs : list Caption) : bool :=
  match subs with
  | [] => true
  | subtitle :: rest =>
      settled previous_subtitle subtitle && clean_from subtitle rest
  end.

(** A cue sequence on which no rule of the pass fires. *)
Definition clean (subs : list Caption) : bool :=
  match subs with
  | [] => true
  | first :: rest => clean_from first rest
  end.

(** Cues whose interval is not inverted and whose start times strictly
    increase. *)
Definition well_timed (c : Caption) : Prop := start_time c <= end_time c.

Definition strictly_ordered (subs : list Caption) : Prop :=
  Sorted Z.lt (map start_time subs).

(** The invariant of the Segment list. *)
Definition segments_ordered (segments : list Segment) : Prop :=
  Forall (fun s => startTime s <= endTime s) segments
  /\ StronglySorted Z.le (map startTime segments).
End ExtractorVocabulary.

Module Import RecipesVocabulary.
Import PyStr Recipes.

(** *** Cue parser and keyword matcher *)

(** No line of the content is a timestamp line. *)
Definition no_timestamp_line (vtt_content : string) : Prop :=
  forall line,
    In line (split_on newline vtt_content) ->
    timestamp_match (strip line) = None.

(** A caption file with a header and text but no timestamp line. *)
Definition headline_only : string :=
  "WEBVTT" +:+ nl +:+ nl +:+ "whisk the eggs" +:+ nl.

(** Two cues that mention the keyword, starting at 10s and at [t]. *)
Definition two_mentions (t : string) : string :=
  "WEBVTT" +:+ nl +:+ nl
  +:+ "00:00:10.000 --> 00:00:10.900" +:+ nl +:+ "whisk the eggs" +:+ nl +:+ nl
  +:+ "00:00:" +:+ t +:+ ".000 --> 00:00:" +:+ t +:+ ".900" +:+ nl
  +:+ "keep whisking" +:+ nl.

(** A stemmer that strips a final "ing", and similarity scores that
    never reach a threshold. *)
Definition suffix_stemmer (word : string) : string :=
  let n := String.length word in
  if String.eqb (String.substring (n - 3) 3 word) "ing"
  then String.substring 0 (n - 3) word
  else word.

Definition no_similarity (a b : string) : Q := 0%Q.

Section Hits.
Variable stemWord : string -> string.
Variables fuzz_ratio fuzz_partial_ratio : string -> string -> Q.

(** The raw hits of one keyword in cue order: for every cue in which the
    keyword is found, the match the loop would append. *)
Definition raw_hits_of (cues : list Cue) (fuzzy_threshold : Z)
           (keyword : string) : list Match :=
  flat_map
    (fun '(i, cue) =>
       if found_in fuzz_ratio fuzz_partial_ratio
                   (stem_keyword stemWord keyword) fuzzy_threshold cue
       then [mkMatch keyword (timestamp_of cue)
                     (build_context cues i cue keyword)]
       else [])
    (enumerate cues).

(** The raw hits of all keywords, in the order the loops visit them;
    stopwords have none. *)
Definition raw_hits (cues : list Cue) (fuzzy_threshold : Z)
           (keywords : list string) : list Match :=
  flat_map
    (fun keyword =>
       if bool_decide (lower keyword ∈ STOPWORDS) then []
       else raw_hits_of cues fuzzy_threshold keyword)
    keywords.
End Hits.

(** The deduplication rule in the words of the specification: [hit]
    falls within 3 seconds, inclusive, of the retained match [m] of the
    same keyword, keywords compared in lower case. *)
Definition within_window (hit m : Match) : bool :=
  String.eqb (lower (keyword m)) (lower (keyword hit))
  && (Z.abs (timestamp_seconds hit - timestamp_seconds m) <=? 3).

(** A new hit is discarded if and only if it falls within the window of
    some match retained before it. *)
Fixpoint temporal_dedup (retained hits : list Match) : list Match :=
  match hits with
  | [] => retained
  | hit :: rest =>
      if existsb (within_window hit) retained
      then temporal_dedup retained rest
      else temporal_dedup (retained ++ [hit]) rest
  end.

(** The loops' state records exactly the retained matches: for every
    lower-cased keyword the timestamps seen are those of the retained
    matches of that keyword. *)
Definition tracks (st : SearchState) : Prop :=
  forall keyword_lower,
    seen_for (seen_timestamps st) keyword_lower
    = map timestamp_seconds
          (List.filter (fun m => String.eqb (lower (keyword m)) keyword_lower)
                       (matches st)).

(** *** Step timer *)

(** The interpolation of [predict_step_times] in exact arithmetic,
    truncated toward zero. *)
Definition exact_interpolate (prev_time num den delta : Z) : Z :=
  Z.quot (prev_time * den + num * delta) den.

(** A step with no keyword match. *)
Definition bare_step (n : Z) : Instruction :=
  mkInstruction (Some n) [] [] None None.

(** A step with one match of a technique keyword at [t] seconds. *)
Definition step_at (n t : Z) : Instruction :=
  mkInstruction (Some n) [mkMatch "whisk" t "whisk the eggs"] ["whisk"]
                None None.

(** The predicted window of a step, when it has one. *)
Definition window (instruction : Instruction) : option (Z * Z) :=
  match predicted_time instruction with
  | Some pt => Some (pt_start_seconds pt, pt_end_seconds pt)
  | None => None
  end.

(** The shape of the third pass's output after a step that ended at
    [lo]: every window starts at or after the end of the window before
    it, every window but the last is at least [MIN_STEP_DURATION] long,
    and the last one ends at [video_duration]. *)
Fixpoint timed_from (video_duration lo : Z) (out : list Instruction) : Prop :=
  match out with
  | [] => True
  | a :: rest =>
      exists s e,
        window a = Some (s, e)
        /\ lo <= s
        /\ match rest with
           | [] => e = video_duration
           | _ :: _ => MIN_STEP_DURATION <= e - s
           end
        /\ timed_from video_duration e rest
  end.

(** The end of the window of [instructions[i-1]], as the third pass
    reads it; 0 for the first step. *)
Definition prev_end_of (prev : option Instruction) : Z :=
  match prev with
  | Some p =>
      match predicted_time p with
      | Some pt => pt_end_seconds pt
      | None => 0
      end
  | None => 0
  end.

(** A step whose [_raw_start] holds a number. *)
Definition has_raw_start (instruction : Instruction) : Prop :=
  exists t, _raw_start instruction = Some (Some t).
End RecipesVocabulary.

(** * Vocabulary of the further properties *)

Module Import MoreVocabulary.
Import PyStr Extractor.

(** A cue whose text is only whitespace. *)
Definition blank_cue : Caption := mkCaption 700 900 "   ".

(** No cue ends after a later cue starts. *)
Definition disjoint (subs : list Caption) : Prop :=
  StronglySorted (fun a b => end_time a < start_time b) subs.

(** The character [c] occurs in [s]. *)
Fixpoint mentions (c : ascii) (s : string) : bool :=
  match s with
  | EmptyString => false
  | String c' s' => Ascii.eqb c' c || mentions c s'
  end.

Definition starts_with_space (s : string) : bool :=
  match s with
  | String c _ => Ascii.eqb c " "
  | EmptyString => false
  end.
End MoreVocabulary.

Module Import MoreRecipesVocabulary.
Import PyStr Recipes.

(** Two matches of one keyword, letter case aside, lie more than three
    seconds apart. *)
Definition apart (a b : Match) : Prop :=
  lower (keyword a) = lower (keyword b) ->
  3 < Z.abs (timestamp_seconds b - timestamp_seconds a).

Section Coverage.
Variable stemWord : string -> string.
Variables fuzz_ratio fuzz_partial_ratio : string -> string -> Q.

(** Every cue in which [keyword] is found has a timestamp within three
    seconds of one already seen for that keyword. *)
Definition covered (cues : list Cue) (fuzzy_threshold : Z) (keyword : string)
           (st : SearchState) : Prop :=
  forall cue,
    In cue cues ->
    found_in fuzz_ratio fuzz_partial_ratio
             (stem_keyword stemWord keyword) fuzzy_threshold cue = true ->
    is_duplicate (timestamp_of cue)
                 (seen_for (seen_timestamps st) (lower keyword)) = true.
End Coverage.

(** *** Cue parser *)

(** The inner [while] of [parse_vtt_cues] on its own: the text lines it
    collects from [ls] and the lines it leaves to the outer loop. *)
Fixpoint collect_text (ls text_lines : list string)
  : list string * list string :=
  match ls with
  | [] => (text_lines, [])
  | l :: ls' =>
      if is_text_line l then collect_text ls' (text_lines ++ [strip l])
      else (text_lines, ls)
  end.

(** The lines that match the timestamp pattern. *)
Definition timestamp_lines (lines : list string) : list string :=
  List.filter (fun line => bool_decide (is_Some (timestamp_match (strip line))))
              lines.

(** A non-empty string without whitespace. *)
Fixpoint no_space (w : string) : bool :=
  match w with
  | EmptyString => true
  | String c w' => negb (is_space c) && no_space w'
  end.

Definition wordy (w : string) : Prop := w <> "" /\ no_space w = true.

(** *** Step timer *)

(** [a] is the step [b] with at most [_raw_start] and [predicted_time]
    changed. *)
Definition same_step (a b : Instruction) : Prop :=
  step a = step b
  /\ video_references a = video_references b
  /\ techniques a = techniques b.

(** The match [r] names one of the step's technique keywords, letter
    case aside. *)
Definition is_technique_ref (instruction : Instruction) (r : Match) : bool :=
  existsb (String.eqb (lower (keyword r)))
          (map lower (techniques instruction)).

(** [n] windows of equal length [video_duration // n], the last one
    stretched to [video_duration]. *)
Definition even_windows (video_duration : Z) (n : nat)
  : list (option (Z * Z)) :=
  let d := video_duration / Z.of_nat n in
  map (fun k : nat =>
         Some (Z.of_nat k * d,
               if (S k =? n)%nat then video_duration
               else (Z.of_nat k + 1) * d))
      (seq 0 n).

(** [st'] has every key of [seen_timestamps] that [st] has, and under
    each key the timestamps of [st] followed by further ones. *)
Definition extends (st st' : SearchState) : Prop :=
  forall keyword_lower,
    (is_Some (seen_timestamps st !! keyword_lower) ->
     is_Some (seen_timestamps st' !! keyword_lower))
    /\ exists extra,
        seen_for (seen_timestamps st') keyword_lower
        = seen_for (seen_timestamps st) keyword_lower ++ extra.
End MoreRecipesVocabulary.


(** ** Track selection, thumbnails and [extract] *)

Module Import SelectionVocabulary.
Import PyStr Extractor VideoExtractor.

(** A language key the selection can take: [en] or a regional variant
    of it. *)
Definition english (lang : string) : Prop :=
  lang = "en" \/ is_en_variant lang = true.

(** A track the format loop does not skip. *)
Definition playable (track : Track) : Prop :=
  protocol track <> Some "m3u8_native".

(** The track list has a playable track of the format. *)
Definition offers (fmt : string) (tracks : list Track) : Prop :=
  exists track, In track tracks /\ playable track /\ ext track = Some fmt.

(** [t] is a best track of [tracks]: playable, and of the first of the
    formats vtt, srt and ttml that the list offers. *)
Definition best_of (tracks : list Track) (t : Track) : Prop :=
  In t tracks
  /\ playable t
  /\ (ext t = Some "vtt"
      \/ (ext t = Some "srt" /\ ~ offers "vtt" tracks)
      \/ (ext t = Some "ttml"
          /\ ~ offers "vtt" tracks /\ ~ offers "srt" tracks)).

Definition track_of (fmt : string) : Track :=
  mkTrack (Some fmt) (Some "https") (Some ("https://example.test/" +:+ fmt))
          None.

Definition bare_info (subs autos : Dict (list Track)) : VideoInfo :=
  mkVideoInfo (Some "abc123") (Some "Omelette") None (Some 100) None None
              None None [] subs autos.

(** Manual subtitles in a format the parser has no use for, automatic
    captions in WebVTT. *)
Definition json_only_info : VideoInfo :=
  bare_info [("en", [track_of "json3"])] [("en", [track_of "vtt"])].

(** Manual subtitles under a regional key only. *)
Definition regional_info : VideoInfo :=
  bare_info [("en-IN", [track_of "vtt"])] [].

(** Subtitles offered as SubRip only. *)
Definition srt_info : VideoInfo :=
  bare_info [("en", [track_of "srt"; track_of "json3"])] [].

Definition thumb (u : string) (w h : Z) : Thumbnail :=
  mkThumbnail (Some u) (Some w) (Some h).

Definition four_thumbs : list Thumbnail :=
  [ thumb "https://i.ytimg.com/vi/abc123/default.jpg" 120 90;
    thumb "https://i.ytimg.com/vi/abc123/maxres.jpg" 1280 720;
    thumb "https://i.ytimg.com/vi/abc123/hq.jpg" 480 360;
    thumb "https://i.ytimg.com/vi/abc123/sd.jpg" 640 480 ].

(** A download and a caption library that always give the same two
    cues. *)
Definition sample_ydl (info : VideoInfo) (url : string)
  : result (option VideoInfo) := Ok (Some info).

Definition sample_download (track : Track) : result string :=
  Ok ("WEBVTT" +:+ nl).

Definition sample_webvtt (content : string) : result (list Caption) :=
  Ok [mkCaption 0 1500 "crack the eggs"; mkCaption 2000 4000 "whisk them well"].
End SelectionVocabulary.

(** ** [add_video_references] *)

Module Import ReferencesVocabulary.
Import PyStr Recipes References.

(** A step as the recipe extraction leaves it: numbered, with its three
    keyword lists and nothing else. *)
Definition fresh_step (n : Z) (ingredients techniques equipment : list string)
  : Step :=
  mkStep (mkInstruction (Some n) [] techniques None None)
         ingredients equipment.

(** The keywords the search is run with for a step. *)
Definition keywords_of (s : Step) : list string :=
  ingredients s ++ techniques (instruction s) ++ equipment s.
End ReferencesVocabulary.
(** * The caption deduplicator and the transcript assembler *)

Section ExtractorFacts.
Import PyStr Extractor.

Lemma set_text_same (c : Caption) : set_text c (text c) = c.
Proof. destruct c; reflexivity. Qed.

Lemma dedupe_step_settled (previous_subtitle subtitle : Caption) :
  settled previous_subtitle subtitle = true ->
  dedupe_step previous_subtitle subtitle = (subtitle, Some previous_subtitle).
Proof.
  unfold settled. intros H.
  repeat (apply andb_prop in H; destruct H as [H ?]).
  apply String.eqb_eq in H.
  unfold dedupe_step, trim_overlap, fix_boundaries, _ts_to_secs.
  rewrite H, set_text_same.
  repeat match goal with
         | E : negb ?b = true |- _ => apply negb_true_iff in E; rewrite E
         end.
  cbn [andb].
  match goal with E : (_ <? start_time subtitle) = true |- _ =>
    apply Z.ltb_lt in E; rename E into Hgap end.
  match goal with E : (start_time subtitle <? _) = true |- _ =>
    apply Z.ltb_lt in E; rename E into Hpos end.
  destruct (Z.leb_spec (start_time subtitle) (end_time previous_subtitle)); [lia|].
  destruct (Z.leb_spec (end_time subtitle) (start_time subtitle)); [lia|].
  reflexivity.
Qed.

Lemma dedupe_loop_clean (subs : list Caption) :
  forall previous_subtitle,
    clean_from previous_subtitle subs = true ->
    dedupe_loop previous_subtitle subs = previous_subtitle :: subs.
Proof.
  induction subs as [|subtitle rest IH]; intros previous_subtitle Hc.
  - reflexivity.
  - cbn in Hc. apply andb_prop in Hc as [Hs Hrest].
    cbn. rewrite (dedupe_step_settled _ _ Hs).
    f_equal. apply IH, Hrest.
Qed.

Lemma dedupe_clean_fixed (subs : list Caption) :
  clean subs = true -> _dedupe_yt_captions subs = subs.
Proof.
  destruct subs as [|first rest]; [reflexivity|].
  apply dedupe_loop_clean.
Qed.

(** *** How one step moves the time stamps *)

Lemma trim_overlap_times (previous_subtitle subtitle : Caption) :
  match trim_overlap previous_subtitle subtitle with
  | Continue p =>
      start_time p = start_time previous_subtitle
      /\ (end_time p = end_time previous_subtitle
          \/ end_time p = end_time subtitle)
  | Proceed s _ =>
      start_time s = start_time subtitle /\ end_time s = end_time subtitle
  end.
Proof.
  unfold trim_overlap.
  repeat match goal with
         | |- context [if ?b then _ else _] => destruct b
         end; cbn; auto.
Qed.

Lemma dedupe_step_times (previous_subtitle subtitle : Caption) :
  well_timed previous_subtitle ->
  well_timed subtitle ->
  start_time previous_subtitle < start_time subtitle ->
  let '(pending, yielded) := dedupe_step previous_subtitle subtitle in
  well_timed pending
  /\ start_time previous_subtitle <= start_time pending <= start_time subtitle
  /\ match yielded with
     | Some y => well_timed y /\ start_time y = start_time previous_subtitle
                 /\ start_time pending = start_time subtitle
     | None => True
     end.
Proof.
  unfold well_timed, dedupe_step. intros Hp Hs Hlt.
  pose proof (trim_overlap_times previous_subtitle subtitle) as Ht.
  destruct (trim_overlap previous_subtitle subtitle) as [p|s singleword].
  - destruct Ht as [Hst Hen]. split; [|split]; [lia|lia|exact I].
  - destruct Ht as [Hst Hen].
    unfold fix_boundaries, pulled_back_end, _ts_to_secs.
    destruct (Z.leb_spec (start_time s) (end_time previous_subtitle));
      destruct (Z.leb_spec (end_time s) (start_time s));
      destruct singleword; cbn; repeat split; try lia.
Qed.

(** What the loop yields from a pending cue on: cues that are not
    inverted, that start no earlier than the pending cue, in
    non-decreasing order of start. *)
Lemma dedupe_loop_ordered (subs : list Caption) :
  forall previous_subtitle,
    well_timed previous_subtitle ->
    Forall well_timed subs ->
    StronglySorted Z.lt (map start_time (previous_subtitle :: subs)) ->
    Forall (fun c => well_timed c /\ start_time previous_subtitle <= start_time c)
           (dedupe_loop previous_subtitle subs)
    /\ StronglySorted Z.le (map start_time (dedupe_loop previous_subtitle subs)).
Proof.
  induction subs as [|subtitle rest IH]; intros previous_subtitle Hp Hall Hsorted.
  - cbn. split.
    + constructor; [split; [exact Hp|lia]|constructor].
    + repeat constructor.
  - cbn [map] in Hsorted.
    apply StronglySorted_inv in Hsorted as [Hrest Hhead].
    apply Forall_cons_iff in Hhead as [Hlt Hhead].
    apply Forall_cons_iff in Hall as [Hs Hall].
    pose proof (dedupe_step_times previous_subtitle subtitle Hp Hs Hlt) as Hstep.
    cbn [dedupe_loop].
    destruct (dedupe_step previous_subtitle subtitle) as [pending yielded].
    destruct Hstep as (Hwp & Hrange & Hy).
    assert (Hsorted' : StronglySorted Z.lt (map start_time (pending :: rest))).
    { cbn [map]. apply StronglySorted_inv in Hrest as [Hrest1 Hrest2].
      constructor; [exact Hrest1|].
      eapply List.Forall_impl; [|exact Hrest2]. cbn. intros; lia. }
    destruct (IH pending Hwp Hall Hsorted') as [Hout Hord].
    assert (Hout' : Forall (fun c => well_timed c
                                     /\ start_time previous_subtitle <= start_time c)
                           (dedupe_loop pending rest)).
    { eapply List.Forall_impl; [|exact Hout]. cbn. intros c [? ?]. split; [assumption|lia]. }
    destruct yielded as [y|].
    + destruct Hy as (Hwy & Hys & Hps). split.
      * constructor; [split; [exact Hwy|lia]|exact Hout'].
      * cbn [map]. constructor; [exact Hord|].
        apply Forall_map. eapply List.Forall_impl; [|exact Hout'].
        cbn. intros c [_ ?]. lia.
    + split; assumption.
Qed.

Lemma assemble_loop_segments (captions_list : list Caption) :
  forall prev result segments,
    snd (assemble_loop prev captions_list result segments)
    = segments ++ map segment_of captions_list.
Proof.
  induction captions_list as [|caption rest IH]; intros prev result segments.
  - cbn. now rewrite app_nil_r.
  - cbn [assemble_loop]. rewrite IH. cbn [map].
    rewrite <- app_assoc. reflexivity.
Qed.

(** ** The claims *)

(** C4, evaluated on the code: a cue that lasts two seconds (2.000s to
    4.000s) and whose text is contained in the pending cue's text is
    absorbed all the same; the pass returns the single pending cue with
    its end moved to 4.000s, because the test compares start minus end
    (here -2s) with 0.15s.  The same happens to every cue with non-empty
    trimmed text contained in the pending text whose interval is not
    inverted, whatever its duration. *)
Theorem long_contained_cue_is_absorbed :
  _dedupe_yt_captions long_contained
  = [mkCaption 0 4000 "one two three four"]
  /\ (forall previous_subtitle subtitle,
         strip (text subtitle) <> "" ->
         contains (strip (text subtitle)) (text previous_subtitle) = true ->
         start_time subtitle <= end_time subtitle ->
         dedupe_step previous_subtitle subtitle
         = (set_end previous_subtitle (end_time subtitle), None)).
Proof.
  split; [vm_compute; reflexivity|].
  intros previous_subtitle subtitle Hne Hin Hle.
  unfold dedupe_step, trim_overlap, _ts_to_secs.
  cbn [text set_text start_time end_time].
  destruct (strip (text subtitle)) as [|c s] eqn:E; [contradiction|].
  cbn [String.length Nat.eqb]. rewrite Hin.
  destruct (Z.ltb_spec (start_time subtitle - end_time subtitle) 150); [|lia].
  reflexivity.
Qed.

(** C5, refuted as stated: on the two cues of the merge example the
    pass does not return the single cue "the quick brown fox" from 0.0s
    to 1.2s; it returns two cues. *)
Lemma merge_example_is_not_merged :
  _dedupe_yt_captions merge_example
  <> [mkCaption 0 1200 "the quick brown fox"]
  /\ length (_dedupe_yt_captions merge_example) = 2%nat.
Proof. split; [vm_compute; discriminate | vm_compute; reflexivity]. Qed.

(** C5, amended: on the two cues of the merge example the pass keeps
    both cues and only pulls the end of the first back to 0.399s, one
    millisecond before the second starts; the assembler then emits the
    two segments and the text "the quick the quick brown fox". *)
Theorem merge_example_keeps_both_cues :
  _dedupe_yt_captions merge_example
  = [ mkCaption 0 399 "the quick"; mkCaption 400 1200 "the quick brown fox" ]
  /\ forall webvtt_from_string content,
      webvtt_from_string content = Ok merge_example ->
      parse_captions webvtt_from_string "vtt" content
      = Ok ("the quick the quick brown fox",
            [ mkSegment 0 399 "the quick";
              mkSegment 400 1200 "the quick brown fox" ]).
Proof.
  split; [vm_compute; reflexivity|].
  intros f content Hf. unfold parse_captions. cbn [String.eqb negb].
  replace (String.eqb "vtt" "vtt") with true by reflexivity. cbn [negb].
  rewrite Hf. vm_compute. reflexivity.
Qed.

(** C6, refuted as stated: on two rolling two-line cues the first pass
    returns two cues, and a second pass over that output appends the
    second cue's remaining line to the first cue and returns one cue. *)
Lemma dedupe_twice_differs :
  _dedupe_yt_captions (_dedupe_yt_captions rolling_lines)
  <> _dedupe_yt_captions rolling_lines.
Proof. vm_compute. discriminate. Qed.

(** C6, amended: the pass is a no-op on its own output whenever that
    output is clean, that is, every cue after the first has trimmed,
    non-empty text of more than two words that is not a short-duration
    duplicate contained in the cue before it, whose first line differs
    from the last line of the cue before it, and the cue starts after
    the cue before it ends and before its own end. *)
Theorem dedupe_idempotent_on_clean_output (subs : list Caption) :
  clean (_dedupe_yt_captions subs) = true ->
  _dedupe_yt_captions (_dedupe_yt_captions subs) = _dedupe_yt_captions subs.
Proof. apply dedupe_clean_fixed. Qed.

Lemma dedupe_idempotent_on_clean_output_witness :
  clean (_dedupe_yt_captions merge_example) = true
  /\ _dedupe_yt_captions (_dedupe_yt_captions merge_example)
     = _dedupe_yt_captions merge_example.
Proof.
  split; [vm_compute; reflexivity|].
  apply (dedupe_idempotent_on_clean_output merge_example).
  vm_compute; reflexivity.
Defined.

(** C7, refuted as stated: for two parsed cues that start at the same
    time, the first segment's end (0.999s) lies before its start
    (1.000s). *)
Lemma same_start_segment_inverted :
  exists result first rest,
    parse_captions (library_reads same_start_vtt same_start) "vtt" same_start_vtt
    = Ok (result, first :: rest)
    /\ endTime first < startTime first.
Proof.
  eexists _, _, _. split; [vm_compute; reflexivity|]. cbn. lia.
Qed.

(** C7, amended: for every parsed caption input whose cues have
    start <= end and strictly increasing start times, parsing succeeds,
    every Segment satisfies startTime <= endTime, and the Segment list
    is in non-decreasing startTime order. *)
Theorem segments_ordered_for_ordered_input
        (webvtt_from_string : string -> result (list Caption))
        (content : string) (captions : list Caption) :
  webvtt_from_string content = Ok captions ->
  Forall well_timed captions ->
  strictly_ordered captions ->
  exists result segments,
    parse_captions webvtt_from_string "vtt" content = Ok (result, segments)
    /\ segments_ordered segments.
Proof.
  intros Hf Hall Hord. unfold parse_captions.
  replace (String.eqb "vtt" "vtt") with true by reflexivity. cbn [negb].
  rewrite Hf. cbn [rbind Ok].
  pose proof (assemble_loop_segments (_dedupe_yt_captions captions) None "" [])
    as Hsegs.
  destruct (assemble_loop None (_dedupe_yt_captions captions) "" [])
    as [result segments].
  cbn [snd app] in Hsegs. subst segments.
  eexists _, _. split; [reflexivity|].
  unfold segments_ordered.
  destruct captions as [|first rest]; [split; constructor|].
  cbn [_dedupe_yt_captions].
  apply Forall_cons_iff in Hall as [Hfirst Hall].
  unfold strictly_ordered in Hord.
  apply Sorted_StronglySorted in Hord; [|intros x y z; lia].
  destruct (dedupe_loop_ordered rest first Hfirst Hall Hord) as [Hout Hsorted].
  split.
  - apply Forall_map. eapply List.Forall_impl; [|exact Hout].
    cbn. intros c [Hc _]. exact Hc.
  - rewrite map_map. cbn [segment_of startTime]. exact Hsorted.
Qed.

Lemma segments_ordered_for_ordered_input_witness :
  exists result segments,
    parse_captions (library_reads merge_example_vtt merge_example)
                   "vtt" merge_example_vtt
    = Ok (result, segments)
    /\ segments_ordered segments.
Proof.
  apply (segments_ordered_for_ordered_input
           (library_reads merge_example_vtt merge_example)
           merge_example_vtt merge_example).
  - reflexivity.
  - repeat constructor; unfold well_timed; cbn; lia.
  - unfold strictly_ordered; cbn. repeat constructor.
Defined.

(** C10: for every extension other than "vtt" and every content,
    [parse_captions] raises ValueError; the result depends neither on
    the content nor on the caption library, so nothing of the content
    is examined, and no text or segment list is returned. *)
Theorem parse_captions_rejects_other_formats
        (webvtt_from_string : string -> result (list Caption))
        (ext content : string) :
  ext <> "vtt" ->
  parse_captions webvtt_from_string ext content
  = Raise (ValueError ("Unsupported caption format: " +:+ ext))
  /\ (forall other_parser other_content,
         parse_captions other_parser ext other_content
         = parse_captions webvtt_from_string ext content)
  /\ (forall r, parse_captions webvtt_from_string ext content <> Ok r).
Proof.
  intros Hext.
  assert (E : forall f c, parse_captions f ext c
                          = Raise (ValueError ("Unsupported caption format: " +:+ ext))).
  { intros f c. unfold parse_captions.
    destruct (String.eqb_spec ext "vtt") as [->|_]; [contradiction|reflexivity]. }
  split; [apply E|split].
  - intros f c. now rewrite !E.
  - intros r. rewrite E. discriminate.
Qed.

Lemma parse_captions_rejects_other_formats_witness :
  parse_captions (library_reads merge_example_vtt merge_example)
                 "srt" merge_example_vtt
  = Raise (ValueError "Unsupported caption format: srt")
  /\ (forall other_parser other_content,
         parse_captions other_parser "srt" other_content
         = parse_captions (library_reads merge_example_vtt merge_example)
                          "srt" merge_example_vtt)
  /\ (forall r,
         parse_captions (library_reads merge_example_vtt merge_example)
                        "srt" merge_example_vtt <> Ok r).
Proof.
  apply (parse_captions_rejects_other_formats
           (library_reads merge_example_vtt merge_example)
           "srt" merge_example_vtt).
  discriminate.
Defined.
End ExtractorFacts.
(** * The step timer *)

Section StepTimerFacts.
Import PyStr Recipes.

Variable float_interpolate : Z -> Z -> Z -> Z -> Z.

(** ** Enumeration and sorting *)

Lemma enumerate_from_lookup {A} (l : list A) :
  forall start i x,
    In (i, x) (enumerate_from start l) ->
    (start <= i)%nat /\ l !! (i - start)%nat = Some x.
Proof.
  induction l as [|y l IH]; intros start i x Hin; [destruct Hin|].
  cbn in Hin. destruct Hin as [Heq|Hin].
  - injection Heq as <- <-. split; [lia|]. now rewrite Nat.sub_diag.
  - apply IH in Hin as [Hle Hl]. split; [lia|].
    replace (i - start)%nat with (S (i - S start)) by lia. exact Hl.
Qed.

Lemma enumerate_from_length {A} (l : list A) :
  forall start, length (enumerate_from start l) = length l.
Proof. induction l; intros; cbn; auto. Qed.

Lemma insert_by_length {A} (key : A -> Z) (x : A) (l : list A) :
  length (insert_by key x l) = S (length l).
Proof.
  induction l as [|y l IH]; cbn; [reflexivity|].
  destruct (key x <=? key y); cbn; auto.
Qed.

Lemma sort_by_length {A} (key : A -> Z) (l : list A) :
  length (sort_by key l) = length l.
Proof.
  induction l as [|x l IH]; cbn; [reflexivity|].
  now rewrite insert_by_length, IH.
Qed.

Lemma insert_by_Forall {A} (P : A -> Prop) (key : A -> Z) (x : A) (l : list A) :
  P x -> Forall P l -> Forall P (insert_by key x l).
Proof.
  intros Hx Hl. induction Hl as [|y l Hy Hl IH]; cbn.
  - repeat constructor. exact Hx.
  - destruct (key x <=? key y); repeat constructor; auto.
Qed.

Lemma sort_by_Forall {A} (P : A -> Prop) (key : A -> Z) (l : list A) :
  Forall P l -> Forall P (sort_by key l).
Proof.
  induction 1; cbn; [constructor|]. now apply insert_by_Forall.
Qed.

Lemma insert_by_sorted {A} (key : A -> Z) (x : A) (l : list A) :
  StronglySorted Z.le (map key l) ->
  StronglySorted Z.le (map key (insert_by key x l)).
Proof.
  induction l as [|y l IH]; intros Hs.
  - cbn. repeat constructor.
  - cbn [map] in Hs. apply StronglySorted_inv in Hs as [Hs Hy].
    cbn [insert_by]. destruct (Z.leb_spec (key x) (key y)); cbn [map].
    + constructor; [constructor; assumption|].
      constructor; [assumption|].
      eapply List.Forall_impl; [|exact Hy]. cbn; intros; lia.
    + constructor; [apply IH, Hs|].
      rewrite List.Forall_map in Hy |- *.
      apply insert_by_Forall; [lia|exact Hy].
Qed.

Lemma sort_by_sorted {A} (key : A -> Z) (l : list A) :
  StronglySorted Z.le (map key (sort_by key l)).
Proof.
  induction l as [|x l IH]; cbn; [constructor|]. now apply insert_by_sorted.
Qed.

(** ** The first two passes leave a number in every [_raw_start] *)

Lemma first_pass_raw (instructions : list Instruction) :
  Forall (fun inst => exists v, _raw_start inst = Some v)
         (first_pass instructions).
Proof.
  unfold first_pass. apply Forall_map, Forall_forall.
  intros inst _. cbn. eauto.
Qed.

Lemma known_times_from (l : list Instruction) :
  forall start idx t,
    In (idx, t)
       (flat_map (fun '(i, inst) =>
                    match _raw_start inst with
                    | Some (Some t) => [(i, t)]
                    | _ => []
                    end)
                 (enumerate_from start l)) ->
    exists inst, In (idx, inst) (enumerate_from start l)
                 /\ _raw_start inst = Some (Some t).
Proof.
  induction l as [|x l IH]; intros start idx t Hin; [destruct Hin|].
  cbn [enumerate_from flat_map] in Hin. apply in_app_or in Hin as [Hin|Hin].
  - destruct (_raw_start x) as [[t'|]|] eqn:Hx; try destruct Hin.
    + injection H as <- <-. exists x. split; [now left|exact Hx].
    + destruct H.
  - apply IH in Hin as (inst & Hin & Hraw). exists inst. split; [now right|exact Hraw].
Qed.

Lemma find_known_prev (i : nat) (known : list (nat * Z)) :
  forall prev_known p nx idx t,
    find_known i known prev_known = (p, nx) ->
    p = Some (idx, t) ->
    (idx < i)%nat \/ prev_known = Some (idx, t).
Proof.
  induction known as [|[idx' time] rest IH]; intros prev_known p nx idx t E Hp;
    cbn [find_known] in E.
  - injection E as <- <-. now right.
  - destruct (Nat.ltb_spec idx' i).
    + destruct (IH _ _ _ _ _ E Hp) as [?|E']; [now left|].
      injection E' as <- <-. now left.
    + destruct (Nat.ltb_spec i idx').
      * injection E as <- <-. now right.
      * eapply IH; eassumption.
Qed.

Lemma find_known_next (i : nat) (known : list (nat * Z)) :
  forall prev_known p idx t,
    find_known i known prev_known = (p, Some (idx, t)) -> (i < idx)%nat.
Proof.
  induction known as [|[idx' time] rest IH]; intros prev_known p idx t E;
    cbn [find_known] in E.
  - discriminate.
  - destruct (Nat.ltb_spec idx' i); [eapply IH; eassumption|].
    destruct (Nat.ltb_spec i idx'); [|eapply IH; eassumption].
    injection E as <- <- <-. assumption.
Qed.

Lemma find_known_none (i : nat) (known : list (nat * Z)) :
  forall prev_known,
    find_known i known prev_known = (None, None) ->
    prev_known = None /\ Forall (fun '(idx, _) => idx = i) known.
Proof.
  induction known as [|[idx' time] rest IH]; intros prev_known E;
    cbn [find_known] in E.
  - injection E as ->. split; constructor.
  - destruct (Nat.ltb_spec idx' i).
    + apply IH in E as [E _]. discriminate.
    + destruct (Nat.ltb_spec i idx'); [discriminate|].
      apply IH in E as [-> Hrest]. split; [reflexivity|].
      constructor; [lia|exact Hrest].
Qed.

Lemma mapM_Forall {A B} (f : A -> result B) (Q : A -> B -> Prop) (l : list A) :
  (forall x, In x l -> exists y, f x = Ok y /\ Q x y) ->
  exists ys, mapM f l = Ok ys /\ Forall2 Q l ys.
Proof.
  induction l as [|x l IH]; intros Hf.
  - exists []. split; [reflexivity|constructor].
  - destruct (Hf x (or_introl eq_refl)) as (y & Ey & Hy).
    destruct IH as (ys & Eys & Hys); [intros; apply Hf; now right|].
    exists (y :: ys). cbn [mapM]. rewrite Ey. cbn [rbind Ok]. rewrite Eys.
    split; [reflexivity|now constructor].
Qed.

(** The interpolation loop fills the [_raw_start] of the step at [i]
    and changes nothing else. *)
Lemma fill_raw_start_ok (video_duration : Z) (l : list Instruction)
      (i : nat) (inst : Instruction) :
  known_times l <> [] ->
  In (i, inst) (enumerate l) ->
  (exists v, _raw_start inst = Some v) ->
  exists inst',
    fill_raw_start float_interpolate video_duration (length l)
                   (known_times l) (i, inst) = Ok inst'
    /\ has_raw_start inst' /\ step inst' = step inst.
Proof using Type.
  intros Hknown Hin [v Hv]. unfold fill_raw_start, get_raw_start.
  rewrite Hv. cbn [rbind Ok].
  destruct v as [t|]; [exists inst; repeat split; exists t; exact Hv|].
  assert (Hlen : Z.of_nat (length l) <> 0).
  { destruct l; [destruct Hin|cbn; lia]. }
  assert (Hdiv : floordiv video_duration (Z.of_nat (length l))
                 = Ok (video_duration / Z.of_nat (length l))).
  { unfold floordiv. destruct (Z.eqb_spec (Z.of_nat (length l)) 0); [lia|reflexivity]. }
  destruct (find_known i (known_times l) None) as [p nx] eqn:E.
  destruct p as [[prev_idx prev_time]|], nx as [[next_idx next_time]|].
  - pose proof (find_known_next _ _ _ _ _ _ E) as Hn.
    destruct (find_known_prev _ _ _ _ _ _ _ E eq_refl) as [Hp|Hp]; [|discriminate].
    destruct (Z.eqb_spec (Z.of_nat next_idx - Z.of_nat prev_idx) 0); [lia|].
    eexists. split; [reflexivity|]. split; [eexists; reflexivity|reflexivity].
  - rewrite Hdiv. cbn [rbind Ok].
    eexists. split; [reflexivity|]. split; [eexists; reflexivity|reflexivity].
  - rewrite Hdiv. cbn [rbind Ok].
    eexists. split; [reflexivity|]. split; [eexists; reflexivity|reflexivity].
  - exfalso. apply find_known_none in E as [_ Hall].
    destruct (known_times l) as [|[idx t] rest] eqn:Ek; [contradiction|].
    apply Forall_cons_iff in Hall as [-> _].
    assert (Hk : In (i, t) (known_times l)) by (rewrite Ek; now left).
    apply known_times_from in Hk as (inst' & Hin' & Hraw).
    apply enumerate_from_lookup in Hin as [_ Hin].
    apply enumerate_from_lookup in Hin' as [_ Hin'].
    rewrite Hin in Hin'. injection Hin' as <-. congruence.
Qed.

Lemma second_pass_ok (instructions : list Instruction) (video_duration : Z) :
  Forall (fun inst => exists v, _raw_start inst = Some v) instructions ->
  exists filled,
    second_pass float_interpolate instructions video_duration = Ok filled
    /\ Forall has_raw_start filled
    /\ length filled = length instructions.
Proof using Type.
  intros Hraw. unfold second_pass.
  destruct (known_times instructions) as [|k known] eqn:Ek.
  - unfold floordiv.
    destruct (Z.eqb_spec (Z.max (Z.of_nat (length instructions)) 1) 0); [lia|].
    cbn [rbind Ok]. eexists. split; [reflexivity|]. split.
    + apply Forall_map, Forall_forall. intros [i inst] _. cbn. eexists; reflexivity.
    + rewrite length_map. apply enumerate_from_length.
  - rewrite <- Ek.
    destruct (mapM_Forall
                (fill_raw_start float_interpolate video_duration
                                (length instructions) (known_times instructions))
                (fun _ inst' => has_raw_start inst')
                (enumerate instructions)) as (filled & E & Hall).
    { intros [i inst] Hin.
      destruct (fill_raw_start_ok video_duration instructions i inst)
        as (inst' & E & Hr & _).
      - rewrite Ek. discriminate.
      - exact Hin.
      - rewrite Forall_forall in Hraw. apply Hraw.
        apply enumerate_from_lookup in Hin as [_ Hin].
        eapply list_elem_of_lookup_2. exact Hin.
      - exists inst'. split; [exact E|exact Hr]. }
    exists filled. split; [exact E|]. split.
    + clear - Hall. induction Hall; constructor; auto.
    + apply Forall2_length in Hall. rewrite <- Hall.
      apply enumerate_from_length.
Qed.

(** ** The third pass *)

Lemma third_pass_timed (video_duration : Z) (instructions : list Instruction) :
  forall prev,
    Forall has_raw_start instructions ->
    exists out,
      third_pass video_duration prev instructions = Ok out
      /\ length out = length instructions
      /\ map step_key out = map step_key instructions
      /\ timed_from video_duration (prev_end_of prev) out.
Proof.
  induction instructions as [|instruction rest IH]; intros prev Hall.
  - exists []. repeat split.
  - apply Forall_cons_iff in Hall as [[raw Hraw] Hrest].
    cbn [third_pass]. unfold get_raw_start, number. rewrite Hraw.
    cbn [rbind Ok].
    set (start := match prev with
                  | Some p => _
                  | None => Z.max raw 0
                  end).
    assert (Hstart : prev_end_of prev <= start).
    { subst start. unfold prev_end_of. destruct prev as [p|]; lia. }
    destruct rest as [|next rest'].
    + cbn [rbind Ok third_pass].
      eexists. split; [reflexivity|]. split; [reflexivity|].
      split; [reflexivity|].
      cbn. eexists _, _. split; [reflexivity|]. split; [exact Hstart|].
      split; [|exact I].
      unfold MIN_STEP_DURATION.
      destruct (Z.ltb_spec (video_duration - start) 5); lia.
    + pose proof Hrest as Hrest'.
      apply Forall_cons_iff in Hrest' as [[raw' Hraw'] _].
      rewrite Hraw'. cbn [rbind Ok].
      set (end_ := if _ <? _ then _ else _).
      assert (Hend : MIN_STEP_DURATION <= end_ - start).
      { subst end_. unfold MIN_STEP_DURATION.
        destruct (Z.ltb_spec (Z.max raw' (start + 5) - start) 5); lia. }
      destruct (IH (Some (set_predicted_time instruction
                                             (mkPredictedTime start end_)))
                   Hrest) as (out & E & Hlen & Hkeys & Htimed).
      rewrite E. cbn [rbind Ok].
      eexists. split; [reflexivity|]. split; [cbn; now rewrite Hlen|].
      split; [cbn [map]; now rewrite Hkeys|].
      cbn [timed_from]. eexists _, _. split; [reflexivity|].
      split; [exact Hstart|].
      destruct out as [|o out']; [discriminate Hlen|].
      split; [exact Hend|exact Htimed].
Qed.

Lemma timed_from_ext (video_duration : Z) (f : Instruction -> Instruction) :
  (forall inst, window (f inst) = window inst) ->
  forall out lo,
    timed_from video_duration lo out ->
    timed_from video_duration lo (map f out).
Proof.
  intros Hf. induction out as [|a rest IH]; intros lo Ht; [exact I|].
  cbn [timed_from map] in *. destruct Ht as (s & e & Hw & Hlo & Hshape & Hrest).
  exists s, e. rewrite Hf. split; [exact Hw|]. split; [exact Hlo|].
  split; [destruct rest; exact Hshape|apply IH, Hrest].
Qed.

(** The whole timer returns, and its output has the shape the third
    pass builds, in ascending order of [step]. *)
Lemma predict_step_times_timed (instructions : list Instruction)
      (video_duration : Z) :
  exists out,
    predict_step_times float_interpolate instructions video_duration = Ok out
    /\ length out = length instructions
    /\ StronglySorted Z.le (map step_key out)
    /\ timed_from video_duration 0 out.
Proof using Type.
  unfold predict_step_times.
  destruct (second_pass_ok (first_pass instructions) video_duration
                           (first_pass_raw instructions))
    as (filled & E2 & Hfilled & Hlen2).
  rewrite E2. cbn [rbind Ok].
  destruct (third_pass_timed video_duration (sort_by step_key filled) None
                             (sort_by_Forall _ _ _ Hfilled))
    as (out & E3 & Hlen3 & Hkeys & Htimed).
  rewrite E3. cbn [rbind Ok].
  eexists. split; [reflexivity|]. split; [|split].
  - rewrite length_map, Hlen3, sort_by_length, Hlen2.
    unfold first_pass. apply length_map.
  - rewrite map_map.
    rewrite (map_ext _ step_key) by reflexivity.
    rewrite Hkeys. apply sort_by_sorted.
  - apply timed_from_ext; [reflexivity|exact Htimed].
Qed.

(** ** Reading windows off the output *)

Lemma timed_from_lookup (video_duration : Z) (out : list Instruction) :
  forall lo,
    timed_from video_duration lo out ->
    forall (i : nat) a,
      out !! i = Some a ->
      exists s e,
        window a = Some (s, e)
        /\ lo <= s
        /\ if (S i <? length out)%nat
           then MIN_STEP_DURATION <= e - s
           else e = video_duration.
Proof.
  induction out as [|b rest IH]; intros lo Ht i a Hi; [discriminate|].
  cbn [timed_from] in Ht. destruct Ht as (s & e & Hw & Hlo & Hshape & Hrest).
  destruct i as [|i]; cbn in Hi.
  - injection Hi as <-. exists s, e. split; [exact Hw|]. split; [exact Hlo|].
    destruct rest; cbn; [exact Hshape|exact Hshape].
  - destruct (IH e Hrest i a Hi) as (s' & e' & Hw' & Hlo' & Hshape').
    exists s', e'. split; [exact Hw'|]. split.
    + destruct rest as [|c rest']; [discriminate|].
      unfold MIN_STEP_DURATION in *. lia.
    + cbn [length]. exact Hshape'.
Qed.

Lemma timed_from_adjacent (video_duration : Z) (out : list Instruction) :
  forall lo,
    timed_from video_duration lo out ->
    forall (i : nat) a b,
      out !! i = Some a ->
      out !! S i = Some b ->
      exists sa ea sb eb,
        window a = Some (sa, ea) /\ window b = Some (sb, eb) /\ ea <= sb.
Proof.
  induction out as [|c rest IH]; intros lo Ht i a b Ha Hb; [discriminate|].
  cbn [timed_from] in Ht. destruct Ht as (s & e & Hw & Hlo & Hshape & Hrest).
  destruct i as [|i]; cbn in Ha, Hb.
  - injection Ha as <-.
    destruct (timed_from_lookup _ _ _ Hrest 0%nat b Hb) as (sb & eb & Hwb & Hle & _).
    exists s, e, sb, eb. auto.
  - eapply IH; eassumption.
Qed.

Lemma timed_from_last (video_duration : Z) (out : list Instruction) :
  forall lo,
    timed_from video_duration lo out ->
    out <> [] ->
    exists a s, last out = Some a /\ window a = Some (s, video_duration).
Proof.
  induction out as [|c rest IH]; intros lo Ht Hne; [contradiction|].
  cbn [timed_from] in Ht. destruct Ht as (s & e & Hw & Hlo & Hshape & Hrest).
  destruct rest as [|d rest'].
  - subst e. exists c, s. split; [reflexivity|exact Hw].
  - destruct (IH e Hrest) as (a & s' & Hl & Hw'); [discriminate|].
    exists a, s'. split; [exact Hl|exact Hw'].
Qed.

(** ** The claims *)

(** C2: on every non-empty step list and positive videoDuration the
    Step Timer returns the steps in ascending step order with a window
    each; for consecutive steps i, i+1 the start of step i+1 is at or
    after the end of step i, and the last step's window ends at
    videoDuration. *)
Theorem step_windows_do_not_overlap (instructions : list Instruction)
        (video_duration : Z) :
  instructions <> [] ->
  0 < video_duration ->
  exists out,
    predict_step_times float_interpolate instructions video_duration = Ok out
    /\ length out = length instructions
    /\ StronglySorted Z.le (map step_key out)
    /\ (forall (i : nat) a b,
           out !! i = Some a ->
           out !! S i = Some b ->
           exists sa ea sb eb,
             window a = Some (sa, ea) /\ window b = Some (sb, eb) /\ ea <= sb)
    /\ (exists a s, last out = Some a /\ window a = Some (s, video_duration)).
Proof using Type.
  intros Hne _.
  destruct (predict_step_times_timed instructions video_duration)
    as (out & E & Hlen & Hsorted & Htimed).
  exists out. repeat split; try assumption.
  - apply (timed_from_adjacent _ _ _ Htimed).
  - apply (timed_from_last _ _ _ Htimed).
    destruct out; [destruct instructions; [contradiction|discriminate]|discriminate].
Qed.

(** C8, amended: on every non-empty step list with videoDuration <= 0
    the Step Timer raises no error and gives every step a window whose
    start is not negative; every step but the last gets a window of at
    least 5 seconds (so not {0, 0}), the last step's window ends at
    videoDuration, and a single step without keyword matches gets
    {0, videoDuration}. *)
Theorem step_windows_without_duration (instructions : list Instruction)
        (video_duration : Z) :
  instructions <> [] ->
  video_duration <= 0 ->
  exists out,
    predict_step_times float_interpolate instructions video_duration = Ok out
    /\ length out = length instructions
    /\ (forall (i : nat) a,
           out !! i = Some a ->
           exists s e,
             window a = Some (s, e)
             /\ 0 <= s
             /\ if (S i <? length out)%nat then 5 <= e - s
                else e = video_duration)
    /\ (forall inst,
           instructions = [inst] ->
           video_references inst = [] ->
           map window out = [Some (0, video_duration)]).
Proof using Type.
  intros _ Hvd.
  destruct (predict_step_times_timed instructions video_duration)
    as (out & E & Hlen & Hsorted & Htimed).
  exists out. split; [exact E|]. split; [exact Hlen|]. split.
  - intros i a Hi. apply (timed_from_lookup _ _ _ Htimed i a Hi).
  - intros inst -> Hrefs. revert E.
    unfold predict_step_times, first_pass, raw_start_of. cbn [map].
    rewrite Hrefs. unfold second_pass, known_times. cbn.
    unfold floordiv. cbn. rewrite Z.div_1_r.
    intros E. injection E as <-. cbn. unfold window. cbn.
    unfold MIN_STEP_DURATION.
    change (Z.of_nat 0 * video_duration) with 0.
    destruct (Z.ltb_spec (video_duration - Z.max 0 0) 5);
      do 3 f_equal; lia.
Qed.
End StepTimerFacts.

Section StepTimerExamples.
  Import PyStr Recipes.

(** Three steps and ninety seconds: the first step matched at 0s, the
    third at 60s, the second has no match. *)
Lemma step_windows_do_not_overlap_witness :
  exists out,
    predict_step_times exact_interpolate
                       [step_at 1 0; bare_step 2; step_at 3 60] 90 = Ok out
    /\ length out = 3%nat
    /\ StronglySorted Z.le (map step_key out)
    /\ (forall (i : nat) a b,
           out !! i = Some a ->
           out !! S i = Some b ->
           exists sa ea sb eb,
             window a = Some (sa, ea) /\ window b = Some (sb, eb) /\ ea <= sb)
    /\ (exists a s, last out = Some a /\ window a = Some (s, 90)).
Proof.
  apply (step_windows_do_not_overlap
           exact_interpolate [step_at 1 0; bare_step 2; step_at 3 60] 90).
  - discriminate.
  - lia.
Defined.

(** C8, refuted as stated: two steps without matches and videoDuration 0
    get the windows {0, 5} and {5, 0}, not {0, 0}. *)
Lemma zero_duration_windows_not_degenerate :
  exists out,
    predict_step_times exact_interpolate [bare_step 1; bare_step 2] 0 = Ok out
    /\ map window out = [Some (0, 5); Some (5, 0)].
Proof. eexists. split; vm_compute; reflexivity. Qed.

Lemma step_windows_without_duration_witness :
  exists out,
    predict_step_times exact_interpolate [bare_step 1; bare_step 2] 0 = Ok out
    /\ length out = 2%nat
    /\ (forall (i : nat) a,
           out !! i = Some a ->
           exists s e,
             window a = Some (s, e)
             /\ 0 <= s
             /\ if (S i <? length out)%nat then 5 <= e - s else e = 0)
    /\ (forall inst,
           [bare_step 1; bare_step 2] = [inst] ->
           video_references inst = [] ->
           map window out = [Some (0, 0)]).
Proof.
  apply (step_windows_without_duration
           exact_interpolate [bare_step 1; bare_step 2] 0).
  - discriminate.
  - lia.
Defined.
End StepTimerExamples.

(** * The cue parser and the keyword matcher *)

Section SearchFacts.
Import PyStr Recipes.

Variable stemWord : string -> string.
Variables fuzz_ratio fuzz_partial_ratio : string -> string -> Q.

(** ** Parsing content without timestamp lines *)

Lemma parse_lines_no_timestamp (lines : list string) :
  (forall line, In line lines -> timestamp_match (strip line) = None) ->
  parse_lines stemWord lines = [].
Proof using Type.
  induction lines as [|line rest IH]; intros Hnone; [reflexivity|].
  cbn [parse_lines]. rewrite (Hnone line (or_introl eq_refl)).
  apply IH. intros l Hl. apply Hnone. now right.
Qed.

(** ** Searching *)

Lemma keyword_step_no_cues (fuzzy_threshold : Z) (st : SearchState)
      (keyword : string) :
  matches (keyword_step stemWord fuzz_ratio fuzz_partial_ratio
                        [] fuzzy_threshold st keyword)
  = matches st.
Proof using Type.
  unfold keyword_step. destruct (bool_decide _); [reflexivity|].
  cbn [enumerate enumerate_from fold_left].
  destruct (seen_timestamps st !! lower keyword); reflexivity.
Qed.

Lemma search_cues_no_cues (keywords : list string) (fuzzy_threshold : Z) :
  search_cues stemWord fuzz_ratio fuzz_partial_ratio [] keywords fuzzy_threshold
  = [].
Proof using Type.
  unfold search_cues.
  assert (H : forall st,
             matches st = [] ->
             matches (fold_left (keyword_step stemWord fuzz_ratio
                                              fuzz_partial_ratio [] fuzzy_threshold)
                                keywords st) = []).
  { induction keywords as [|k ks IH]; intros st Hst; [exact Hst|].
    cbn [fold_left]. apply IH. now rewrite keyword_step_no_cues. }
  rewrite H; reflexivity.
Qed.

Lemma temporal_dedup_app (hits1 hits2 : list Match) :
  forall retained,
    temporal_dedup retained (hits1 ++ hits2)
    = temporal_dedup (temporal_dedup retained hits1) hits2.
Proof.
  induction hits1 as [|h hits1 IH]; intros retained; [reflexivity|].
  cbn [app temporal_dedup]. destruct (existsb _ retained); apply IH.
Qed.

Lemma is_duplicate_tracks (st : SearchState) (hit : Match) :
  tracks st ->
  is_duplicate (timestamp_seconds hit)
               (seen_for (seen_timestamps st) (lower (keyword hit)))
  = existsb (within_window hit) (matches st).
Proof.
  intros Ht. rewrite Ht. unfold is_duplicate, within_window.
  induction (matches st) as [|m ms IH]; [reflexivity|].
  cbn [List.filter existsb].
  destruct (String.eqb (lower (keyword m)) (lower (keyword hit))); cbn.
  - now rewrite IH.
  - exact IH.
Qed.

Lemma tracks_append (st : SearchState) (hit : Match) :
  tracks st ->
  tracks (mkSearchState
            (<[lower (keyword hit) :=
                 seen_for (seen_timestamps st) (lower (keyword hit))
                 ++ [timestamp_seconds hit]]> (seen_timestamps st))
            (matches st ++ [hit])).
Proof.
  intros Ht k. unfold seen_for. cbn [seen_timestamps matches].
  rewrite List.filter_app, map_app. cbn [List.filter].
  destruct (String.eqb_spec (lower (keyword hit)) k) as [<-|Hne].
  - rewrite lookup_insert_eq. cbn. f_equal. apply Ht.
  - rewrite lookup_insert_ne by exact Hne. cbn. rewrite app_nil_r. apply Ht.
Qed.

Lemma tracks_init (st : SearchState) (keyword_lower : string) :
  tracks st ->
  tracks (match seen_timestamps st !! keyword_lower with
          | None => mkSearchState (<[keyword_lower := []]> (seen_timestamps st))
                                  (matches st)
          | Some _ => st
          end)
  /\ matches (match seen_timestamps st !! keyword_lower with
              | None => mkSearchState (<[keyword_lower := []]> (seen_timestamps st))
                                      (matches st)
              | Some _ => st
              end) = matches st.
Proof.
  intros Ht. destruct (seen_timestamps st !! keyword_lower) eqn:E; [now split|].
  split; [|reflexivity]. intros k. cbn [seen_timestamps matches].
  rewrite <- Ht. unfold seen_for.
  destruct (String.eqb_spec keyword_lower k) as [<-|Hne].
  - now rewrite lookup_insert_eq, E.
  - now rewrite lookup_insert_ne.
Qed.

(** One iteration on a tracked state: a cue in which the keyword is
    found is discarded exactly when the rule says so. *)
Lemma cue_step_tracks (cues : list Cue) (keyword : string)
      (fuzzy_threshold : Z) (st : SearchState) (i : nat) (cue : Cue) :
  tracks st ->
  let hit := mkMatch keyword (timestamp_of cue)
                     (build_context cues i cue keyword) in
  let st' := cue_step stemWord fuzz_ratio fuzz_partial_ratio
                      cues keyword fuzzy_threshold st (i, cue) in
  tracks st'
  /\ matches st'
     = if found_in fuzz_ratio fuzz_partial_ratio
                   (stem_keyword stemWord keyword) fuzzy_threshold cue
       then if existsb (within_window hit) (matches st)
            then matches st
            else matches st ++ [hit]
       else matches st.
Proof using Type.
  intros Ht hit st'. subst st'. unfold cue_step.
  destruct (found_in _ _ _ _ cue); [|now split].
  pose proof (is_duplicate_tracks st hit Ht) as Hd.
  cbn [timestamp_seconds Recipes.keyword hit] in Hd. rewrite Hd.
  destruct (existsb (within_window hit) (matches st)); [now split|].
  split; [apply (tracks_append st hit Ht)|reflexivity].
Qed.

(** One keyword's loop over the cues retains what the rule retains of
    that keyword's raw hits. *)
Lemma cue_loop_refines (cues : list Cue) (keyword : string)
      (fuzzy_threshold : Z) (ics : list (nat * Cue)) :
  forall st,
    tracks st ->
    tracks (fold_left (cue_step stemWord fuzz_ratio fuzz_partial_ratio
                                cues keyword fuzzy_threshold) ics st)
    /\ matches (fold_left (cue_step stemWord fuzz_ratio fuzz_partial_ratio
                                    cues keyword fuzzy_threshold) ics st)
       = temporal_dedup
           (matches st)
           (flat_map
              (fun '(i, cue) =>
                 if found_in fuzz_ratio fuzz_partial_ratio
                             (stem_keyword stemWord keyword) fuzzy_threshold cue
                 then [mkMatch keyword (timestamp_of cue)
                               (build_context cues i cue keyword)]
                 else [])
              ics).
Proof using Type.
  induction ics as [|[i cue] ics IH]; intros st Ht; [now split|].
  cbn [fold_left flat_map].
  destruct (cue_step_tracks cues keyword fuzzy_threshold st i cue Ht)
    as [Ht' Hm].
  destruct (IH _ Ht') as [Ht'' Hm'']. split; [exact Ht''|].
  rewrite Hm'', Hm.
  destruct (found_in _ _ _ _ cue); cbn [app temporal_dedup]; [|reflexivity].
  destruct (existsb _ (matches st)); reflexivity.
Qed.

Lemma keyword_loop_refines (cues : list Cue) (fuzzy_threshold : Z)
      (keywords : list string) :
  forall st,
    tracks st ->
    tracks (fold_left (keyword_step stemWord fuzz_ratio fuzz_partial_ratio
                                    cues fuzzy_threshold) keywords st)
    /\ matches (fold_left (keyword_step stemWord fuzz_ratio fuzz_partial_ratio
                                        cues fuzzy_threshold) keywords st)
       = temporal_dedup
           (matches st)
           (raw_hits stemWord fuzz_ratio fuzz_partial_ratio
                     cues fuzzy_threshold keywords).
Proof using Type.
  induction keywords as [|keyword keywords IH]; intros st Ht; [now split|].
  cbn [fold_left]. unfold raw_hits. cbn [flat_map].
  rewrite temporal_dedup_app.
  assert (Hstep :
            tracks (keyword_step stemWord fuzz_ratio fuzz_partial_ratio
                                 cues fuzzy_threshold st keyword)
            /\ matches (keyword_step stemWord fuzz_ratio fuzz_partial_ratio
                                     cues fuzzy_threshold st keyword)
               = temporal_dedup
                   (matches st)
                   (if bool_decide (lower keyword ∈ STOPWORDS) then []
                    else raw_hits_of stemWord fuzz_ratio fuzz_partial_ratio
                                     cues fuzzy_threshold keyword)).
  { unfold keyword_step.
    destruct (bool_decide (lower keyword ∈ STOPWORDS)); [now split|].
    destruct (tracks_init st (lower keyword) Ht) as [Hi Hmi].
    destruct (cue_loop_refines cues keyword fuzzy_threshold (enumerate cues) _ Hi)
      as [Ht' Hm].
    rewrite Hmi in Hm. split; [exact Ht'|exact Hm]. }
  destruct Hstep as [Ht' Hm].
  destruct (IH _ Ht') as [Ht'' Hm'']. split; [exact Ht''|].
  rewrite Hm'', Hm. reflexivity.
Qed.

Lemma search_cues_refines (cues : list Cue) (keywords : list string)
      (fuzzy_threshold : Z) :
  search_cues stemWord fuzz_ratio fuzz_partial_ratio cues keywords fuzzy_threshold
  = sort_by timestamp_seconds
            (temporal_dedup [] (raw_hits stemWord fuzz_ratio fuzz_partial_ratio
                                         cues fuzzy_threshold keywords)).
Proof using Type.
  unfold search_cues. f_equal.
  apply (keyword_loop_refines cues fuzzy_threshold keywords (mkSearchState ∅ [])).
  intros k. reflexivity.
Qed.

Lemma raw_hits_single_keyword (cues : list Cue) (fuzzy_threshold : Z)
      (keyword : string) :
  Forall (fun m => Recipes.keyword m = keyword)
         (raw_hits stemWord fuzz_ratio fuzz_partial_ratio
                   cues fuzzy_threshold [keyword]).
Proof using Type.
  unfold raw_hits. cbn [flat_map]. rewrite app_nil_r.
  destruct (bool_decide _); [constructor|].
  unfold raw_hits_of. induction (enumerate cues) as [|[i cue] ics IH];
    [constructor|].
  cbn [flat_map]. destruct (found_in _ _ _ _ cue); cbn [app]; [|exact IH].
  constructor; [reflexivity|exact IH].
Qed.

(** ** The claims *)

(** C1, amended: for every raw caption input that contains no valid
    timestamp line, [parse_vtt_cues] raises nothing and returns the empty
    cue sequence, so the keyword search returns no match; [parse_captions]
    has no format error of its own either: on "vtt" input it passes on
    whatever the caption library raises, and returns the empty text and
    no segment when the library returns no caption. *)
Theorem timestamp_free_input_yields_no_cue (vtt_content : string) :
  no_timestamp_line vtt_content ->
  parse_vtt_cues stemWord vtt_content = []
  /\ (forall keywords fuzzy_threshold,
         search_vtt_for_keywords stemWord fuzz_ratio fuzz_partial_ratio
                                 vtt_content keywords fuzzy_threshold = [])
  /\ (forall webvtt_from_string,
         webvtt_from_string vtt_content = Ok [] ->
         Extractor.parse_captions webvtt_from_string "vtt" vtt_content
         = Ok ("", []))
  /\ (forall webvtt_from_string e,
         webvtt_from_string vtt_content = Raise e ->
         Extractor.parse_captions webvtt_from_string "vtt" vtt_content
         = Raise e).
Proof using Type.
  intros Hnone.
  assert (Hcues : parse_vtt_cues stemWord vtt_content = [])
    by (apply parse_lines_no_timestamp, Hnone).
  split; [exact Hcues|]. split; [|split].
  - intros keywords fuzzy_threshold. unfold search_vtt_for_keywords.
    rewrite Hcues. apply search_cues_no_cues.
  - intros f Hf. unfold Extractor.parse_captions.
    replace (String.eqb "vtt" "vtt") with true by reflexivity.
    cbn [negb]. rewrite Hf. reflexivity.
  - intros f e Hf. unfold Extractor.parse_captions.
    replace (String.eqb "vtt" "vtt") with true by reflexivity.
    cbn [negb]. rewrite Hf. reflexivity.
Qed.

(** C9: the matches returned are the raw hits, filtered by the rule that
    a hit is discarded if and only if its timestamp is within 3 seconds,
    inclusive, of a match retained before it for the same keyword in lower
    case, then sorted by timestamp; each step of the loop over the cues
    applies that rule; so for one keyword raw hits at 10s and 11s leave
    one match and raw hits at 10s and 14s both remain. *)
Theorem keyword_hits_deduplicated_within_three_seconds :
  (forall cues keywords fuzzy_threshold,
      search_cues stemWord fuzz_ratio fuzz_partial_ratio
                  cues keywords fuzzy_threshold
      = sort_by timestamp_seconds
                (temporal_dedup [] (raw_hits stemWord fuzz_ratio fuzz_partial_ratio
                                             cues fuzzy_threshold keywords)))
  /\ (forall cues keyword fuzzy_threshold st i cue,
         tracks st ->
         found_in fuzz_ratio fuzz_partial_ratio
                  (stem_keyword stemWord keyword) fuzzy_threshold cue = true ->
         let st' := cue_step stemWord fuzz_ratio fuzz_partial_ratio
                             cues keyword fuzzy_threshold st (i, cue) in
         tracks st'
         /\ (matches st' = matches st
             \/ matches st'
                = matches st ++ [mkMatch keyword (timestamp_of cue)
                                         (build_context cues i cue keyword)])
         /\ (matches st' = matches st
             <-> exists m,
                 In m (matches st)
                 /\ lower (Recipes.keyword m) = lower keyword
                 /\ Z.abs (timestamp_of cue - timestamp_seconds m) <= 3))
  /\ (forall cues keyword fuzzy_threshold,
         map timestamp_seconds
             (raw_hits stemWord fuzz_ratio fuzz_partial_ratio
                       cues fuzzy_threshold [keyword]) = [10; 11] ->
         map timestamp_seconds
             (search_cues stemWord fuzz_ratio fuzz_partial_ratio
                          cues [keyword] fuzzy_threshold) = [10])
  /\ (forall cues keyword fuzzy_threshold,
         map timestamp_seconds
             (raw_hits stemWord fuzz_ratio fuzz_partial_ratio
                       cues fuzzy_threshold [keyword]) = [10; 14] ->
         map timestamp_seconds
             (search_cues stemWord fuzz_ratio fuzz_partial_ratio
                          cues [keyword] fuzzy_threshold) = [10; 14]).
Proof using Type.
  split; [exact search_cues_refines|]. split; [|split].
  - intros cues keyword fuzzy_threshold st i cue Ht Hfound st'.
    destruct (cue_step_tracks cues keyword fuzzy_threshold st i cue Ht)
      as [Ht' Hm].
    fold st' in Ht', Hm. rewrite Hfound in Hm.
    split; [exact Ht'|].
    set (hit := mkMatch keyword (timestamp_of cue)
                        (build_context cues i cue keyword)) in *.
    destruct (existsb (within_window hit) (matches st)) eqn:Hex.
    + split; [now left|]. split; [intros _|intros _; exact Hm].
      apply existsb_exists in Hex as (m & Hin & Hw).
      unfold within_window in Hw. apply andb_prop in Hw as [Hk Hw].
      exists m. split; [exact Hin|].
      split; [now apply String.eqb_eq in Hk|now apply Z.leb_le in Hw].
    + split; [now right|]. split.
      * intros E. rewrite E in Hm. apply (f_equal (@length _)) in Hm.
        rewrite length_app in Hm. cbn in Hm. lia.
      * intros (m & Hin & Hk & Hw). exfalso.
        assert (existsb (within_window hit) (matches st) = true); [|congruence].
        apply existsb_exists. exists m. split; [exact Hin|].
        unfold within_window. apply andb_true_intro.
        split; [now apply String.eqb_eq|now apply Z.leb_le].
  - intros cues keyword fuzzy_threshold Hhits. rewrite search_cues_refines.
    pose proof (raw_hits_single_keyword cues fuzzy_threshold keyword) as Hk.
    destruct (raw_hits _ _ _ cues fuzzy_threshold [keyword])
      as [|[k1 t1 c1] [|[k2 t2 c2] [|? ?]]]; try discriminate.
    injection Hhits as -> ->.
    apply Forall_cons_iff in Hk as [Hk1 Hk2].
    apply Forall_cons_iff in Hk2 as [Hk2 _]. cbn in Hk1, Hk2. subst k1 k2.
    cbn [temporal_dedup existsb app]. unfold within_window.
    cbn [Recipes.keyword timestamp_seconds]. rewrite String.eqb_refl.
    reflexivity.
  - intros cues keyword fuzzy_threshold Hhits. rewrite search_cues_refines.
    pose proof (raw_hits_single_keyword cues fuzzy_threshold keyword) as Hk.
    destruct (raw_hits _ _ _ cues fuzzy_threshold [keyword])
      as [|[k1 t1 c1] [|[k2 t2 c2] [|? ?]]]; try discriminate.
    injection Hhits as -> ->.
    apply Forall_cons_iff in Hk as [Hk1 Hk2].
    apply Forall_cons_iff in Hk2 as [Hk2 _]. cbn in Hk1, Hk2. subst k1 k2.
    cbn [temporal_dedup existsb app]. unfold within_window.
    cbn [Recipes.keyword timestamp_seconds]. rewrite String.eqb_refl.
    reflexivity.
Qed.
End SearchFacts.

Section SearchExamples.
Import PyStr Recipes.

(** C1, refuted as stated: a caption file with a header and one line of
    text has no timestamp line, and parsing it returns the empty cue
    sequence instead of failing. *)
Lemma headline_only_parses_to_no_cue :
  no_timestamp_line headline_only
  /\ parse_vtt_cues suffix_stemmer headline_only = [].
Proof.
  split; [|vm_compute; reflexivity].
  intros line Hin. vm_compute in Hin.
  repeat (destruct Hin as [<-|Hin]; [vm_compute; reflexivity|]).
  destruct Hin.
Qed.

Lemma timestamp_free_input_yields_no_cue_witness :
  parse_vtt_cues suffix_stemmer headline_only = []
  /\ (forall keywords fuzzy_threshold,
         search_vtt_for_keywords suffix_stemmer no_similarity no_similarity
                                 headline_only keywords fuzzy_threshold = [])
  /\ (forall webvtt_from_string,
         webvtt_from_string headline_only = Ok [] ->
         Extractor.parse_captions webvtt_from_string "vtt" headline_only
         = Ok ("", []))
  /\ (forall webvtt_from_string e,
         webvtt_from_string headline_only = Raise e ->
         Extractor.parse_captions webvtt_from_string "vtt" headline_only
         = Raise e).
Proof.
  apply (timestamp_free_input_yields_no_cue
           suffix_stemmer no_similarity no_similarity headline_only).
  intros line Hin. vm_compute in Hin.
  repeat (destruct Hin as [<-|Hin]; [vm_compute; reflexivity|]).
  destruct Hin.
Defined.

(** Two caption files: the keyword is mentioned at 10s and 11s in the
    first, at 10s and 14s in the second. *)
Lemma keyword_hits_deduplicated_within_three_seconds_witness :
  map timestamp_seconds
      (search_vtt_for_keywords suffix_stemmer no_similarity no_similarity
                               (two_mentions "11") ["Whisk"] 80) = [10]
  /\ map timestamp_seconds
         (search_vtt_for_keywords suffix_stemmer no_similarity no_similarity
                                  (two_mentions "14") ["Whisk"] 80) = [10; 14].
Proof.
  pose proof (keyword_hits_deduplicated_within_three_seconds
                suffix_stemmer no_similarity no_similarity)
    as (_ & _ & Hnear & Hfar).
  unfold search_vtt_for_keywords. split.
  - apply Hnear. vm_compute. reflexivity.
  - apply Hfar. vm_compute. reflexivity.
Defined.
End SearchExamples.

(** * Further properties of the caption deduplicator and the assembler *)

Section MoreExtractorFacts.
Import PyStr Extractor.

(** ** Size of the output *)

Lemma dedupe_loop_length (subs : list Caption) :
  forall previous_subtitle,
    (1 <= length (dedupe_loop previous_subtitle subs) <= S (length subs))%nat.
Proof.
  induction subs as [|subtitle rest IH]; intros previous_subtitle; cbn [dedupe_loop].
  - cbn. lia.
  - destruct (dedupe_step previous_subtitle subtitle) as [pending [yielded|]];
      specialize (IH pending); cbn [length]; lia.
Qed.

(** X1: the pass never returns more cues than it was given, and returns none
    only for an empty input. *)
Theorem dedupe_never_adds_cues (subs : list Caption) :
  (length (_dedupe_yt_captions subs) <= length subs)%nat
  /\ (_dedupe_yt_captions subs = [] <-> subs = []).
Proof.
  destruct subs as [|first rest]; cbn [_dedupe_yt_captions].
  - split; [cbn; lia|tauto].
  - pose proof (dedupe_loop_length rest first) as H. split; [cbn [length]; lia|].
    split; [|discriminate].
    intros E. rewrite E in H. cbn in H. lia.
Qed.

(** ** Blank cues *)

Lemma dedupe_step_blank (previous_subtitle subtitle : Caption) :
  strip (text subtitle) = "" ->
  dedupe_step previous_subtitle subtitle = (previous_subtitle, None).
Proof.
  intros E. unfold dedupe_step, trim_overlap. cbn [text set_text].
  rewrite E. reflexivity.
Qed.

Lemma dedupe_loop_blank (before after : list Caption) (blank : Caption) :
  strip (text blank) = "" ->
  forall previous_subtitle,
    dedupe_loop previous_subtitle (before ++ blank :: after)
    = dedupe_loop previous_subtitle (before ++ after).
Proof.
  intros E. induction before as [|c before IH]; intros previous_subtitle.
  - cbn [app dedupe_loop]. now rewrite (dedupe_step_blank _ _ E).
  - cbn [app dedupe_loop].
    destruct (dedupe_step previous_subtitle c) as [pending [yielded|]];
      now rewrite IH.
Qed.

(** X2: a cue after the first whose text is empty or only whitespace leaves
    no trace: the pass returns what it returns without that cue. *)
Theorem dedupe_ignores_blank_cues
        (first blank : Caption) (before after : list Caption) :
  strip (text blank) = "" ->
  _dedupe_yt_captions (first :: before ++ blank :: after)
  = _dedupe_yt_captions (first :: before ++ after).
Proof.
  intros E. cbn [_dedupe_yt_captions]. now apply dedupe_loop_blank.
Qed.

Lemma dedupe_ignores_blank_cues_witness :
  _dedupe_yt_captions
    (mkCaption 0 500 "the quick"
     :: [] ++ blank_cue :: [mkCaption 1000 2000 "brown fox jumps"])
  = _dedupe_yt_captions
      (mkCaption 0 500 "the quick"
       :: [] ++ [mkCaption 1000 2000 "brown fox jumps"]).
Proof.
  apply (dedupe_ignores_blank_cues
           (mkCaption 0 500 "the quick") blank_cue
           [] [mkCaption 1000 2000 "brown fox jumps"]).
  vm_compute. reflexivity.
Defined.

(** ** No overlap in the output *)

Lemma dedupe_step_gap (previous_subtitle subtitle : Caption) :
  well_timed subtitle ->
  0 <= start_time previous_subtitle < start_time subtitle ->
  forall pending yielded,
    dedupe_step previous_subtitle subtitle = (pending, Some yielded) ->
    end_time yielded < start_time pending.
Proof.
  unfold well_timed, dedupe_step. intros Hs Hlt pending yielded.
  pose proof (trim_overlap_times previous_subtitle subtitle) as Ht.
  destruct (trim_overlap previous_subtitle subtitle) as [p|s singleword];
    [discriminate|].
  destruct Ht as [Hst Hen].
  unfold fix_boundaries, pulled_back_end, _ts_to_secs.
  destruct (Z.leb_spec (start_time s) (end_time previous_subtitle));
    destruct (Z.leb_spec (end_time s) (start_time s));
    destruct singleword; intros E; try discriminate;
    injection E as <- <-; cbn; lia.
Qed.

Lemma dedupe_loop_disjoint (subs : list Caption) :
  forall previous_subtitle,
    well_timed previous_subtitle ->
    0 <= start_time previous_subtitle ->
    Forall well_timed subs ->
    StronglySorted Z.lt (map start_time (previous_subtitle :: subs)) ->
    disjoint (dedupe_loop previous_subtitle subs).
Proof.
  unfold disjoint.
  induction subs as [|subtitle rest IH];
    intros previous_subtitle Hp Hnn Hall Hsorted.
  - cbn. repeat constructor.
  - cbn [map] in Hsorted.
    apply StronglySorted_inv in Hsorted as [Hrest Hhead].
    apply Forall_cons_iff in Hhead as [Hlt Hhead].
    apply Forall_cons_iff in Hall as [Hs Hall].
    pose proof (dedupe_step_times previous_subtitle subtitle Hp Hs Hlt) as Hstep.
    pose proof (dedupe_step_gap previous_subtitle subtitle Hs (conj Hnn Hlt))
      as Hgap.
    cbn [dedupe_loop].
    destruct (dedupe_step previous_subtitle subtitle) as [pending yielded].
    destruct Hstep as (Hwp & Hrange & Hy).
    assert (Hsorted' : StronglySorted Z.lt (map start_time (pending :: rest))).
    { cbn [map]. apply StronglySorted_inv in Hrest as [Hrest1 Hrest2].
      constructor; [exact Hrest1|].
      eapply List.Forall_impl; [|exact Hrest2]. cbn. intros; lia. }
    assert (Hnn' : 0 <= start_time pending) by lia.
    specialize (IH pending Hwp Hnn' Hall Hsorted').
    destruct yielded as [y|]; [|exact IH].
    constructor; [exact IH|].
    specialize (Hgap pending y eq_refl).
    destruct (dedupe_loop_ordered rest pending Hwp Hall Hsorted') as [Hout _].
    eapply List.Forall_impl; [|exact Hout]. cbn. intros c [_ Hc]. lia.
Qed.

(** X3: for cues that do not start before 0, are not inverted and start at
    strictly increasing times, the cues the pass returns do not overlap:
    each ends before every later one starts. *)
Theorem dedupe_output_does_not_overlap (subs : list Caption) :
  Forall (fun c => 0 <= start_time c) subs ->
  Forall well_timed subs ->
  strictly_ordered subs ->
  disjoint (_dedupe_yt_captions subs).
Proof.
  intros Hnn Hall Hord. destruct subs as [|first rest]; [constructor|].
  cbn [_dedupe_yt_captions].
  apply Forall_cons_iff in Hnn as [Hnn _].
  apply Forall_cons_iff in Hall as [Hfirst Hall].
  unfold strictly_ordered in Hord.
  apply Sorted_StronglySorted in Hord; [|intros x y z; lia].
  now apply dedupe_loop_disjoint.
Qed.

Lemma dedupe_output_does_not_overlap_witness :
  disjoint (_dedupe_yt_captions merge_example).
Proof.
  apply (dedupe_output_does_not_overlap merge_example).
  - repeat constructor; cbn; lia.
  - repeat constructor; unfold well_timed; cbn; lia.
  - unfold strictly_ordered; cbn. repeat constructor.
Defined.

(** ** The plain text *)

Lemma re_split_spaces_nonempty (s : string) : re_split_spaces s <> [].
Proof.
  induction s as [|c s IH]; cbn [re_split_spaces]; [discriminate|].
  destruct (Ascii.eqb c " ").
  - destruct s as [|c' s']; [discriminate|].
    destruct (Ascii.eqb c' " "); [exact IH|discriminate].
  - destruct (re_split_spaces s); discriminate.
Qed.

Lemma join_cons_char (c : ascii) (w : string) (ws : list string) :
  join " " (String c w :: ws) = String c (join " " (w :: ws)).
Proof. destruct ws; reflexivity. Qed.

Lemma prefix_empty (s : string) : String.prefix "" s = true.
Proof. destruct s; reflexivity. Qed.

Lemma contains_double_space (c : ascii) (t : string) :
  contains "  " (String c t)
  = (Ascii.eqb c " " && starts_with_space t) || contains "  " t.
Proof.
  cbn [contains String.prefix]. f_equal.
  destruct (ascii_dec " " c) as [<-|Hne].
  - cbn [Ascii.eqb Bool.eqb andb]. destruct t as [|c' t']; [reflexivity|].
    cbn [starts_with_space String.prefix].
    destruct (ascii_dec " " c') as [<-|Hne'].
    + now rewrite prefix_empty.
    + destruct (Ascii.eqb_spec c' " "); [congruence|reflexivity].
  - destruct (Ascii.eqb_spec c " "); [congruence|reflexivity].
Qed.

(** Joining what [re.split] returns leaves single spaces only, and a
    leading space exactly where the text had one. *)
Lemma collapse_spaces (s : string) :
  contains "  " (join " " (re_split_spaces s)) = false
  /\ starts_with_space (join " " (re_split_spaces s)) = starts_with_space s.
Proof.
  induction s as [|c s IH]; [split; reflexivity|].
  destruct IH as [IHc IHs]. cbn [re_split_spaces].
  destruct (Ascii.eqb_spec c " ") as [->|Hc].
  - destruct s as [|c' s']; [split; reflexivity|].
    destruct (Ascii.eqb_spec c' " ") as [->|Hc'].
    + split; [exact IHc|]. rewrite IHs. reflexivity.
    + pose proof (re_split_spaces_nonempty (String c' s')) as Hne.
      destruct (re_split_spaces (String c' s')) as [|w ws] eqn:E; [contradiction|].
      change (join " " ("" :: w :: ws))
        with (String " " (join " " (w :: ws))).
      rewrite contains_double_space, IHc, IHs. cbn [starts_with_space].
      destruct (Ascii.eqb_spec c' " "); [contradiction|]. split; reflexivity.
  - pose proof (re_split_spaces_nonempty s) as Hne.
    destruct (re_split_spaces s) as [|w ws] eqn:E; [contradiction|].
    rewrite join_cons_char, contains_double_space, IHc.
    cbn [starts_with_space].
    destruct (Ascii.eqb_spec c " "); [contradiction|]. split; reflexivity.
Qed.

(** X4: whatever the captions, the plain text that [parse_captions] returns
    never holds two spaces in a row. *)
Theorem plain_text_has_single_spaces
        (webvtt_from_string : string -> result (list Caption))
        (ext content plain_text : string) (segments : list Segment) :
  parse_captions webvtt_from_string ext content = Ok (plain_text, segments) ->
  contains "  " plain_text = false.
Proof.
  unfold parse_captions. destruct (negb (String.eqb ext "vtt")); [discriminate|].
  destruct (webvtt_from_string content) as [e|captions]; [discriminate|].
  cbn [rbind].
  destruct (assemble_loop None (_dedupe_yt_captions captions) "" [])
    as [result segs].
  intros E. injection E as <- _. apply collapse_spaces.
Qed.

Lemma plain_text_has_single_spaces_witness :
  contains "  " "the quick the quick brown fox" = false.
Proof.
  apply (plain_text_has_single_spaces
           (library_reads merge_example_vtt merge_example)
           "vtt" merge_example_vtt "the quick the quick brown fox"
           [ mkSegment 0 399 "the quick";
             mkSegment 400 1200 "the quick brown fox" ]).
  vm_compute. reflexivity.
Defined.

(** ** The segments *)

Lemma contains_char (c : ascii) (s : string) :
  contains (String c "") s = mentions c s.
Proof.
  induction s as [|c' s IH]; [reflexivity|].
  cbn [contains mentions String.prefix]. rewrite IH. f_equal.
  destruct (ascii_dec c c') as [->|Hne].
  - now rewrite Ascii.eqb_refl, prefix_empty.
  - destruct (Ascii.eqb_spec c' c); [congruence|reflexivity].
Qed.

Lemma mentions_lstrip (c : ascii) (s : string) :
  mentions c s = false -> mentions c (lstrip s) = false.
Proof.
  induction s as [|c' s IH]; [reflexivity|]. cbn [lstrip].
  destruct (is_space c'); [|exact id].
  cbn [mentions]. intros H. apply orb_false_iff in H as [_ H]. now apply IH.
Qed.

Lemma mentions_rstrip (c : ascii) (s : string) :
  mentions c s = false -> mentions c (rstrip s) = false.
Proof.
  induction s as [|c' s IH]; [reflexivity|]. cbn [rstrip mentions].
  intros H. apply orb_false_iff in H as [Hc H].
  destruct (is_space c' && String.eqb (rstrip s) ""); [reflexivity|].
  cbn [mentions]. rewrite Hc. now apply IH.
Qed.

Lemma mentions_replaced (s : string) :
  mentions newline (replace_char newline " " s) = false.
Proof.
  induction s as [|c s IH]; [reflexivity|]. cbn [replace_char].
  destruct (Ascii.eqb_spec c newline) as [->|Hc].
  - cbn. exact IH.
  - cbn [mentions]. rewrite IH.
    destruct (Ascii.eqb_spec c newline); [contradiction|reflexivity].
Qed.

Lemma rstrip_idempotent (s : string) : rstrip (rstrip s) = rstrip s.
Proof.
  induction s as [|c s IH]; [reflexivity|]. cbn [rstrip].
  destruct (is_space c && String.eqb (rstrip s) "") eqn:E; [reflexivity|].
  cbn [rstrip]. rewrite IH, E. reflexivity.
Qed.

Lemma rstrip_keeps_head (s : string) :
  starts_with_space s = false ->
  match s with
  | String c _ => is_space c = false
  | EmptyString => True
  end ->
  lstrip (rstrip s) = rstrip s.
Proof.
  destruct s as [|c s]; [reflexivity|]. intros _ Hc. cbn [rstrip].
  rewrite Hc. cbn [andb lstrip]. now rewrite Hc.
Qed.

Lemma lstrip_head (s : string) :
  match lstrip s with
  | String c _ => is_space c = false
  | EmptyString => True
  end.
Proof.
  induction s as [|c s IH]; [exact I|]. cbn [lstrip].
  destruct (is_space c) eqn:E; [exact IH|exact E].
Qed.

Lemma strip_idempotent (s : string) : strip (strip s) = strip s.
Proof.
  unfold strip. pose proof (lstrip_head s) as H.
  destruct (lstrip s) as [|c t] eqn:E; [reflexivity|].
  assert (Hl : lstrip (rstrip (String c t)) = rstrip (String c t)).
  { cbn [rstrip]. rewrite H. cbn [andb lstrip]. now rewrite H. }
  rewrite Hl. apply rstrip_idempotent.
Qed.

(** X5: [parse_captions] returns one segment per deduplicated cue, in order
    and with the cue's times, so never more segments than captions; the
    text of a segment holds no line break and no whitespace at either
    end. *)
Theorem segments_follow_deduplicated_cues
        (webvtt_from_string : string -> result (list Caption))
        (content plain_text : string) (captions : list Caption)
        (segments : list Segment) :
  webvtt_from_string content = Ok captions ->
  parse_captions webvtt_from_string "vtt" content = Ok (plain_text, segments) ->
  map (fun s => (startTime s, endTime s)) segments
  = map (fun c => (start_time c, end_time c)) (_dedupe_yt_captions captions)
  /\ (length segments <= length captions)%nat
  /\ Forall (fun s => contains nl (seg_text s) = false
                      /\ strip (seg_text s) = seg_text s) segments.
Proof.
  intros Hf. unfold parse_captions.
  replace (String.eqb "vtt" "vtt") with true by reflexivity. cbn [negb].
  rewrite Hf. cbn [rbind Ok].
  pose proof (assemble_loop_segments (_dedupe_yt_captions captions) None "" [])
    as Hsegs.
  destruct (assemble_loop None (_dedupe_yt_captions captions) "" [])
    as [result segs].
  cbn [snd app] in Hsegs. intros E. injection E as _ <-. subst segs.
  split; [|split].
  - rewrite map_map. reflexivity.
  - rewrite length_map. apply dedupe_never_adds_cues.
  - apply Forall_map, Forall_forall. intros c _. cbn [segment_of seg_text].
    split; [|apply strip_idempotent].
    unfold nl. rewrite contains_char. unfold strip.
    apply mentions_rstrip, mentions_lstrip, mentions_replaced.
Qed.

Lemma segments_follow_deduplicated_cues_witness :
  map (fun s => (startTime s, endTime s))
      [ mkSegment 0 399 "the quick"; mkSegment 400 1200 "the quick brown fox" ]
  = map (fun c => (start_time c, end_time c)) (_dedupe_yt_captions merge_example)
  /\ (length [ mkSegment 0 399 "the quick";
               mkSegment 400 1200 "the quick brown fox" ]
      <= length merge_example)%nat
  /\ Forall (fun s => contains nl (seg_text s) = false
                      /\ strip (seg_text s) = seg_text s)
            [ mkSegment 0 399 "the quick";
              mkSegment 400 1200 "the quick brown fox" ].
Proof.
  apply (segments_follow_deduplicated_cues
           (library_reads merge_example_vtt merge_example)
           merge_example_vtt "the quick the quick brown fox" merge_example).
  - reflexivity.
  - vm_compute. reflexivity.
Defined.
End MoreExtractorFacts.

(** * Further properties of the keyword matcher *)

Section MoreSearchFacts.
Import PyStr Recipes.

Variable stemWord : string -> string.
Variables fuzz_ratio fuzz_partial_ratio : string -> string -> Q.

(** ** Where a match comes from *)

Lemma insert_by_In {A} (key : A -> Z) (x y : A) (l : list A) :
  In y (insert_by key x l) <-> y = x \/ In y l.
Proof.
  induction l as [|z l IH]; cbn [insert_by].
  - cbn. intuition.
  - destruct (key x <=? key z); cbn [In]; [intuition|].
    rewrite IH. cbn [In]. intuition.
Qed.

Lemma sort_by_In {A} (key : A -> Z) (y : A) (l : list A) :
  In y (sort_by key l) <-> In y l.
Proof.
  induction l as [|x l IH]; cbn [sort_by]; [reflexivity|].
  rewrite insert_by_In, IH. cbn [In]. intuition.
Qed.

Lemma temporal_dedup_In (m : Match) (hits : list Match) :
  forall retained,
    In m (temporal_dedup retained hits) -> In m retained \/ In m hits.
Proof.
  induction hits as [|h hits IH]; intros retained Hin; cbn [temporal_dedup] in Hin.
  - now left.
  - destruct (existsb (within_window h) retained).
    + destruct (IH _ Hin); [now left|right; now right].
    + destruct (IH _ Hin) as [H|H]; [|right; now right].
      apply in_app_or in H as [H|[<-|[]]]; [now left|right; now left].
Qed.

Lemma raw_hits_In (cues : list Cue) (fuzzy_threshold : Z) (m : Match)
      (keywords : list string) :
  In m (raw_hits stemWord fuzz_ratio fuzz_partial_ratio
                 cues fuzzy_threshold keywords) ->
  In (keyword m) keywords
  /\ (lower (keyword m) ∉ STOPWORDS)
  /\ exists (i : nat) cue,
      cues !! i = Some cue
      /\ found_in fuzz_ratio fuzz_partial_ratio
                  (stem_keyword stemWord (keyword m)) fuzzy_threshold cue = true
      /\ m = mkMatch (keyword m) (timestamp_of cue)
                     (build_context cues i cue (keyword m)).
Proof using Type.
  unfold raw_hits. intros Hin. apply in_flat_map in Hin as (kw & Hkw & Hin).
  destruct (bool_decide (lower kw ∈ STOPWORDS)) eqn:Hstop; [destruct Hin|].
  apply bool_decide_eq_false in Hstop.
  unfold raw_hits_of in Hin. apply in_flat_map in Hin as ([i cue] & Hic & Hin).
  destruct (found_in _ _ _ _ cue) eqn:Hfound; [|destruct Hin].
  destruct Hin as [<-|[]]. cbn [keyword].
  split; [exact Hkw|]. split; [exact Hstop|].
  exists i, cue. apply enumerate_from_lookup in Hic as [_ Hic].
  rewrite Nat.sub_0_r in Hic. auto.
Qed.

Lemma search_cues_In (cues : list Cue) (keywords : list string)
      (fuzzy_threshold : Z) (m : Match) :
  In m (search_cues stemWord fuzz_ratio fuzz_partial_ratio
                    cues keywords fuzzy_threshold) ->
  In m (raw_hits stemWord fuzz_ratio fuzz_partial_ratio
                 cues fuzzy_threshold keywords).
Proof using Type.
  rewrite search_cues_refines, sort_by_In.
  intros Hin. now apply temporal_dedup_In in Hin as [[]|Hin].
Qed.

(** X6: every match returned names one of the given keywords, never a
    stopword, and stands for a cue of the transcript in which that keyword
    was found: it carries the cue's start in whole seconds and the context
    built around that cue. *)
Theorem every_match_comes_from_a_cue
        (vtt_content : string) (keywords : list string)
        (fuzzy_threshold : Z) (m : Match) :
  In m (search_vtt_for_keywords stemWord fuzz_ratio fuzz_partial_ratio
                                vtt_content keywords fuzzy_threshold) ->
  In (keyword m) keywords
  /\ (lower (keyword m) ∉ STOPWORDS)
  /\ exists (i : nat) cue,
      parse_vtt_cues stemWord vtt_content !! i = Some cue
      /\ found_in fuzz_ratio fuzz_partial_ratio
                  (stem_keyword stemWord (keyword m)) fuzzy_threshold cue = true
      /\ timestamp_seconds m = timestamp_of cue
      /\ context m
         = build_context (parse_vtt_cues stemWord vtt_content) i cue (keyword m).
Proof using Type.
  unfold search_vtt_for_keywords. intros Hin.
  apply search_cues_In, raw_hits_In in Hin
    as (Hk & Hs & i & cue & Hi & Hf & Hm).
  split; [exact Hk|]. split; [exact Hs|].
  exists i, cue. split; [exact Hi|]. split; [exact Hf|].
  rewrite Hm. cbn. auto.
Qed.

(** ** Order and spacing of the matches *)

(** X7: the matches are returned in ascending order of timestamp. *)
Theorem matches_sorted_by_timestamp
        (vtt_content : string) (keywords : list string) (fuzzy_threshold : Z) :
  StronglySorted Z.le
    (map timestamp_seconds
         (search_vtt_for_keywords stemWord fuzz_ratio fuzz_partial_ratio
                                  vtt_content keywords fuzzy_threshold)).
Proof using Type.
  unfold search_vtt_for_keywords, search_cues. apply sort_by_sorted.
Qed.

Lemma apart_sym (a b : Match) : apart a b -> apart b a.
Proof. unfold apart. intros H E. symmetry in E. specialize (H E). lia. Qed.

Lemma strongly_sorted_snoc {A} (R : A -> A -> Prop) (l : list A) (x : A) :
  StronglySorted R l ->
  Forall (fun a => R a x) l ->
  StronglySorted R (l ++ [x]).
Proof.
  induction 1 as [|a l Hl IH Ha]; intros Hx; cbn [app].
  - repeat constructor.
  - apply Forall_cons_iff in Hx as [Hax Hx].
    constructor; [now apply IH|].
    apply Forall_app. split; [exact Ha|now constructor].
Qed.

Lemma temporal_dedup_apart (hits : list Match) :
  forall retained,
    StronglySorted apart retained ->
    StronglySorted apart (temporal_dedup retained hits).
Proof.
  induction hits as [|h hits IH]; intros retained Hr; cbn [temporal_dedup];
    [exact Hr|].
  destruct (existsb (within_window h) retained) eqn:E; [now apply IH|].
  apply IH, strongly_sorted_snoc; [exact Hr|].
  apply Forall_forall. intros m Hm Hk.
  assert (Hw : within_window h m = false).
  { destruct (within_window h m) eqn:Hw; [|reflexivity].
    rewrite <- E. symmetry. apply existsb_exists. exists m.
    split; [now apply list_elem_of_In|exact Hw]. }
  unfold within_window in Hw. rewrite Hk, String.eqb_refl in Hw.
  cbn [andb] in Hw. apply Z.leb_gt in Hw. exact Hw.
Qed.

Lemma insert_by_apart (x : Match) (l : list Match) :
  StronglySorted apart l ->
  Forall (apart x) l ->
  StronglySorted apart (insert_by timestamp_seconds x l).
Proof.
  induction 1 as [|y l Hl IH Hy]; intros Hx; cbn [insert_by].
  - repeat constructor.
  - apply Forall_cons_iff in Hx as [Hxy Hx].
    destruct (timestamp_seconds x <=? timestamp_seconds y).
    + constructor; [now constructor|now constructor].
    + constructor; [now apply IH|].
      apply insert_by_Forall; [now apply apart_sym|exact Hy].
Qed.

Lemma sort_by_apart (l : list Match) :
  StronglySorted apart l ->
  StronglySorted apart (sort_by timestamp_seconds l).
Proof.
  induction 1 as [|x l Hl IH Hx]; cbn [sort_by]; [constructor|].
  apply insert_by_apart; [exact IH|]. now apply sort_by_Forall.
Qed.

Lemma strongly_sorted_lookup {A} (R : A -> A -> Prop) (l : list A) :
  StronglySorted R l ->
  forall (i j : nat) a b,
    (i < j)%nat -> l !! i = Some a -> l !! j = Some b -> R a b.
Proof.
  induction 1 as [|x l Hl IH Hx]; intros i j a b Hij Hi Hj; [discriminate|].
  destruct j as [|j]; [lia|]. cbn in Hj.
  destruct i as [|i]; cbn in Hi.
  - injection Hi as <-. rewrite Forall_forall in Hx. apply Hx.
    eapply list_elem_of_lookup_2. exact Hj.
  - apply (IH i j); [lia|assumption|assumption].
Qed.

(** X8: any two of the matches returned that name the same keyword, letter
    case aside, have timestamps more than three seconds apart. *)
Theorem matches_of_a_keyword_are_spaced
        (vtt_content : string) (keywords : list string) (fuzzy_threshold : Z)
        (i j : nat) (a b : Match) :
  (i < j)%nat ->
  search_vtt_for_keywords stemWord fuzz_ratio fuzz_partial_ratio
                          vtt_content keywords fuzzy_threshold !! i = Some a ->
  search_vtt_for_keywords stemWord fuzz_ratio fuzz_partial_ratio
                          vtt_content keywords fuzzy_threshold !! j = Some b ->
  lower (keyword a) = lower (keyword b) ->
  3 < Z.abs (timestamp_seconds b - timestamp_seconds a).
Proof using Type.
  unfold search_vtt_for_keywords. rewrite search_cues_refines.
  intros Hij Hi Hj.
  apply (strongly_sorted_lookup apart _
           (sort_by_apart _ (temporal_dedup_apart _ [] (SSorted_nil _)))
           i j a b Hij Hi Hj).
Qed.

(** ** Length of the context *)

Lemma string_length_app (a b : string) :
  String.length (a +:+ b) = (String.length a + String.length b)%nat.
Proof.
  induction a as [|c a IH]; [reflexivity|].
  change (String c a +:+ b) with (String c (a +:+ b)).
  cbn [String.length]. now rewrite IH.
Qed.

Lemma substring_length_le (s : string) :
  forall n m, (String.length (String.substring n m s) <= m)%nat.
Proof.
  induction s as [|c s IH]; intros [|n] [|m]; cbn; try lia.
  - specialize (IH 0%nat m). lia.
  - apply (IH n 0%nat).
  - apply (IH n (S m)).
Qed.

Lemma build_context_length (cues : list Cue) (i : nat) (cue : Cue)
      (keyword : string) :
  (String.length (build_context cues i cue keyword)
   <= Nat.max 103 (String.length keyword + 86))%nat.
Proof.
  unfold build_context.
  match goal with |- context [join " " ?parts] => generalize (join " " parts) end.
  intros context.
  destruct (Nat.ltb_spec 100 (String.length context)); [|lia].
  destruct (find (lower keyword) (lower context)) as [idx|].
  - rewrite !string_length_app. unfold slice.
    match goal with
    | |- context [String.length (String.substring ?a ?n context)] =>
        pose proof (substring_length_le context a n)
    end.
    repeat match goal with
           | |- context [if ?b then "..." else ""] => destruct b
           end; cbn [String.length]; lia.
  - rewrite string_length_app. unfold slice.
    pose proof (substring_length_le context 0 (100 - 0)). cbn [String.length]. lia.
Qed.

(** X9: the context of a match is never longer than 103 characters, or than
    the keyword plus 86 characters when that is more. *)
Theorem match_context_is_bounded
        (vtt_content : string) (keywords : list string)
        (fuzzy_threshold : Z) (m : Match) :
  In m (search_vtt_for_keywords stemWord fuzz_ratio fuzz_partial_ratio
                                vtt_content keywords fuzzy_threshold) ->
  (String.length (context m)
   <= Nat.max 103 (String.length (keyword m) + 86))%nat.
Proof using Type.
  unfold search_vtt_for_keywords. intros Hin.
  apply search_cues_In, raw_hits_In in Hin as (_ & _ & i & cue & _ & _ & Hm).
  rewrite Hm. cbn [context keyword]. apply build_context_length.
Qed.

(** ** A keyword given twice *)

Lemma extends_refl (st : SearchState) : extends st st.
Proof. intros k. split; [exact id|]. exists []. now rewrite app_nil_r. Qed.

Lemma extends_trans (st1 st2 st3 : SearchState) :
  extends st1 st2 -> extends st2 st3 -> extends st1 st3.
Proof.
  intros H12 H23 k. destruct (H12 k) as [Hs12 [e12 He12]].
  destruct (H23 k) as [Hs23 [e23 He23]]. split; [auto|].
  exists (e12 ++ e23). rewrite He23, He12. now rewrite app_assoc.
Qed.

Lemma cue_step_extends (cues : list Cue) (keyword : string)
      (fuzzy_threshold : Z) (st : SearchState) (ic : nat * Cue) :
  extends st (cue_step stemWord fuzz_ratio fuzz_partial_ratio
                       cues keyword fuzzy_threshold st ic).
Proof using Type.
  unfold cue_step. destruct ic as [i cue].
  destruct (found_in _ _ _ _ cue); [|apply extends_refl].
  destruct (is_duplicate _ _); [apply extends_refl|].
  intros k. cbn [seen_timestamps]. unfold seen_for.
  destruct (String.eqb_spec (lower keyword) k) as [<-|Hne].
  - rewrite lookup_insert_eq. split; [eauto|]. cbn. eauto.
  - rewrite lookup_insert_ne by exact Hne. split; [exact id|].
    exists []. now rewrite app_nil_r.
Qed.

Lemma fold_left_extends {A} (f : SearchState -> A -> SearchState) (l : list A) :
  (forall st x, extends st (f st x)) ->
  forall st, extends st (fold_left f l st).
Proof.
  intros Hf. induction l as [|x l IH]; intros st; [apply extends_refl|].
  cbn [fold_left]. eapply extends_trans; [apply Hf|apply IH].
Qed.

Lemma keyword_step_extends (cues : list Cue) (fuzzy_threshold : Z)
      (st : SearchState) (keyword : string) :
  extends st (keyword_step stemWord fuzz_ratio fuzz_partial_ratio
                           cues fuzzy_threshold st keyword).
Proof using Type.
  unfold keyword_step. destruct (bool_decide _); [apply extends_refl|].
  eapply extends_trans; [|apply fold_left_extends; intros; apply cue_step_extends].
  destruct (seen_timestamps st !! lower keyword) eqn:E; [apply extends_refl|].
  intros k. cbn [seen_timestamps]. unfold seen_for.
  destruct (String.eqb_spec (lower keyword) k) as [<-|Hne].
  - rewrite lookup_insert_eq, E. split; [eauto|]. exists []. reflexivity.
  - rewrite lookup_insert_ne by exact Hne. split; [exact id|].
    exists []. now rewrite app_nil_r.
Qed.

Lemma is_duplicate_app (timestamp : Z) (seen extra : list Z) :
  is_duplicate timestamp seen = true ->
  is_duplicate timestamp (seen ++ extra) = true.
Proof.
  unfold is_duplicate. rewrite existsb_app. intros ->. reflexivity.
Qed.

Lemma is_duplicate_extends (st st' : SearchState) (timestamp : Z) (k : string) :
  extends st st' ->
  is_duplicate timestamp (seen_for (seen_timestamps st) k) = true ->
  is_duplicate timestamp (seen_for (seen_timestamps st') k) = true.
Proof.
  intros He H. destruct (He k) as [_ [extra ->]]. now apply is_duplicate_app.
Qed.

Lemma cue_step_covers (cues : list Cue) (keyword : string)
      (fuzzy_threshold : Z) (st : SearchState) (i : nat) (cue : Cue) :
  found_in fuzz_ratio fuzz_partial_ratio
           (stem_keyword stemWord keyword) fuzzy_threshold cue = true ->
  is_duplicate
    (timestamp_of cue)
    (seen_for (seen_timestamps
                 (cue_step stemWord fuzz_ratio fuzz_partial_ratio
                           cues keyword fuzzy_threshold st (i, cue)))
              (lower keyword)) = true.
Proof using Type.
  intros Hfound. unfold cue_step. rewrite Hfound.
  destruct (is_duplicate (timestamp_of cue)
                         (seen_for (seen_timestamps st) (lower keyword)))
    eqn:E; [exact E|].
  cbn [seen_timestamps]. unfold seen_for at 1. rewrite lookup_insert_eq.
  cbn [from_option id]. unfold is_duplicate. rewrite existsb_app.
  cbn [existsb]. rewrite Z.sub_diag. cbn. now rewrite orb_true_r.
Qed.

Lemma cue_loop_covers (cues : list Cue) (keyword : string)
      (fuzzy_threshold : Z) (ics : list (nat * Cue)) :
  forall st i cue,
    In (i, cue) ics ->
    found_in fuzz_ratio fuzz_partial_ratio
             (stem_keyword stemWord keyword) fuzzy_threshold cue = true ->
    is_duplicate
      (timestamp_of cue)
      (seen_for (seen_timestamps
                   (fold_left (cue_step stemWord fuzz_ratio fuzz_partial_ratio
                                        cues keyword fuzzy_threshold) ics st))
                (lower keyword)) = true.
Proof using Type.
  induction ics as [|ic ics IH]; intros st i cue Hin Hfound; [destruct Hin|].
  cbn [fold_left]. destruct Hin as [->|Hin]; [|now apply (IH _ i)].
  eapply is_duplicate_extends;
    [apply fold_left_extends; intros; apply cue_step_extends|].
  now apply cue_step_covers.
Qed.

Lemma enumerate_from_In {A} (x : A) (l : list A) :
  In x l -> forall start, exists i, In (i, x) (enumerate_from start l).
Proof.
  induction l as [|y l IH]; intros Hin start; [destruct Hin|].
  destruct Hin as [->|Hin].
  - exists start. now left.
  - destruct (IH Hin (S start)) as [i Hi]. exists i. now right.
Qed.

Lemma keyword_step_covers (cues : list Cue) (fuzzy_threshold : Z)
      (st : SearchState) (keyword : string) :
  bool_decide (lower keyword ∈ STOPWORDS) = false ->
  covered stemWord fuzz_ratio fuzz_partial_ratio cues fuzzy_threshold keyword
          (keyword_step stemWord fuzz_ratio fuzz_partial_ratio
                        cues fuzzy_threshold st keyword)
  /\ is_Some (seen_timestamps
                (keyword_step stemWord fuzz_ratio fuzz_partial_ratio
                              cues fuzzy_threshold st keyword)
              !! lower keyword).
Proof using Type.
  intros Hstop. unfold keyword_step. rewrite Hstop. split.
  - intros cue Hin Hfound.
    destruct (enumerate_from_In cue cues Hin 0) as [i Hi].
    now apply (cue_loop_covers cues keyword fuzzy_threshold _ _ i).
  - match goal with
    | |- is_Some (seen_timestamps (fold_left ?f ?l ?st0) !! _) =>
        destruct (fold_left_extends f l
                    (fun st x => cue_step_extends cues keyword fuzzy_threshold st x)
                    st0 (lower keyword)) as [Hk _]
    end.
    apply Hk. destruct (seen_timestamps st !! lower keyword) eqn:E.
    + rewrite E. eauto.
    + cbn [seen_timestamps]. rewrite lookup_insert_eq. eauto.
Qed.

Lemma fold_left_fixed {A S} (f : S -> A -> S) (l : list A) (st : S) :
  (forall x, In x l -> f st x = st) -> fold_left f l st = st.
Proof.
  induction l as [|x l IH]; intros Hf; [reflexivity|].
  cbn [fold_left]. rewrite (Hf x (or_introl eq_refl)).
  apply IH. intros y Hy. apply Hf. now right.
Qed.

Lemma keyword_step_repeated (cues : list Cue) (fuzzy_threshold : Z)
      (st : SearchState) (keyword keyword' : string) :
  lower keyword' = lower keyword ->
  covered stemWord fuzz_ratio fuzz_partial_ratio cues fuzzy_threshold keyword st ->
  is_Some (seen_timestamps st !! lower keyword) ->
  keyword_step stemWord fuzz_ratio fuzz_partial_ratio
               cues fuzzy_threshold st keyword' = st.
Proof using Type.
  intros Hlow Hcov [seen Hseen]. unfold keyword_step.
  destruct (bool_decide _); [reflexivity|].
  rewrite Hlow, Hseen. apply fold_left_fixed. intros [i cue] Hin.
  unfold cue_step.
  assert (Hstem : stem_keyword stemWord keyword' = stem_keyword stemWord keyword)
    by (unfold stem_keyword; now rewrite Hlow).
  rewrite Hstem, Hlow.
  destruct (found_in _ _ _ _ cue) eqn:Hfound; [|reflexivity].
  rewrite Hcov; [reflexivity| |exact Hfound].
  apply enumerate_from_lookup in Hin as [_ Hin].
  apply list_elem_of_In. eapply list_elem_of_lookup_2. exact Hin.
Qed.

Lemma search_cues_repeated (cues : list Cue) (fuzzy_threshold : Z)
      (before middle after : list string) (keyword keyword' : string) :
  lower keyword' = lower keyword ->
  search_cues stemWord fuzz_ratio fuzz_partial_ratio cues
              (before ++ keyword :: middle ++ keyword' :: after) fuzzy_threshold
  = search_cues stemWord fuzz_ratio fuzz_partial_ratio cues
                (before ++ keyword :: middle ++ after) fuzzy_threshold.
Proof using Type.
  intros Hlow. unfold search_cues. do 2 f_equal.
  rewrite !fold_left_app. cbn [fold_left]. rewrite !fold_left_app.
  cbn [fold_left]. f_equal.
  set (st0 := fold_left _ before _).
  set (step := keyword_step stemWord fuzz_ratio fuzz_partial_ratio
                            cues fuzzy_threshold).
  destruct (bool_decide (lower keyword ∈ STOPWORDS)) eqn:Hstop.
  - subst step. unfold keyword_step at 1. now rewrite Hlow, Hstop.
  - destruct (keyword_step_covers cues fuzzy_threshold st0 keyword Hstop)
      as [Hcov Hsome].
    fold step in Hcov, Hsome.
    assert (Hext : extends (step st0 keyword)
                           (fold_left step middle (step st0 keyword)))
      by (apply fold_left_extends; intros; apply keyword_step_extends).
    apply keyword_step_repeated with (keyword := keyword); [exact Hlow| |].
    + intros cue Hin Hfound. eapply is_duplicate_extends; [exact Hext|].
      now apply Hcov.
    + now apply (Hext (lower keyword)).
Qed.

(** X10: a keyword that occurs again later in the keyword list, in any letter
    case, adds nothing: the search returns what it returns without the
    repetition. *)
Theorem repeated_keyword_adds_nothing
        (vtt_content : string) (fuzzy_threshold : Z)
        (before middle after : list string) (keyword keyword' : string) :
  lower keyword' = lower keyword ->
  search_vtt_for_keywords stemWord fuzz_ratio fuzz_partial_ratio vtt_content
                          (before ++ keyword :: middle ++ keyword' :: after)
                          fuzzy_threshold
  = search_vtt_for_keywords stemWord fuzz_ratio fuzz_partial_ratio vtt_content
                            (before ++ keyword :: middle ++ after)
                            fuzzy_threshold.
Proof using Type.
  intros Hlow. unfold search_vtt_for_keywords. now apply search_cues_repeated.
Qed.
End MoreSearchFacts.

Section MoreSearchExamples.
Import PyStr Recipes.

Lemma every_match_comes_from_a_cue_witness :
  In "Whisk" ["Whisk"]
  /\ ("whisk" ∉ STOPWORDS)
  /\ exists (i : nat) cue,
      parse_vtt_cues suffix_stemmer (two_mentions "11") !! i = Some cue
      /\ found_in no_similarity no_similarity
                  (stem_keyword suffix_stemmer "Whisk") 80 cue = true
      /\ 10 = timestamp_of cue
      /\ "whisk the eggs keep whisking"
         = build_context (parse_vtt_cues suffix_stemmer (two_mentions "11"))
                         i cue "Whisk".
Proof.
  apply (every_match_comes_from_a_cue
           suffix_stemmer no_similarity no_similarity
           (two_mentions "11") ["Whisk"] 80
           (mkMatch "Whisk" 10 "whisk the eggs keep whisking")).
  vm_compute. now left.
Defined.

Lemma matches_of_a_keyword_are_spaced_witness :
  search_vtt_for_keywords suffix_stemmer no_similarity no_similarity
                          (two_mentions "14") ["Whisk"] 80 !! 1%nat
  = Some (mkMatch "Whisk" 14 "whisk the eggs keep whisking")
  /\ 3 < Z.abs (14 - 10).
Proof.
  split; [vm_compute; reflexivity|].
  apply (matches_of_a_keyword_are_spaced
           suffix_stemmer no_similarity no_similarity
           (two_mentions "14") ["Whisk"] 80 0 1
           (mkMatch "Whisk" 10 "whisk the eggs keep whisking")
           (mkMatch "Whisk" 14 "whisk the eggs keep whisking")).
  - lia.
  - vm_compute. reflexivity.
  - vm_compute. reflexivity.
  - reflexivity.
Defined.

Lemma match_context_is_bounded_witness :
  (String.length "whisk the eggs keep whisking"
   <= Nat.max 103 (String.length "Whisk" + 86))%nat.
Proof.
  apply (match_context_is_bounded
           suffix_stemmer no_similarity no_similarity
           (two_mentions "11") ["Whisk"] 80
           (mkMatch "Whisk" 10 "whisk the eggs keep whisking")).
  vm_compute. now left.
Defined.

Lemma repeated_keyword_adds_nothing_witness :
  search_vtt_for_keywords suffix_stemmer no_similarity no_similarity
                          (two_mentions "14")
                          ([] ++ "Whisk" :: ["eggs"] ++ "whisk" :: []) 80
  = search_vtt_for_keywords suffix_stemmer no_similarity no_similarity
                            (two_mentions "14")
                            ([] ++ "Whisk" :: ["eggs"] ++ []) 80.
Proof.
  apply (repeated_keyword_adds_nothing
           suffix_stemmer no_similarity no_similarity
           (two_mentions "14") 80 [] ["eggs"] [] "Whisk" "whisk").
  reflexivity.
Defined.
End MoreSearchExamples.

(** * Further properties of the step timer *)

Section MoreStepTimerFacts.
Import PyStr Recipes.

Variable float_interpolate : Z -> Z -> Z -> Z -> Z.

(** With no step the timer returns at once, whatever the duration: no
    division by the number of steps is attempted. *)
Theorem no_steps_no_windows (video_duration : Z) :
  predict_step_times float_interpolate [] video_duration = Ok [].
Proof using Type.
  unfold predict_step_times, second_pass, floordiv. cbn.
  reflexivity.
Qed.

(** ** What the timer leaves alone *)

Lemma same_step_refl (a : Instruction) : same_step a a.
Proof. repeat split. Qed.

Lemma same_step_trans (a b c : Instruction) :
  same_step a b -> same_step b c -> same_step a c.
Proof. unfold same_step. intuition congruence. Qed.

Lemma same_step_key (a b : Instruction) :
  same_step a b -> step_key a = step_key b.
Proof. unfold step_key. intros [-> _]. reflexivity. Qed.

Lemma fill_raw_start_same (video_duration : Z) (n : nat)
      (known : list (nat * Z)) (i : nat) (inst inst' : Instruction) :
  fill_raw_start float_interpolate video_duration n known (i, inst) = Ok inst' ->
  same_step inst' inst.
Proof using Type.
  unfold fill_raw_start, get_raw_start, floordiv.
  destruct (_raw_start inst) as [[t|]|]; cbn [rbind Ok Raise];
    [intros E; injection E as <-; apply same_step_refl| |discriminate].
  destruct (find_known i known None) as [[[pi pt]|] [[ni nt]|]].
  - destruct (_ =? 0); [discriminate|].
    intros E; injection E as <-. repeat split.
  - destruct (Z.of_nat n =? 0); [discriminate|]. cbn [rbind Ok].
    intros E; injection E as <-. repeat split.
  - destruct (Z.of_nat n =? 0); [discriminate|]. cbn [rbind Ok].
    intros E; injection E as <-. repeat split.
  - intros E; injection E as <-. apply same_step_refl.
Qed.

Lemma mapM_Forall2 {A B} (f : A -> result B) (Q : A -> B -> Prop) (l : list A) :
  (forall x y, In x l -> f x = Ok y -> Q x y) ->
  forall ys, mapM f l = Ok ys -> Forall2 Q l ys.
Proof.
  induction l as [|x l IH]; intros Hf ys E; cbn [mapM] in E.
  - injection E as <-. constructor.
  - destruct (f x) as [e|y] eqn:Ey; [discriminate|]. cbn [rbind] in E.
    destruct (mapM f l) as [e|ys'] eqn:Eys; [discriminate|]. cbn [rbind] in E.
    injection E as <-. constructor.
    + apply Hf; [now left|exact Ey].
    + apply IH; [|reflexivity]. intros; apply Hf; [now right|assumption].
Qed.

Lemma enumerate_from_Forall2 {A B} (R : B -> A -> Prop) (l : list A) :
  forall start ys,
    Forall2 (fun ix y => R y (snd ix)) (enumerate_from start l) ys ->
    Forall2 R ys l.
Proof.
  induction l as [|x l IH]; intros start ys H; cbn [enumerate_from] in H;
    inversion H; subst; constructor; eauto.
Qed.

Lemma second_pass_same (instructions filled : list Instruction)
      (video_duration : Z) :
  second_pass float_interpolate instructions video_duration = Ok filled ->
  Forall2 same_step filled instructions.
Proof using Type.
  unfold second_pass.
  destruct (known_times instructions) as [|k known] eqn:Ek.
  - unfold floordiv. destruct (_ =? 0); [discriminate|]. cbn [rbind Ok].
    intros E; injection E as <-.
    apply (enumerate_from_Forall2 same_step instructions 0).
    unfold enumerate. generalize (enumerate_from 0 instructions).
    intros ics. clear. induction ics as [|[i x] ics IH]; cbn [map];
      constructor; [repeat split|exact IH].
  - intros E.
    apply (enumerate_from_Forall2 same_step instructions 0).
    eapply mapM_Forall2; [|exact E].
    intros [i inst] y _ Ey. cbn [snd]. eapply fill_raw_start_same. exact Ey.
Qed.

Lemma same_step_chain (l1 l2 l3 : list Instruction) :
  Forall2 same_step l1 l2 -> Forall2 same_step l2 l3 -> Forall2 same_step l1 l3.
Proof.
  intros H12. revert l3. induction H12 as [|a b l1 l2 Hab H12 IH]; intros l3 H23;
    inversion H23; subst; constructor.
  - eapply same_step_trans; eassumption.
  - now apply IH.
Qed.

Lemma insert_by_same (a b : Instruction) (l l' : list Instruction) :
  same_step a b ->
  Forall2 same_step l l' ->
  Forall2 same_step (insert_by step_key a l) (insert_by step_key b l').
Proof.
  intros Hab H. induction H as [|x y l l' Hxy H IH]; cbn [insert_by].
  - constructor; [exact Hab|constructor].
  - rewrite (same_step_key _ _ Hab), (same_step_key _ _ Hxy).
    destruct (step_key b <=? step_key y).
    + constructor; [exact Hab|]. constructor; assumption.
    + constructor; assumption.
Qed.

Lemma sort_by_same (l l' : list Instruction) :
  Forall2 same_step l l' ->
  Forall2 same_step (sort_by step_key l) (sort_by step_key l').
Proof.
  induction 1; cbn [sort_by]; [constructor|]. now apply insert_by_same.
Qed.

Lemma third_pass_same (video_duration : Z) (instructions : list Instruction) :
  forall prev out,
    third_pass video_duration prev instructions = Ok out ->
    Forall2 same_step out instructions
    /\ Forall (fun a => is_Some (predicted_time a)) out.
Proof.
  induction instructions as [|instruction rest IH]; intros prev out E;
    cbn [third_pass] in E.
  - injection E as <-. split; constructor.
  - destruct (get_raw_start instruction) as [e|raw]; [discriminate|].
    cbn [rbind] in E.
    destruct (number raw) as [e|t]; [discriminate|]. cbn [rbind] in E.
    match type of E with
    | rbind ?m _ = _ => destruct m as [e|end_]; [discriminate|]
    end.
    cbn [rbind] in E.
    match type of E with
    | rbind (third_pass _ ?p rest) _ = _ =>
        destruct (third_pass video_duration p rest) as [e|rest'] eqn:Er;
          [discriminate|]
    end.
    cbn [rbind] in E. injection E as <-.
    destruct (IH _ _ Er) as [Hsame Hwin]. split.
    + constructor; [repeat split|exact Hsame].
    + constructor; [cbn; eauto|exact Hwin].
Qed.

(** The timer returns the steps it was given, in ascending order of
    [step], each the same step but for its window. *)
Lemma predict_step_times_same (instructions : list Instruction)
      (video_duration : Z) :
  exists out,
    predict_step_times float_interpolate instructions video_duration = Ok out
    /\ Forall2 same_step out (sort_by step_key instructions).
Proof using Type.
  unfold predict_step_times.
  destruct (second_pass_ok float_interpolate (first_pass instructions)
                           video_duration (first_pass_raw instructions))
    as (filled & E2 & Hfilled & _).
  rewrite E2. cbn [rbind Ok].
  destruct (third_pass_timed video_duration (sort_by step_key filled) None
                             (sort_by_Forall _ _ _ Hfilled))
    as (out & E3 & _).
  rewrite E3. cbn [rbind Ok].
  destruct (third_pass_same _ _ _ _ E3) as [Hsame _].
  eexists. split; [reflexivity|].
  apply same_step_chain with (l2 := out).
  - clear. induction out; cbn [map]; constructor; [repeat split|assumption].
  - eapply same_step_chain; [exact Hsame|]. apply sort_by_same.
    eapply same_step_chain; [apply (second_pass_same _ _ _ E2)|].
    unfold first_pass. clear.
    induction instructions; cbn [map]; constructor; [repeat split|assumption].
Qed.

(** X11: the timer returns the steps it was given, put in ascending order of
    [step] (steps with equal numbers keep their order): the step number,
    the keyword matches and the technique keywords of every step are
    untouched, every step has a predicted window, and no step keeps the
    scratch key [_raw_start], even one that came with it. *)
Theorem timer_changes_only_the_windows (instructions : list Instruction)
        (video_duration : Z) :
  exists out,
    predict_step_times float_interpolate instructions video_duration = Ok out
    /\ Forall2 same_step out (sort_by step_key instructions)
    /\ Forall (fun a => _raw_start a = None /\ is_Some (predicted_time a)) out.
Proof using Type.
  unfold predict_step_times.
  destruct (second_pass_ok float_interpolate (first_pass instructions)
                           video_duration (first_pass_raw instructions))
    as (filled & E2 & Hfilled & _).
  rewrite E2. cbn [rbind Ok].
  destruct (third_pass_timed video_duration (sort_by step_key filled) None
                             (sort_by_Forall _ _ _ Hfilled))
    as (out & E3 & _).
  rewrite E3. cbn [rbind Ok].
  destruct (third_pass_same _ _ _ _ E3) as [Hsame Hwin].
  eexists. split; [reflexivity|]. split.
  - apply same_step_chain with (l2 := out).
    + clear. induction out; cbn [map]; constructor; [repeat split|assumption].
    + eapply same_step_chain; [exact Hsame|]. apply sort_by_same.
      eapply same_step_chain; [apply (second_pass_same _ _ _ E2)|].
      unfold first_pass. clear.
      induction instructions; cbn [map]; constructor; [repeat split|assumption].
  - apply Forall_map. eapply List.Forall_impl; [|exact Hwin].
    cbn. intros a Ha. split; [reflexivity|exact Ha].
Qed.

(** ** The minimum duration of a window *)

(** C3: on every non-empty step list the Step Timer returns exactly the
    steps it was given, one output step for every input step, in
    ascending order of [step] (steps with equal numbers keep their
    order) and unchanged but for the window; every one of them has a
    window with end - start >= 5, unless the window is cut at
    videoDuration (end = videoDuration < start + 5), which happens to
    the last step only. *)
Theorem step_windows_last_five_seconds (instructions : list Instruction)
        (video_duration : Z) :
  instructions <> [] ->
  exists out,
    predict_step_times float_interpolate instructions video_duration = Ok out
    /\ length out = length instructions
    /\ Forall2 same_step out (sort_by step_key instructions)
    /\ forall (i : nat) a,
        out !! i = Some a ->
        exists s e,
          window a = Some (s, e)
          /\ (5 <= e - s
              \/ (e = video_duration /\ video_duration < s + 5
                  /\ S i = length out)).
Proof using Type.
  intros _.
  destruct (predict_step_times_timed float_interpolate instructions
                                     video_duration)
    as (out & E & Hlen & Hsorted & Htimed).
  destruct (predict_step_times_same instructions video_duration)
    as (out' & E' & Hsame).
  rewrite E in E'. injection E' as <-.
  exists out. split; [exact E|]. split; [exact Hlen|]. split; [exact Hsame|].
  intros i a Hi.
  destruct (timed_from_lookup _ _ _ Htimed i a Hi) as (s & e & Hw & _ & Hshape).
  exists s, e. split; [exact Hw|].
  apply lookup_lt_Some in Hi.
  destruct (Nat.ltb_spec (S i) (length out)) as [Hlt|Hge].
  - left. exact Hshape.
  - destruct (Z_le_gt_dec 5 (e - s)); [now left|right].
    repeat split; [exact Hshape|lia|lia].
Qed.

(** ** Spacing of the windows *)

(** X12: no window starts before 0, and each step starts at least five
    seconds after the step before it. *)
Theorem steps_start_five_seconds_apart (instructions : list Instruction)
        (video_duration : Z) :
  exists out,
    predict_step_times float_interpolate instructions video_duration = Ok out
    /\ (forall (i : nat) a,
           out !! i = Some a ->
           exists s e, window a = Some (s, e) /\ 0 <= s)
    /\ (forall (i : nat) a b,
           out !! i = Some a ->
           out !! S i = Some b ->
           exists sa ea sb eb,
             window a = Some (sa, ea) /\ window b = Some (sb, eb)
             /\ sa + 5 <= sb).
Proof using Type.
  destruct (predict_step_times_timed float_interpolate instructions video_duration)
    as (out & E & _ & _ & Htimed).
  exists out. split; [exact E|]. split.
  - intros i a Hi.
    destruct (timed_from_lookup _ _ _ Htimed i a Hi) as (s & e & Hw & Hs & _).
    exists s, e. auto.
  - intros i a b Ha Hb.
    destruct (timed_from_adjacent _ _ _ Htimed i a b Ha Hb)
      as (sa & ea & sb & eb & Hwa & Hwb & Hle).
    destruct (timed_from_lookup _ _ _ Htimed i a Ha) as (s & e & Hw & _ & Hshape).
    rewrite Hwa in Hw. injection Hw as <- <-.
    apply lookup_lt_Some in Hb.
    destruct (Nat.ltb_spec (S i) (length out)); [|lia].
    exists sa, ea, sb, eb. unfold MIN_STEP_DURATION in Hshape.
    repeat split; try assumption. lia.
Qed.

(** ** The first pass *)

Lemma fold_min_spec (l : list Z) :
  forall x,
    (fold_left Z.min l x = x \/ In (fold_left Z.min l x) l)
    /\ fold_left Z.min l x <= x
    /\ Forall (fun y => fold_left Z.min l x <= y) l.
Proof.
  induction l as [|y l IH]; intros x; cbn [fold_left].
  - split; [now left|]. split; [lia|constructor].
  - destruct (IH (Z.min x y)) as (Hin & Hle & Hall). split; [|split].
    + destruct Hin as [->|Hin]; [|right; now right].
      destruct (Z.min_spec x y) as [[_ ->]|[_ ->]]; [now left|right; now left].
    + lia.
    + constructor; [lia|exact Hall].
Qed.

Lemma list_min_spec (l : list Z) (m : Z) :
  list_min l = Some m -> In m l /\ Forall (fun y => m <= y) l.
Proof.
  destruct l as [|x l]; [discriminate|]. cbn [list_min].
  intros E; injection E as <-.
  destruct (fold_min_spec l x) as (Hin & Hle & Hall). split.
  - destruct Hin as [->|Hin]; [now left|now right].
  - constructor; assumption.
Qed.

(** X13: the first pass gives a step no raw start exactly when it has no
    keyword match; otherwise the raw start is the earliest timestamp among
    the matches of its technique keywords, letter case aside, or, when no
    match names a technique, the earliest timestamp of all its matches. *)
Theorem raw_start_prefers_techniques (instruction : Instruction) :
  (raw_start_of instruction = None <-> video_references instruction = [])
  /\ forall t,
      raw_start_of instruction = Some t ->
      (exists r, In r (video_references instruction)
                 /\ timestamp_seconds r = t)
      /\ ((exists r, In r (video_references instruction)
                     /\ is_technique_ref instruction r = true) ->
          (exists r, In r (video_references instruction)
                     /\ is_technique_ref instruction r = true
                     /\ timestamp_seconds r = t)
          /\ forall r, In r (video_references instruction) ->
                       is_technique_ref instruction r = true ->
                       t <= timestamp_seconds r)
      /\ ((forall r, In r (video_references instruction) ->
                     is_technique_ref instruction r = false) ->
          forall r, In r (video_references instruction) ->
                    t <= timestamp_seconds r).
Proof.
  unfold raw_start_of.
  destruct (video_references instruction) as [|r0 refs] eqn:Hrefs.
  - split; [tauto|discriminate].
  - fold (is_technique_ref instruction).
    destruct (List.filter (is_technique_ref instruction) (r0 :: refs))
      as [|t0 techs] eqn:Ht.
    + split; [split; discriminate|].
      intros t E. apply list_min_spec in E as [Hin Hall].
      apply in_map_iff in Hin as (r & Hr & Hin).
      rewrite List.Forall_forall in Hall.
      split; [eauto|]. split.
      * intros (r' & Hr' & Htech). exfalso.
        assert (H : In r' (List.filter (is_technique_ref instruction) (r0 :: refs)))
          by (apply filter_In; auto).
        rewrite Ht in H. destruct H.
      * intros _ r' Hr'. apply Hall, in_map, Hr'.
    + split; [split; discriminate|].
      intros t E. apply list_min_spec in E as [Hin Hall].
      apply in_map_iff in Hin as (r & Hr & Hin).
      rewrite <- Ht in Hin, Hall. apply filter_In in Hin as [Hin Htech].
      rewrite List.Forall_forall in Hall.
      split; [eauto|]. split.
      * intros _. split; [eauto|].
        intros r' Hr' Htech'. apply Hall, in_map, filter_In. auto.
      * intros Hnone. rewrite (Hnone r Hin) in Htech. discriminate.
Qed.

(** ** Steps without any match *)

Lemma sort_by_sorted_id {A} (key : A -> Z) (l : list A) :
  StronglySorted Z.le (map key l) -> sort_by key l = l.
Proof.
  induction l as [|x l IH]; intros Hs; [reflexivity|].
  cbn [map] in Hs. apply StronglySorted_inv in Hs as [Hs Hx].
  cbn [sort_by]. rewrite (IH Hs).
  destruct l as [|y l]; [reflexivity|]. cbn [insert_by].
  cbn [map] in Hx. apply Forall_cons_iff in Hx as [Hxy _].
  destruct (Z.leb_spec (key x) (key y)); [reflexivity|lia].
Qed.

Lemma known_times_none (l : list Instruction) :
  Forall (fun inst => _raw_start inst = Some None) l ->
  known_times l = [].
Proof.
  unfold known_times, enumerate. generalize 0%nat.
  induction l as [|x l IH]; intros start Hall; [reflexivity|].
  apply Forall_cons_iff in Hall as [Hx Hall].
  cbn [enumerate_from flat_map]. rewrite Hx. cbn [app]. now apply IH.
Qed.

Lemma third_pass_even (video_duration d : Z) (n : nat) (l : list Instruction) :
  5 <= d ->
  Z.of_nat n * d <= video_duration ->
  forall (k : nat) prev,
    n = (k + length l)%nat ->
    prev_end_of prev <= Z.of_nat k * d ->
    exists out,
      third_pass video_duration prev
                 (map (fun '(i, instruction) =>
                         set_raw_start instruction
                                       (Some (Some (Z.of_nat i * d))))
                      (enumerate_from k l))
      = Ok out
      /\ map window out
         = map (fun j : nat =>
                  Some (Z.of_nat j * d,
                        if (S j =? n)%nat then video_duration
                        else (Z.of_nat j + 1) * d))
               (seq k (length l)).
Proof.
  intros Hd Hvd. induction l as [|inst rest IH]; intros k prev Hn Hprev.
  - exists []. split; reflexivity.
  - cbn [enumerate_from map third_pass].
    unfold get_raw_start at 1. cbn [set_raw_start _raw_start rbind Ok number].
    set (start := match prev with
                  | Some p => _
                  | None => Z.max (Z.of_nat k * d) 0
                  end).
    assert (Hstart : start = Z.of_nat k * d).
    { subst start. unfold prev_end_of in Hprev. destruct prev as [p|]; nia. }
    rewrite Hstart. clearbody start. clear Hstart start.
    destruct rest as [|next rest'].
    + cbn [enumerate_from map third_pass rbind Ok].
      eexists. split; [reflexivity|].
      cbn [length seq map window predicted_time set_predicted_time
           pt_start_seconds pt_end_seconds].
      cbn [length] in Hn. replace (S k =? n)%nat with true
        by (symmetry; apply Nat.eqb_eq; lia).
      unfold MIN_STEP_DURATION.
      destruct (Z.ltb_spec (video_duration - Z.of_nat k * d) 5); [nia|].
      reflexivity.
    + cbn [enumerate_from map]. cbn [set_raw_start _raw_start rbind Ok number].
      set (tail := map _ (enumerate_from (S (S k)) rest')).
      set (next' := set_raw_start next _).
      unfold MIN_STEP_DURATION.
      replace (Z.max (Z.of_nat (S k) * d) (Z.of_nat k * d + 5))
        with ((Z.of_nat k + 1) * d) by nia.
      destruct (Z.ltb_spec ((Z.of_nat k + 1) * d - Z.of_nat k * d) 5); [nia|].
      set (inst' := set_predicted_time _ _).
      destruct (IH (S k) (Some inst')) as (out & E & Hw).
      { cbn [length] in *. lia. }
      { subst inst'. cbn. nia. }
      cbn [enumerate_from map] in E. fold next' tail in E. rewrite E.
      cbn [rbind Ok]. eexists. split; [reflexivity|].
      cbn [length seq map]. rewrite Hw. f_equal.
      cbn [length] in Hn.
      replace (S k =? n)%nat with false by (symmetry; apply Nat.eqb_neq; lia).
      reflexivity.
Qed.

Lemma even_windows_without_matches
        (instructions : list Instruction) (video_duration : Z) :
  Forall (fun inst => video_references inst = []) instructions ->
  StronglySorted Z.le (map step_key instructions) ->
  5 <= video_duration / Z.of_nat (length instructions) ->
  exists out,
    predict_step_times float_interpolate instructions video_duration = Ok out
    /\ map window out = even_windows video_duration (length instructions).
Proof using Type.
  intros Hrefs Hsorted Hd.
  assert (Hn : (0 < length instructions)%nat).
  { destruct instructions; [cbn in Hd; rewrite Z.div_0_r in Hd; lia|cbn; lia]. }
  unfold predict_step_times, second_pass.
  assert (Hraw : Forall (fun inst => _raw_start inst = Some None)
                        (first_pass instructions)).
  { unfold first_pass. apply Forall_map. eapply List.Forall_impl; [|exact Hrefs].
    cbn. intros inst E. unfold raw_start_of. now rewrite E. }
  rewrite (known_times_none _ Hraw). unfold floordiv.
  assert (Hlen : length (first_pass instructions) = length instructions)
    by (unfold first_pass; apply length_map).
  rewrite Hlen.
  replace (Z.max (Z.of_nat (length instructions)) 1)
    with (Z.of_nat (length instructions)) by lia.
  destruct (Z.eqb_spec (Z.of_nat (length instructions)) 0); [lia|].
  cbn [rbind Ok].
  set (d := video_duration / Z.of_nat (length instructions)) in *.
  set (filled := map _ (enumerate (first_pass instructions))).
  assert (Hkeys : map step_key filled = map step_key instructions).
  { subst filled. unfold enumerate, first_pass. clearbody d.
    generalize 0%nat. clear.
    induction instructions as [|x l IH]; intros start; [reflexivity|].
    cbn [map enumerate_from]. f_equal. apply IH. }
  rewrite sort_by_sorted_id by (rewrite Hkeys; exact Hsorted).
  destruct (third_pass_even video_duration d (length instructions)
                            (first_pass instructions) Hd) with (k := 0%nat)
                            (prev := @None Instruction)
    as (out & E & Hw).
  - apply Z.mul_div_le. lia.
  - now rewrite Hlen.
  - cbn. lia.
  - subst filled. unfold enumerate. rewrite E. cbn [rbind Ok].
    eexists. split; [reflexivity|].
    rewrite map_map.
    rewrite (map_ext _ window) by reflexivity.
    rewrite Hw, Hlen. reflexivity.
Qed.

(** X14: when no step has a keyword match, the steps come in ascending order
    of [step] and at least five seconds fall to each, the steps share the
    video evenly: step k (from 0) runs from k * (videoDuration // n) to
    (k + 1) * (videoDuration // n), and the last one to videoDuration. *)
Theorem steps_without_matches_share_the_video
        (instructions : list Instruction) (video_duration : Z) :
  Forall (fun inst => video_references inst = []) instructions ->
  StronglySorted Z.le (map step_key instructions) ->
  5 <= video_duration / Z.of_nat (length instructions) ->
  exists out,
    predict_step_times float_interpolate instructions video_duration = Ok out
    /\ map window out = even_windows video_duration (length instructions).
Proof using Type.
  apply even_windows_without_matches.
Qed.
End MoreStepTimerFacts.

Section MoreStepTimerExamples.
Import PyStr Recipes.

(** Two steps and ninety seconds, the second matched at 88s: the first
    window is 0 to 88, the last one is cut at 90. *)
Lemma step_windows_last_five_seconds_witness :
  exists out,
    predict_step_times exact_interpolate [step_at 1 0; step_at 2 88] 90 = Ok out
    /\ length out = 2%nat
    /\ Forall2 same_step out (sort_by step_key [step_at 1 0; step_at 2 88])
    /\ forall (i : nat) a,
        out !! i = Some a ->
        exists s e,
          window a = Some (s, e)
          /\ (5 <= e - s
              \/ (e = 90 /\ 90 < s + 5 /\ S i = length out)).
Proof.
  apply (step_windows_last_five_seconds
           exact_interpolate [step_at 1 0; step_at 2 88] 90).
  discriminate.
Defined.

Lemma steps_without_matches_share_the_video_witness :
  exists out,
    predict_step_times exact_interpolate
                       [bare_step 1; bare_step 2; bare_step 3] 100 = Ok out
    /\ map window out = [Some (0, 33); Some (33, 66); Some (66, 100)].
Proof.
  apply (steps_without_matches_share_the_video
           exact_interpolate [bare_step 1; bare_step 2; bare_step 3] 100).
  - repeat constructor.
  - cbn. repeat constructor; lia.
  - vm_compute. discriminate.
Defined.
End MoreStepTimerExamples.

(** * Further properties of the cue parser *)

Section MoreParserFacts.
Import PyStr Recipes.

Variable stemWord : string -> string.

(** ** The loops *)

Lemma parse_lines_step (line : string) (rest : list string) :
  parse_lines stemWord (line :: rest)
  = match timestamp_match (strip line) with
    | Some (start_time, _) =>
        cue_of stemWord (to_seconds start_time) (fst (collect_text rest []))
        ++ parse_lines stemWord (snd (collect_text rest []))
    | None => parse_lines stemWord rest
    end.
Proof using Type.
  cbn [parse_lines].
  destruct (timestamp_match (strip line)) as [[start_time g2]|]; [|reflexivity].
  match goal with
  | |- ?collect rest [] = _ =>
      enough (H : forall ls text_lines,
                 collect ls text_lines
                 = cue_of stemWord (to_seconds start_time)
                          (fst (collect_text ls text_lines))
                   ++ parse_lines stemWord (snd (collect_text ls text_lines)))
        by apply H
  end.
  induction ls as [|l ls IH]; intros text_lines; cbn [collect_text].
  - cbn [fst snd parse_lines]. now rewrite app_nil_r.
  - destruct (is_text_line l); [apply IH|reflexivity].
Qed.

Lemma collect_text_rest (ls : list string) :
  forall text_lines,
    exists taken,
      ls = taken ++ snd (collect_text ls text_lines).
Proof.
  induction ls as [|l ls IH]; intros text_lines; cbn [collect_text].
  - exists []. reflexivity.
  - destruct (is_text_line l).
    + destruct (IH (text_lines ++ [strip l])) as [taken E].
      exists (l :: taken). cbn [app]. now f_equal.
    + exists []. reflexivity.
Qed.

Lemma cue_of_length (start_seconds : Z) (text_lines : list string) :
  (length (cue_of stemWord start_seconds text_lines) <= 1)%nat.
Proof using Type.
  unfold cue_of. destruct text_lines; [cbn; lia|].
  destruct (String.eqb _ ""); cbn; lia.
Qed.

(** An induction principle that follows the outer loop: after a line it
    goes on with the lines the inner loop left, or with all the lines
    after it. *)
Lemma parse_lines_ind (P : list string -> Prop) :
  P [] ->
  (forall line rest,
      P (snd (collect_text rest [])) -> P rest -> P (line :: rest)) ->
  forall lines, P lines.
Proof.
  intros Hnil Hcons lines.
  assert (H : forall n lines, (length lines <= n)%nat -> P lines).
  { clear lines. induction n as [|n IH]; intros lines Hlen.
    - destruct lines; [exact Hnil|cbn in Hlen; lia].
    - destruct lines as [|line rest]; [exact Hnil|].
      cbn in Hlen.
      destruct (collect_text_rest rest []) as [taken E].
      apply (Hcons line rest).
      + apply IH. apply (f_equal (@length _)) in E.
        rewrite length_app in E. lia.
      + apply IH. lia. }
  apply (H (length lines)). lia.
Qed.

(** X15: the parser returns at most one cue per timestamp line. *)
Theorem at_most_one_cue_per_timestamp_line (vtt_content : string) :
  (length (parse_vtt_cues stemWord vtt_content)
   <= length (timestamp_lines (split_on newline vtt_content)))%nat.
Proof using Type.
  unfold parse_vtt_cues. generalize (split_on newline vtt_content) as lines.
  induction lines as [|line rest IHleft IHrest] using parse_lines_ind;
    [cbn; lia|].
  rewrite parse_lines_step. unfold timestamp_lines. cbn [List.filter].
  fold (timestamp_lines rest).
  destruct (timestamp_match (strip line)) as [[start_time g2]|] eqn:Em.
  - rewrite bool_decide_eq_true_2 by eauto. cbn [length].
    rewrite length_app.
    pose proof (cue_of_length (to_seconds start_time)
                              (fst (collect_text rest []))).
    destruct (collect_text_rest rest []) as [taken E].
    assert (Hm : (length (timestamp_lines (snd (collect_text rest [])))
                  <= length (timestamp_lines rest))%nat).
    { rewrite E at 2. unfold timestamp_lines.
      rewrite List.filter_app, length_app. lia. }
    lia.
  - rewrite bool_decide_eq_false_2 by (intros [? ?]; discriminate).
    exact IHrest.
Qed.

(** ** The text of a cue *)

Lemma split_ws_cons (c : ascii) (s : string) :
  split_ws (String c s)
  = if is_space c then split_ws s
    else match s with
         | EmptyString => [String c EmptyString]
         | String c' _ =>
             if is_space c' then String c EmptyString :: split_ws s
             else match split_ws s with
                  | w :: ws => String c w :: ws
                  | [] => [String c EmptyString]
                  end
         end.
Proof. reflexivity. Qed.

Lemma split_ws_wordy (s : string) : Forall wordy (split_ws s).
Proof.
  induction s as [|c s IH]; [constructor|]. rewrite split_ws_cons.
  destruct (is_space c) eqn:Ec; [exact IH|].
  assert (Hc : wordy (String c "")).
  { split; [discriminate|cbn; now rewrite Ec]. }
  destruct s as [|c' s']; [constructor; [exact Hc|constructor]|].
  destruct (is_space c') eqn:Ec'; [constructor; [exact Hc|exact IH]|].
  destruct (split_ws (String c' s')) as [|w ws];
    [constructor; [exact Hc|constructor]|].
  apply Forall_cons_iff in IH as [[_ Hw] Hws].
  constructor; [|exact Hws].
  split; [discriminate|cbn; now rewrite Ec, Hw].
Qed.

Lemma split_ws_word (w : string) : wordy w -> split_ws w = [w].
Proof.
  intros [Hne Hw]. induction w as [|c w IH]; [contradiction|].
  cbn [no_space] in Hw. apply andb_prop in Hw as [Hc Hw].
  apply negb_true_iff in Hc. rewrite split_ws_cons, Hc.
  destruct w as [|c' w']; [reflexivity|].
  pose proof Hw as Hw'. cbn [no_space] in Hw'.
  apply andb_prop in Hw' as [Hc' _]. apply negb_true_iff in Hc'.
  rewrite Hc', IH; [reflexivity|discriminate|exact Hw].
Qed.

Lemma split_ws_word_space (w t : string) :
  wordy w -> split_ws (w +:+ String " " t) = w :: split_ws t.
Proof.
  intros [Hne Hw]. induction w as [|c w IH]; [contradiction|].
  cbn [no_space] in Hw. apply andb_prop in Hw as [Hc Hw].
  apply negb_true_iff in Hc.
  change (String c w +:+ String " " t) with (String c (w +:+ String " " t)).
  rewrite split_ws_cons, Hc.
  destruct w as [|c' w'].
  - change ("" +:+ String " " t) with (String " " t).
    replace (is_space " ") with true by reflexivity.
    rewrite split_ws_cons. replace (is_space " ") with true by reflexivity.
    reflexivity.
  - pose proof Hw as Hw'. cbn [no_space] in Hw'.
    apply andb_prop in Hw' as [Hc' _]. apply negb_true_iff in Hc'.
    change (String c' w' +:+ String " " t)
      with (String c' (w' +:+ String " " t)) in *.
    cbv beta iota. rewrite Hc', IH; [reflexivity|discriminate|exact Hw].
Qed.

Lemma split_ws_join (ws : list string) :
  Forall wordy ws -> split_ws (join " " ws) = ws.
Proof.
  induction 1 as [|w ws Hw Hws IH]; [reflexivity|].
  destruct ws as [|w' ws'].
  - cbn. now apply split_ws_word.
  - change (join " " (w :: w' :: ws'))
      with (w +:+ String " " (join " " (w' :: ws'))).
    rewrite split_ws_word_space by exact Hw. now rewrite IH.
Qed.

(** X16: every cue the parser returns has a text that is not empty, in which
    words are separated by single spaces with no whitespace at either
    end, and carries the normalised form of that text. *)
Theorem cue_text_is_normalised (vtt_content : string) (cue : Cue) :
  In cue (parse_vtt_cues stemWord vtt_content) ->
  text cue <> ""
  /\ join " " (split_ws (text cue)) = text cue
  /\ normalized cue = normalize_text stemWord (text cue).
Proof using Type.
  unfold parse_vtt_cues. generalize (split_on newline vtt_content) as lines.
  induction lines as [|line rest IHleft IHrest] using parse_lines_ind;
    [intros []|].
  rewrite parse_lines_step.
  destruct (timestamp_match (strip line)) as [[start_time g2]|];
    [|exact IHrest].
  intros Hin. apply in_app_or in Hin as [Hin|Hin]; [|now apply IHleft].
  unfold cue_of in Hin.
  destruct (fst (collect_text rest [])) as [|l ls]; [destruct Hin|].
  match type of Hin with
  | context [join " " (split_ws ?x)] => set (raw := x) in *
  end.
  destruct (String.eqb_spec (join " " (split_ws raw)) "") as [E|Hne];
    [destruct Hin|].
  destruct Hin as [<-|[]]. cbn [text normalized].
  split; [exact Hne|]. split; [|reflexivity].
  now rewrite split_ws_join by apply split_ws_wordy.
Qed.
End MoreParserFacts.

Section MoreParserExamples.
Import PyStr Recipes.

Lemma cue_text_is_normalised_witness :
  "keep whisking" <> ""
  /\ join " " (split_ws "keep whisking") = "keep whisking"
  /\ "keep whisk" = normalize_text suffix_stemmer "keep whisking".
Proof.
  apply (cue_text_is_normalised
           suffix_stemmer (two_mentions "11")
           (mkCue 11000 "keep whisking" "keep whisk")).
  vm_compute. right. now left.
Defined.
End MoreParserExamples.

(** * Track selection *)

Section SelectionFacts.
Import PyStr Extractor VideoExtractor.

Lemma dict_get_In {V} (d : Dict V) (k : string) (v : V) :
  dict_get d k = Some v -> In (k, v) d.
Proof.
  induction d as [|[k' v'] d IH]; cbn [dict_get]; [discriminate|].
  destruct (String.eqb_spec k' k) as [->|Hne].
  - intros [= ->]. now left.
  - intros H. right. now apply IH.
Qed.

Lemma holds_spec (field : option string) (value : string) :
  holds field value = true <-> field = Some value.
Proof.
  unfold holds. destruct field as [v|]; [|split; discriminate].
  rewrite String.eqb_eq. split; [now intros ->|now intros [= ->]].
Qed.

Lemma usable_spec (fmt : string) (track : Track) :
  usable fmt track = true <-> playable track /\ ext track = Some fmt.
Proof.
  unfold usable, playable. rewrite andb_true_iff, negb_true_iff, holds_spec.
  rewrite <- (holds_spec (protocol track)).
  destruct (holds (protocol track) "m3u8_native"); intuition congruence.
Qed.

Lemma find_usable_none (fmt : string) (tracks : list Track) :
  List.find (usable fmt) tracks = None -> ~ offers fmt tracks.
Proof.
  intros Hnone (track & Hin & Hp & He).
  pose proof (List.find_none _ _ Hnone track Hin) as Hu.
  assert (usable fmt track = true) by now apply usable_spec.
  congruence.
Qed.

Lemma find_format_best (tracks : list Track) (t : Track) :
  find_format format_priorities tracks = Some t -> best_of tracks t.
Proof.
  unfold format_priorities, best_of. cbn [find_format].
  destruct (List.find (usable "vtt") tracks) as [t1|] eqn:E1.
  { intros [= <-]. apply List.find_some in E1 as [Hin Hu].
    apply usable_spec in Hu as [Hp He].
    split; [exact Hin|]. split; [exact Hp|]. now left. }
  apply find_usable_none in E1.
  destruct (List.find (usable "srt") tracks) as [t2|] eqn:E2.
  { intros [= <-]. apply List.find_some in E2 as [Hin Hu].
    apply usable_spec in Hu as [Hp He].
    split; [exact Hin|]. split; [exact Hp|]. right. left. now split. }
  apply find_usable_none in E2.
  destruct (List.find (usable "ttml") tracks) as [t3|] eqn:E3; [|discriminate].
  intros [= <-]. apply List.find_some in E3 as [Hin Hu].
  apply usable_spec in Hu as [Hp He].
  split; [exact Hin|]. split; [exact Hp|]. right. right. now repeat split.
Qed.

Lemma first_listed_In (priorities : list string) (d : Dict (list Track))
      (tracks : list Track) :
  first_listed priorities d = Some tracks ->
  exists lang, In lang priorities /\ In (lang, tracks) d.
Proof.
  induction priorities as [|lang ps IH]; cbn [first_listed]; [discriminate|].
  destruct (dict_get d lang) as [v|] eqn:E.
  - intros [= <-]. exists lang. split; [now left|now apply dict_get_In].
  - intros H. destruct (IH H) as (l & Hl & Hin). exists l. split; [now right|auto].
Qed.

Lemma first_variant_In (d : Dict (list Track)) (tracks : list Track) :
  first_variant d = Some tracks ->
  exists lang, is_en_variant lang = true /\ In (lang, tracks) d.
Proof.
  induction d as [|[lang v] d IH]; cbn [first_variant]; [discriminate|].
  destruct (is_en_variant lang) eqn:E.
  - intros [= <-]. exists lang. split; [exact E|now left].
  - intros H. destruct (IH H) as (l & Hl & Hin). exists l. split; [exact Hl|now right].
Qed.

Lemma listed_english (lang : string) :
  In lang subtitle_priorities \/ In lang auto_caption_priorities ->
  english lang.
Proof.
  unfold english, subtitle_priorities, auto_caption_priorities.
  cbn [In]. intros H.
  repeat match goal with
         | H : _ \/ _ |- _ => destruct H as [H|H]
         | H : False |- _ => destruct H
         | H : _ = lang |- _ => subst lang
         end;
    solve [now left | right; reflexivity].
Qed.

Lemma select_language_In (priorities : list string) (d : Dict (list Track))
      (caption_track : option (list Track)) (tracks : list Track) :
  (forall lang, In lang priorities -> english lang) ->
  select_language priorities d caption_track = Some tracks ->
  (exists lang, english lang /\ In (lang, tracks) d)
  \/ caption_track = Some tracks.
Proof.
  intros Hp. unfold select_language.
  destruct (first_listed priorities d) as [v|] eqn:E1.
  { intros [= <-]. left. apply first_listed_In in E1 as (l & Hl & Hin).
    exists l. auto. }
  destruct (first_variant d) as [v|] eqn:E2.
  { intros [= <-]. left. apply first_variant_In in E2 as (l & Hl & Hin).
    exists l. split; [now right|exact Hin]. }
  now right.
Qed.

(** The track list the format loop runs over. *)
Lemma get_captions_chosen (info : VideoInfo) (t : Track) :
  get_captions_by_priority info = Some t ->
  exists lang tracks,
    (In (lang, tracks) (subtitles info)
     \/ In (lang, tracks) (automatic_captions info))
    /\ english lang
    /\ find_format format_priorities tracks = Some t.
Proof.
  unfold get_captions_by_priority.
  set (c1 := if nonempty (subtitles info) then _ else _).
  set (c2 := if negb (truthy c1) && _ then _ else _).
  destruct c2 as [[|track tracks]|] eqn:E2; [discriminate| |discriminate].
  intros Hf.
  assert (H1 : c1 = Some (track :: tracks) ->
               exists lang, english lang
                            /\ In (lang, track :: tracks) (subtitles info)).
  { subst c1. destruct (nonempty (subtitles info)); [|discriminate].
    intros H. apply select_language_In in H as [H|H]; [exact H|discriminate|].
    intros lang Hl. apply listed_english. now left. }
  subst c2.
  destruct (negb (truthy c1) && nonempty (automatic_captions info)) eqn:Ec.
  - apply select_language_In in E2 as [(lang & Hl & Hin)|E2].
    + exists lang, (track :: tracks). auto.
    + destruct (H1 E2) as (lang & Hl & Hin).
      exists lang, (track :: tracks). auto.
    + intros lang Hl. apply listed_english. now right.
  - destruct (H1 E2) as (lang & Hl & Hin).
    exists lang, (track :: tracks). auto.
Qed.

(** X17: a track the selection returns belongs to an entry of the manual
    subtitles or of the automatic captions whose key is [en] or a
    regional variant of it; it is not an [m3u8_native] track, and its
    format is the first of vtt, srt and ttml that the playable tracks of
    that entry offer. *)
Theorem selected_track_is_the_best_of_an_english_entry
        (info : VideoInfo) (t : Track) :
  get_captions_by_priority info = Some t ->
  exists lang tracks,
    (In (lang, tracks) (subtitles info)
     \/ In (lang, tracks) (automatic_captions info))
    /\ english lang
    /\ best_of tracks t.
Proof.
  intros H. apply get_captions_chosen in H as (lang & tracks & Hin & Hl & Hf).
  exists lang, tracks. split; [exact Hin|]. split; [exact Hl|].
  now apply find_format_best.
Qed.

(** ** Manual subtitles come first *)

Lemma dict_has_listed (priorities : list string) (d : Dict (list Track))
      (lang : string) :
  In lang priorities -> dict_has d lang = true ->
  first_listed priorities d <> None.
Proof.
  unfold dict_has. induction priorities as [|p ps IH]; [intros []|].
  intros [->|Hin] Hhas; cbn [first_listed].
  - destruct (dict_get d lang); [discriminate|discriminate].
  - destruct (dict_get d p); [discriminate|]. now apply IH.
Qed.

Lemma dict_has_variant (d : Dict (list Track)) (lang : string) :
  is_en_variant lang = true -> dict_has d lang = true ->
  first_variant d <> None.
Proof.
  unfold dict_has. intros Hv.
  induction d as [|[k v] d IH]; cbn [dict_get first_variant]; [discriminate|].
  destruct (is_en_variant k) eqn:Ek; [discriminate|].
  destruct (String.eqb_spec k lang) as [->|Hne]; [congruence|exact IH].
Qed.

Lemma select_language_english (d : Dict (list Track)) (lang : string) :
  english lang -> dict_has d lang = true ->
  exists l tracks,
    select_language subtitle_priorities d None = Some tracks
    /\ In (l, tracks) d.
Proof.
  intros Hl Hhas. unfold select_language.
  destruct (first_listed subtitle_priorities d) as [v|] eqn:E1.
  { apply first_listed_In in E1 as (l & _ & Hin). eauto. }
  destruct Hl as [->|Hv].
  { exfalso. apply (dict_has_listed subtitle_priorities d "en");
      [cbn; auto|exact Hhas|exact E1]. }
  destruct (first_variant d) as [v|] eqn:E2.
  { apply first_variant_In in E2 as (l & _ & Hin). eauto. }
  exfalso. now apply (dict_has_variant d lang).
Qed.

(** X18: when the manual subtitles have an entry under [en] or a regional
    variant and none of their entries is an empty list, the automatic
    captions play no part: the selection returns the same for any
    automatic captions, and a track it returns is one of the manual
    subtitles.  So it returns no track when the manual entry offers no
    usable format, whatever the automatic captions offer. *)
Theorem manual_subtitles_shut_out_automatic_captions
        (info info' : VideoInfo) (lang : string) :
  english lang ->
  dict_has (subtitles info) lang = true ->
  Forall (fun entry => snd entry <> []) (subtitles info) ->
  subtitles info' = subtitles info ->
  get_captions_by_priority info' = get_captions_by_priority info
  /\ forall t,
      get_captions_by_priority info = Some t ->
      exists l tracks, In (l, tracks) (subtitles info) /\ In t tracks.
Proof.
  intros Hl Hhas Hne Hsame.
  destruct (select_language_english _ _ Hl Hhas) as (l & tracks & Hsel & Hin).
  assert (Hd : nonempty (subtitles info) = true)
    by (destruct (subtitles info); [destruct Hin|reflexivity]).
  destruct tracks as [|track tracks].
  { rewrite List.Forall_forall in Hne. now destruct (Hne _ Hin). }
  assert (Hget : forall i, subtitles i = subtitles info ->
                           get_captions_by_priority i
                           = find_format format_priorities (track :: tracks)).
  { intros i Hi. unfold get_captions_by_priority. rewrite Hi, Hd, Hsel.
    reflexivity. }
  split; [now rewrite (Hget info'), (Hget info)|].
  intros t Ht. rewrite (Hget info eq_refl) in Ht.
  apply find_format_best in Ht as [Ht _]. eauto.
Qed.
End SelectionFacts.

Section SelectionExamples.
Import PyStr Extractor VideoExtractor.

Lemma selected_track_is_the_best_of_an_english_entry_witness :
  exists lang tracks,
    (In (lang, tracks) (subtitles srt_info)
     \/ In (lang, tracks) (automatic_captions srt_info))
    /\ english lang
    /\ best_of tracks (track_of "srt").
Proof.
  apply (selected_track_is_the_best_of_an_english_entry srt_info).
  reflexivity.
Defined.

Lemma manual_subtitles_shut_out_automatic_captions_witness :
  get_captions_by_priority (bare_info [("en", [track_of "json3"])] [])
  = get_captions_by_priority json_only_info
  /\ forall t,
      get_captions_by_priority json_only_info = Some t ->
      exists l tracks, In (l, tracks) (subtitles json_only_info) /\ In t tracks.
Proof.
  apply (manual_subtitles_shut_out_automatic_captions
           json_only_info (bare_info [("en", [track_of "json3"])] []) "en").
  - now left.
  - reflexivity.
  - repeat constructor. discriminate.
  - reflexivity.
Defined.
End SelectionExamples.

(** * Thumbnails *)

Section ThumbnailFacts.
Import PyStr Extractor VideoExtractor.

Lemma firstn_incl {A} (n : nat) (l : list A) (x : A) :
  In x (firstn n l) -> In x l.
Proof.
  intros H. rewrite <- (firstn_skipn n l). apply in_or_app. now left.
Qed.

Lemma strongly_sorted_map {A B} (R : B -> B -> Prop) (f : A -> B)
      (l : list A) :
  StronglySorted R (map f l) ->
  StronglySorted (fun a b => R (f a) (f b)) l.
Proof.
  induction l as [|x l IH]; cbn [map]; intros H; [constructor|].
  apply StronglySorted_inv in H as [Hl Hx].
  constructor; [now apply IH|]. now rewrite List.Forall_map in Hx.
Qed.

Lemma strongly_sorted_app {A} (R : A -> A -> Prop) (l1 l2 : list A) :
  StronglySorted R (l1 ++ l2) ->
  StronglySorted R l1
  /\ forall x y, In x l1 -> In y l2 -> R x y.
Proof.
  induction l1 as [|a l1 IH]; cbn [app]; intros H.
  - split; [constructor|intros x y []].
  - apply StronglySorted_inv in H as [Hl Ha].
    destruct (IH Hl) as [Hs Hxy]. split.
    + constructor; [exact Hs|].
      rewrite List.Forall_forall in *. intros x Hx. apply Ha.
      apply in_or_app. now left.
    + intros x y [<-|Hx] Hy; [|now apply Hxy].
      rewrite List.Forall_forall in Ha. apply Ha. apply in_or_app. now right.
Qed.

(** X19: never more than three thumbnails are returned, and each of them is
    one of the thumbnails given. *)
Theorem best_thumbnails_are_at_most_three_of_the_input
        (thumbnails : list Thumbnail) :
  (length (_get_best_thumbnails thumbnails) <= 3)%nat
  /\ forall t, In t (_get_best_thumbnails thumbnails) -> In t thumbnails.
Proof.
  unfold _get_best_thumbnails.
  destruct thumbnails as [|t0 ts]; [cbn; split; [lia|auto]|].
  set (l := t0 :: ts).
  destruct (List.filter is_yt_thumbnail l) as [|y ys] eqn:E.
  - split; [apply firstn_le_length|intros t; apply firstn_incl].
  - rewrite <- E. split; [apply firstn_le_length|].
    intros t Hin. apply firstn_incl in Hin. unfold sorted_reverse in Hin.
    apply sort_by_In in Hin. now apply List.filter_In in Hin.
Qed.

(** X20: when a thumbnail served from [i.ytimg.com/vi] is among those given,
    only such thumbnails are returned, the largest first; one of them is
    left out only when three are returned and each of the three is at
    least as large. *)
Theorem youtube_thumbnails_come_largest_first
        (thumbnails : list Thumbnail) (yt : Thumbnail) :
  In yt thumbnails ->
  is_yt_thumbnail yt = true ->
  Forall (fun t => is_yt_thumbnail t = true) (_get_best_thumbnails thumbnails)
  /\ StronglySorted (fun a b => area b <= area a)
                    (_get_best_thumbnails thumbnails)
  /\ forall t,
      In t thumbnails ->
      is_yt_thumbnail t = true ->
      ~ In t (_get_best_thumbnails thumbnails) ->
      length (_get_best_thumbnails thumbnails) = 3%nat
      /\ Forall (fun b => area t <= area b) (_get_best_thumbnails thumbnails).
Proof.
  intros Hyt Hy. unfold _get_best_thumbnails.
  destruct thumbnails as [|t0 ts]; [destruct Hyt|].
  set (l := t0 :: ts) in *.
  assert (Hf : In yt (List.filter is_yt_thumbnail l))
    by (apply List.filter_In; auto).
  destruct (List.filter is_yt_thumbnail l) as [|y ys] eqn:E; [destruct Hf|].
  rewrite <- E. clear Hf.
  set (sorted_thumbs := sorted_reverse area (List.filter is_yt_thumbnail l)).
  assert (Hin : forall t, In t sorted_thumbs
                          <-> In t l /\ is_yt_thumbnail t = true).
  { intros t. unfold sorted_thumbs, sorted_reverse.
    now rewrite sort_by_In, List.filter_In. }
  assert (Hsorted : StronglySorted (fun a b => area b <= area a) sorted_thumbs).
  { unfold sorted_thumbs, sorted_reverse.
    pose proof (sort_by_sorted (fun x => - area x)
                               (List.filter is_yt_thumbnail l)) as H.
    apply strongly_sorted_map in H.
    eapply StronglySorted_ind with (P := StronglySorted _);
      [constructor| |exact H].
    intros a r _ IH Ha. constructor; [exact IH|].
    eapply List.Forall_impl; [|exact Ha]. cbn. intros b Hb. lia. }
  rewrite <- (firstn_skipn 3 sorted_thumbs) in Hsorted.
  apply strongly_sorted_app in Hsorted as [Hs Hcross].
  split; [|split; [exact Hs|]].
  - apply List.Forall_forall. intros t Ht. apply firstn_incl in Ht.
    now apply Hin in Ht.
  - intros t Ht Hty Hout.
    assert (Hskip : In t (skipn 3 sorted_thumbs)).
    { assert (H : In t sorted_thumbs) by now apply Hin.
      rewrite <- (firstn_skipn 3 sorted_thumbs) in H.
      apply in_app_or in H as [H|H]; [contradiction|exact H]. }
    split.
    + rewrite length_firstn.
      assert (3 < length sorted_thumbs)%nat; [|lia].
      destruct (Nat.lt_ge_cases 3 (length sorted_thumbs)) as [|Hle]; [assumption|].
      rewrite skipn_all2 in Hskip by exact Hle. destruct Hskip.
    + apply List.Forall_forall. intros b Hb. now apply Hcross.
Qed.
End ThumbnailFacts.

Section ThumbnailExamples.
Import PyStr Extractor VideoExtractor.

Lemma youtube_thumbnails_come_largest_first_witness :
  Forall (fun t => is_yt_thumbnail t = true) (_get_best_thumbnails four_thumbs)
  /\ StronglySorted (fun a b => area b <= area a)
                    (_get_best_thumbnails four_thumbs)
  /\ forall t,
      In t four_thumbs ->
      is_yt_thumbnail t = true ->
      ~ In t (_get_best_thumbnails four_thumbs) ->
      length (_get_best_thumbnails four_thumbs) = 3%nat
      /\ Forall (fun b => area t <= area b) (_get_best_thumbnails four_thumbs).
Proof.
  apply (youtube_thumbnails_come_largest_first
           four_thumbs
           (thumb "https://i.ytimg.com/vi/abc123/default.jpg" 120 90)).
  - now left.
  - reflexivity.
Defined.
End ThumbnailExamples.

(** * The extraction as a whole *)

Section ExtractFacts.
Import PyStr Extractor VideoExtractor.

Variable ydl_extract_info : string -> result (option VideoInfo).
Variable download_captions : Track -> result string.
Variable webvtt_from_string : string -> result (list Caption).

Lemma parse_captions_vtt_only (fmt content : string)
      (parsed : string * list Segment) :
  parse_captions webvtt_from_string fmt content = Ok parsed -> fmt = "vtt".
Proof using Type.
  unfold parse_captions.
  destruct (String.eqb_spec fmt "vtt") as [->|Hne]; [reflexivity|].
  cbn [negb]. discriminate.
Qed.

(** What a successful run went through. *)
Lemma extract_ok (url : string) (r : Extraction) :
  VideoExtractor.extract ydl_extract_info download_captions
                         webvtt_from_string url = Ok r ->
  exists info,
    ydl_extract_info url = Ok (Some info)
    /\ match get_captions_by_priority info with
       | None => transcript r = None
       | Some t =>
           exists content plain_text segs,
             ext t = Some "vtt"
             /\ download_captions t = Ok content
             /\ parse_captions webvtt_from_string "vtt" content
                = Ok (plain_text, segs)
             /\ transcript r
                = Some (mkTranscript
                          (default "English" (name t))
                          (if nonempty (subtitles info)
                              && existsb (dict_has (subtitles info))
                                         subtitle_priorities
                           then "manual" else "auto-generated")
                          segs plain_text)
       end.
Proof using Type.
  unfold VideoExtractor.extract.
  destruct (ydl_extract_info url) as [e|[info|]]; cbn [rbind];
    [discriminate| |discriminate].
  intros H. exists info. split; [reflexivity|].
  destruct (get_captions_by_priority info) as [t|].
  - destruct (download_captions t) as [e|content]; cbn [rbind] in H;
      [discriminate|].
    destruct (ext t) as [fmt|]; cbn [subscript rbind Ok Raise] in H;
      [|discriminate].
    destruct (parse_captions webvtt_from_string fmt content)
      as [e|[plain_text segs]] eqn:Ep; cbn [rbind] in H; [discriminate|].
    pose proof (parse_captions_vtt_only _ _ _ Ep) as ->.
    destruct (video_id info) as [i|]; cbn [subscript rbind Ok Raise] in H;
      [|discriminate].
    injection H as <-. cbn [transcript].
    exists content, plain_text, segs. auto.
  - cbn [rbind Ok] in H.
    destruct (video_id info) as [i|]; cbn [subscript rbind Ok Raise] in H;
      [|discriminate].
    injection H as <-. reflexivity.
Qed.

(** X21: a transcript that [extract] returns was parsed from the downloaded
    content of the selected track, and that track is a WebVTT track. *)
Theorem transcript_needs_a_vtt_track
        (url : string) (r : Extraction) (tr : Transcript) :
  VideoExtractor.extract ydl_extract_info download_captions
                         webvtt_from_string url = Ok r ->
  transcript r = Some tr ->
  exists info t content,
    ydl_extract_info url = Ok (Some info)
    /\ get_captions_by_priority info = Some t
    /\ ext t = Some "vtt"
    /\ download_captions t = Ok content
    /\ parse_captions webvtt_from_string "vtt" content
       = Ok (plainText tr, segments tr)
    /\ language tr = default "English" (name t).
Proof using Type.
  intros H Htr. apply extract_ok in H as (info & Hy & H).
  destruct (get_captions_by_priority info) as [t|] eqn:Eg; [|congruence].
  destruct H as (content & plain_text & segs & He & Hd & Hp & Ht).
  rewrite Ht in Htr. injection Htr as <-.
  exists info, t, content. cbn [plainText segments language]. auto 7.
Qed.

(** X22: when the selection returns a track that is not WebVTT (it may
    return an srt or ttml track), [extract] returns no result; once the
    download has succeeded it raises the parser's [ValueError]. *)
Theorem extract_fails_on_other_formats
        (url : string) (info : VideoInfo) (t : Track) (fmt : string) :
  ydl_extract_info url = Ok (Some info) ->
  get_captions_by_priority info = Some t ->
  ext t = Some fmt ->
  fmt <> "vtt" ->
  (forall r,
      VideoExtractor.extract ydl_extract_info download_captions
                             webvtt_from_string url <> Ok r)
  /\ forall content,
      download_captions t = Ok content ->
      VideoExtractor.extract ydl_extract_info download_captions
                             webvtt_from_string url
      = Raise (ValueError ("Unsupported caption format: " +:+ fmt)).
Proof using Type.
  intros Hy Hg He Hne. split.
  - intros r H. apply extract_ok in H as (info' & Hy' & H).
    rewrite Hy in Hy'. injection Hy' as <-. rewrite Hg in H.
    destruct H as (_ & _ & _ & He' & _). congruence.
  - intros content Hd. unfold VideoExtractor.extract.
    rewrite Hy. cbn [rbind Ok]. rewrite Hg, Hd. cbn [rbind Ok].
    rewrite He. cbn [subscript rbind Ok]. unfold parse_captions.
    destruct (String.eqb_spec fmt "vtt") as [->|_]; [contradiction|].
    reflexivity.
Qed.

(** X23: a result of [extract] has no transcript exactly when the selection
    found no track. *)
Theorem no_transcript_exactly_without_a_track
        (url : string) (info : VideoInfo) (r : Extraction) :
  ydl_extract_info url = Ok (Some info) ->
  VideoExtractor.extract ydl_extract_info download_captions
                         webvtt_from_string url = Ok r ->
  (transcript r = None <-> get_captions_by_priority info = None).
Proof using Type.
  intros Hy H. apply extract_ok in H as (info' & Hy' & H).
  rewrite Hy in Hy'. injection Hy' as <-.
  destruct (get_captions_by_priority info) as [t|].
  - destruct H as (? & ? & ? & _ & _ & _ & ->). split; discriminate.
  - now split.
Qed.

(** X24: a video whose only captions are manual subtitles under a regional
    key that is not one of the five listed ones (say [en-IN]) gets a
    transcript labelled ["auto-generated"], although its track is one of
    the manual subtitles. *)
Theorem regional_subtitles_are_labelled_auto_generated
        (url : string) (info : VideoInfo) (r : Extraction) (tr : Transcript) :
  ydl_extract_info url = Ok (Some info) ->
  automatic_captions info = [] ->
  (forall lang, In lang subtitle_priorities ->
                dict_has (subtitles info) lang = false) ->
  VideoExtractor.extract ydl_extract_info download_captions
                         webvtt_from_string url = Ok r ->
  transcript r = Some tr ->
  caption_type tr = "auto-generated"
  /\ exists lang tracks t,
      In (lang, tracks) (subtitles info)
      /\ In t tracks
      /\ get_captions_by_priority info = Some t.
Proof using Type.
  intros Hy Hauto Hnone H Htr. apply extract_ok in H as (info' & Hy' & H).
  rewrite Hy in Hy'. injection Hy' as <-.
  destruct (get_captions_by_priority info) as [t|] eqn:Eg; [|congruence].
  destruct H as (content & plain_text & segs & He & Hd & Hp & Ht).
  assert (Hex : existsb (dict_has (subtitles info)) subtitle_priorities
                = false).
  { apply not_true_is_false. intros Hex.
    apply existsb_exists in Hex as (lang & Hl & Hhas).
    rewrite (Hnone lang Hl) in Hhas. discriminate. }
  rewrite Hex, andb_false_r in Ht.
  rewrite Ht in Htr. injection Htr as <-. split.
  - reflexivity.
  - destruct (get_captions_chosen _ _ Eg)
      as (lang & tracks & [Hin|Hin] & _ & Hf);
      [|rewrite Hauto in Hin; destruct Hin].
    apply find_format_best in Hf as [Hf _].
    exists lang, tracks, t. auto.
Qed.
End ExtractFacts.

Section ExtractExamples.
Import PyStr Extractor VideoExtractor.

Lemma transcript_needs_a_vtt_track_witness :
  exists r tr,
    VideoExtractor.extract (sample_ydl regional_info) sample_download
                           sample_webvtt "https://youtu.be/abc123" = Ok r
    /\ transcript r = Some tr
    /\ exists info t content,
        sample_ydl regional_info "https://youtu.be/abc123" = Ok (Some info)
        /\ get_captions_by_priority info = Some t
        /\ ext t = Some "vtt"
        /\ sample_download t = Ok content
        /\ parse_captions sample_webvtt "vtt" content
           = Ok (plainText tr, segments tr)
        /\ language tr = default "English" (name t).
Proof.
  eexists. eexists. split; [reflexivity|]. split; [reflexivity|].
  eapply (transcript_needs_a_vtt_track
            (sample_ydl regional_info) sample_download sample_webvtt
            "https://youtu.be/abc123"); reflexivity.
Defined.

Lemma extract_fails_on_other_formats_witness :
  (forall r,
      VideoExtractor.extract (sample_ydl srt_info) sample_download
                             sample_webvtt "https://youtu.be/abc123" <> Ok r)
  /\ forall content,
      sample_download (track_of "srt") = Ok content ->
      VideoExtractor.extract (sample_ydl srt_info) sample_download
                             sample_webvtt "https://youtu.be/abc123"
      = Raise (ValueError "Unsupported caption format: srt").
Proof.
  apply (extract_fails_on_other_formats
           (sample_ydl srt_info) sample_download sample_webvtt
           "https://youtu.be/abc123" srt_info (track_of "srt") "srt");
    [reflexivity|reflexivity|reflexivity|discriminate].
Defined.

Lemma no_transcript_exactly_without_a_track_witness :
  exists r,
    VideoExtractor.extract (sample_ydl json_only_info) sample_download
                           sample_webvtt "https://youtu.be/abc123" = Ok r
    /\ (transcript r = None
        <-> get_captions_by_priority json_only_info = None).
Proof.
  eexists. split; [reflexivity|].
  apply (no_transcript_exactly_without_a_track
           (sample_ydl json_only_info) sample_download sample_webvtt
           "https://youtu.be/abc123"); reflexivity.
Defined.

Lemma regional_subtitles_are_labelled_auto_generated_witness :
  exists r tr,
    VideoExtractor.extract (sample_ydl regional_info) sample_download
                           sample_webvtt "https://youtu.be/abc123" = Ok r
    /\ transcript r = Some tr
    /\ caption_type tr = "auto-generated"
    /\ exists lang tracks t,
        In (lang, tracks) (subtitles regional_info)
        /\ In t tracks
        /\ get_captions_by_priority regional_info = Some t.
Proof.
  eexists. eexists. split; [reflexivity|]. split; [reflexivity|].
  eapply (regional_subtitles_are_labelled_auto_generated
            (sample_ydl regional_info) sample_download sample_webvtt
            "https://youtu.be/abc123" regional_info);
    [reflexivity|reflexivity| |reflexivity|reflexivity].
  intros lang Hl. cbn in Hl.
  repeat destruct Hl as [<-|Hl]; try reflexivity. destruct Hl.
Defined.
End ExtractExamples.

(** * Keyword references of the steps *)

Section ReferenceFacts.
Import PyStr Recipes References.

Variable stemWord : string -> string.
Variables fuzz_ratio fuzz_partial_ratio : string -> string -> Q.
Variable float_interpolate : Z -> Z -> Z -> Z -> Z.

Lemma add_references_step_keeps (vtt_content : string) (s : Step) :
  step (instruction (add_references_step stemWord fuzz_ratio
                                         fuzz_partial_ratio vtt_content s))
  = step (instruction s)
  /\ keywords_of (add_references_step stemWord fuzz_ratio fuzz_partial_ratio
                                      vtt_content s)
     = keywords_of s.
Proof using Type.
  unfold add_references_step, keywords_of.
  destruct (_ ++ equipment s); split; reflexivity.
Qed.

Lemma add_references_step_refs (vtt_content : string) (s : Step) :
  video_references
    (instruction (add_references_step stemWord fuzz_ratio fuzz_partial_ratio
                                      vtt_content s))
  = search_vtt_for_keywords stemWord fuzz_ratio fuzz_partial_ratio
                            vtt_content (keywords_of s) 80.
Proof using Type.
  unfold add_references_step, keywords_of. cbn [app].
  rewrite <- app_assoc.
  destruct (ingredients s ++ techniques (instruction s) ++ equipment s)
    as [|k ks] eqn:E; cbn [set_video_references instruction video_references];
    [|reflexivity].
  unfold search_vtt_for_keywords, search_cues. reflexivity.
Qed.

(** X25: after [add_video_references] every reference of a step names one of
    that step's own ingredient, technique or equipment keywords, never a
    stopword, and stands for a cue of the transcript in which the
    stemmed keyword was found with threshold 80, at that cue's start in
    whole seconds; references the step came with are gone. *)
Theorem references_come_from_the_step_keywords
        (recipe : list Step) (vtt_content : string) (s : Step) (m : Match) :
  In s (add_video_references stemWord fuzz_ratio fuzz_partial_ratio
                             recipe vtt_content) ->
  In m (video_references (instruction s)) ->
  In (keyword m) (keywords_of s)
  /\ (lower (keyword m) ∉ STOPWORDS)
  /\ exists (i : nat) cue,
      parse_vtt_cues stemWord vtt_content !! i = Some cue
      /\ found_in fuzz_ratio fuzz_partial_ratio
                  (stem_keyword stemWord (keyword m)) 80 cue = true
      /\ timestamp_seconds m = timestamp_of cue.
Proof using Type.
  unfold add_video_references. intros Hs Hm.
  apply in_map_iff in Hs as (s0 & <- & _).
  rewrite add_references_step_refs in Hm.
  destruct (add_references_step_keeps vtt_content s0) as [_ ->].
  unfold search_vtt_for_keywords in Hm.
  apply search_cues_In, raw_hits_In in Hm
    as (Hk & Hstop & i & cue & Hi & Hf & Hm).
  split; [exact Hk|]. split; [exact Hstop|].
  exists i, cue. split; [exact Hi|]. split; [exact Hf|].
  rewrite Hm. reflexivity.
Qed.

(** X26: running [add_video_references] again on its own result, with the
    same transcript, changes nothing. *)
Theorem add_video_references_idempotent
        (recipe : list Step) (vtt_content : string) :
  add_video_references stemWord fuzz_ratio fuzz_partial_ratio
    (add_video_references stemWord fuzz_ratio fuzz_partial_ratio
                          recipe vtt_content)
    vtt_content
  = add_video_references stemWord fuzz_ratio fuzz_partial_ratio
                         recipe vtt_content.
Proof using Type.
  unfold add_video_references. rewrite map_map. apply map_ext.
  intros s. unfold add_references_step.
  destruct ((([] ++ ingredients s) ++ techniques (instruction s))
            ++ equipment s) as [|k ks] eqn:E;
    cbn [set_video_references instruction ingredients equipment techniques];
    rewrite E; reflexivity.
Qed.

(** X27: a transcript without a timestamp line gives no step a reference,
    and the timer then shares the video evenly among the steps: for
    steps in ascending order with at least five seconds each, step k
    (from 0) of n runs from k * (videoDuration // n) to
    (k + 1) * (videoDuration // n), the last one to videoDuration. *)
Theorem transcript_without_cues_spreads_the_steps
        (recipe : list Step) (vtt_content : string) (video_duration : Z) :
  no_timestamp_line vtt_content ->
  StronglySorted Z.le (map (fun s => step_key (instruction s)) recipe) ->
  5 <= video_duration / Z.of_nat (length recipe) ->
  Forall (fun s => video_references (instruction s) = [])
         (add_video_references stemWord fuzz_ratio fuzz_partial_ratio
                               recipe vtt_content)
  /\ exists out,
      predict_step_times
        float_interpolate
        (map instruction
             (add_video_references stemWord fuzz_ratio fuzz_partial_ratio
                                   recipe vtt_content))
        video_duration
      = Ok out
      /\ map window out = even_windows video_duration (length recipe).
Proof using Type.
  intros Hnone Hsorted Hd.
  set (steps := map instruction
                    (add_video_references stemWord fuzz_ratio
                                          fuzz_partial_ratio recipe
                                          vtt_content)).
  assert (Hlen : length steps = length recipe).
  { unfold steps, add_video_references. now rewrite !length_map. }
  assert (Hrefs : Forall (fun inst => video_references inst = []) steps).
  { unfold steps, add_video_references. rewrite map_map.
    apply List.Forall_map, List.Forall_forall. intros s _.
    rewrite add_references_step_refs. unfold search_vtt_for_keywords.
    replace (parse_vtt_cues stemWord vtt_content) with (@nil Cue)
      by (symmetry; apply parse_lines_no_timestamp, Hnone).
    apply search_cues_no_cues. }
  assert (Hkeys : map step_key steps
                  = map (fun s => step_key (instruction s)) recipe).
  { unfold steps, add_video_references. rewrite !map_map. apply map_ext.
    intros s. unfold step_key.
    now destruct (add_references_step_keeps vtt_content s) as [-> _]. }
  destruct (even_windows_without_matches float_interpolate steps
                                         video_duration)
    as (out & Hout & Hw).
  - exact Hrefs.
  - now rewrite Hkeys.
  - now rewrite Hlen.
  - split; [|exists out; split; [exact Hout|now rewrite <- Hlen]].
    unfold steps in Hrefs. now rewrite List.Forall_map in Hrefs.
Qed.
End ReferenceFacts.

Section ReferenceExamples.
Import PyStr Recipes References.

Lemma references_come_from_the_step_keywords_witness :
  In "whisk" (keywords_of (fresh_step 1 ["eggs"] ["whisk"] ["bowl"]))
  /\ (lower "whisk" ∉ STOPWORDS)
  /\ exists (i : nat) cue,
      parse_vtt_cues suffix_stemmer (two_mentions "20") !! i = Some cue
      /\ found_in no_similarity no_similarity
                  (stem_keyword suffix_stemmer "whisk") 80 cue = true
      /\ 20 = timestamp_of cue.
Proof.
  apply (references_come_from_the_step_keywords
           suffix_stemmer no_similarity no_similarity
           [fresh_step 1 ["eggs"] ["whisk"] ["bowl"]] (two_mentions "20")
           (add_references_step suffix_stemmer no_similarity no_similarity
                                (two_mentions "20")
                                (fresh_step 1 ["eggs"] ["whisk"] ["bowl"]))
           (mkMatch "whisk" 20 "whisk the eggs keep whisking")).
  - now left.
  - vm_compute. right. right. now left.
Defined.

Lemma transcript_without_cues_spreads_the_steps_witness :
  Forall (fun s => video_references (instruction s) = [])
         (add_video_references
            suffix_stemmer no_similarity no_similarity
            [fresh_step 1 ["eggs"] ["crack"] [];
             fresh_step 2 [] ["whisk"] ["bowl"];
             fresh_step 3 ["butter"] ["fry"] ["pan"]]
            headline_only)
  /\ exists out,
      predict_step_times
        exact_interpolate
        (map instruction
             (add_video_references
                suffix_stemmer no_similarity no_similarity
                [fresh_step 1 ["eggs"] ["crack"] [];
                 fresh_step 2 [] ["whisk"] ["bowl"];
                 fresh_step 3 ["butter"] ["fry"] ["pan"]]
                headline_only))
        100
      = Ok out
      /\ map window out = [Some (0, 33); Some (33, 66); Some (66, 100)].
Proof.
  apply (transcript_without_cues_spreads_the_steps
           suffix_stemmer no_similarity no_similarity exact_interpolate
           [fresh_step 1 ["eggs"] ["crack"] [];
            fresh_step 2 [] ["whisk"] ["bowl"];
            fresh_step 3 ["butter"] ["fry"] ["pan"]]
           headline_only 100).
  - intros line Hin. vm_compute in Hin.
    repeat destruct Hin as [<-|Hin]; try reflexivity. destruct Hin.
  - cbn. repeat constructor; lia.
  - vm_compute. discriminate.
Defined.
End ReferenceExamples.
